(** * A Phong ray tracer: the geometric core and the per-pixel shader

    Shallow embedding of [objects3d.py], [camera.py] and the shading part of
    [main.py].  Python floats are idealised as real numbers; the exceptions
    the code can raise ([ZeroDivisionError] of [/], [ValueError] of pygame's
    [Vector3.normalize] on a zero-length vector, [IndexError] of list
    indexing, ...) are kept, through a small error monad.  Where rounding,
    overflow or underflow decide what the code does, the module [F64] has
    the same tests on binary64 numbers. *)

From Stdlib Require Import Reals Lra Lia ZArith List Psatz RNsatz.
From Stdlib Require Floats.
Import ListNotations.
Local Open Scope R_scope.

(** ** Exceptions *)

Inductive exn : Set :=
| ZeroDivisionError
| ValueError
| IndexError
| TypeError
| OverflowError.

Inductive result (A : Type) : Type :=
| Ok (a : A)
| Raise (e : exn).

Arguments Ok {A} a.
Arguments Raise {A} e.

Definition bind {A B : Type} (m : result A) (k : A -> result B) : result B :=
  match m with
  | Ok a => k a
  | Raise e => Raise e
  end.

Notation "x <- m ;; k" := (bind m (fun x => k))
  (at level 61, m at next level, right associativity).
Notation "' p <- m ;; k" := (bind m (fun x => let p := x in k))
  (at level 61, p pattern, m at next level, right associativity).

(** [hits = []; for x in xs: hits += f(x)]: the results of [f] in order,
    stopping at the first exception. *)
Fixpoint concat_results {A B : Type} (f : A -> result (list B)) (xs : list A)
  : result (list B) :=
  match xs with
  | [] => Ok []
  | x :: rest =>
      hs <- f x ;;
      hs' <- concat_results f rest ;;
      Ok (hs ++ hs')
  end.

(** Python's [a / b] on numbers. *)
Definition pydiv (a b : R) : result R :=
  if Req_dec_T b 0 then Raise ZeroDivisionError else Ok (a / b).

(** Python's [l[i]]: negative indices count from the end. *)
Definition py_index {A : Type} (l : list A) (i : Z) : result A :=
  let len := Z.of_nat (length l) in
  let j := if (i <? 0)%Z then (len + i)%Z else i in
  if ((j <? 0) || (len <=? j))%Z%bool then Raise IndexError
  else match nth_error l (Z.to_nat j) with
       | Some a => Ok a
       | None => Raise IndexError
       end.

(** ** pygame's Vector3 *)

Record Vector3 : Set := vec3 { vx : R; vy : R; vz : R }.

Declare Scope vec_scope.
Delimit Scope vec_scope with vec.
Bind Scope vec_scope with Vector3.

Definition vzero : Vector3 := vec3 0 0 0.
Definition vadd (v w : Vector3) := vec3 (vx v + vx w) (vy v + vy w) (vz v + vz w).
Definition vsub (v w : Vector3) := vec3 (vx v - vx w) (vy v - vy w) (vz v - vz w).
Definition vneg (v : Vector3) := vec3 (- vx v) (- vy v) (- vz v).
Definition scale (k : R) (v : Vector3) := vec3 (k * vx v) (k * vy v) (k * vz v).
Definition vdiv (v : Vector3) (k : R) := vec3 (vx v / k) (vy v / k) (vz v / k).
Definition dot (v w : Vector3) : R := vx v * vx w + vy v * vy w + vz v * vz w.
Definition cross (v w : Vector3) :=
  vec3 (vy v * vz w - vz v * vy w)
       (vz v * vx w - vx v * vz w)
       (vx v * vy w - vy v * vx w).
Definition magnitude_squared (v : Vector3) : R := dot v v.
Definition magnitude (v : Vector3) : R := sqrt (magnitude_squared v).

Infix "+" := vadd : vec_scope.
Infix "-" := vsub : vec_scope.
Notation "- v" := (vneg v) : vec_scope.
Infix "*v" := scale (at level 40, left associativity).
Infix "·" := dot (at level 40, left associativity).

(** [v.normalize()] raises [ValueError] on a vector of length zero. *)
Definition normalize (v : Vector3) : result Vector3 :=
  if Req_dec_T (magnitude v) 0 then Raise ValueError
  else Ok (vdiv v (magnitude v)).

Definition vec_to_list (v : Vector3) : list R := [vx v; vy v; vz v].

(** ** Rays, materials, primitives *)

Record Ray : Set := mkRay { ray_pos : Vector3; ray_dir : Vector3 }.

Definition Ray_new (pos dir : Vector3) : result Ray :=
  d <- normalize dir ;;
  Ok (mkRay pos d).

Definition get_point (ray : Ray) (t : R) : Vector3 :=
  (ray_pos ray + t *v ray_dir ray)%vec.

Record Material : Set := mkMatl {
  ambi : Vector3;
  diff : Vector3;
  spec : Vector3;
  hard : R
}.

Record Plane : Set := mkPlane {
  plane_matl : Material;
  plane_pos : Vector3;
  plane_normal : Vector3;
  plane_d : R
}.

Definition Plane_new (matl : Material) (pos normal : Vector3) : result Plane :=
  n <- normalize normal ;;
  Ok (mkPlane matl pos n (pos · n)).

Record Sphere : Set := mkSphere {
  sphere_matl : Material;
  sphere_pos : Vector3;
  radius : R;
  radius2 : R
}.

Definition Sphere_new (matl : Material) (pos : Vector3) (radius : R) : Sphere :=
  mkSphere matl pos radius (radius ^ 2).

Record Box : Set := mkBox {
  box_matl : Material;
  box_pos : Vector3;
  extents : Vector3;
  axes : list Vector3
}.

Definition Box_new (matl : Material) (pos extents : Vector3) : Box :=
  mkBox matl pos extents [vec3 1 0 0; vec3 0 1 0; vec3 0 0 1].

Record Triangle : Set := mkTriangle {
  tri_matl : Material;
  tri_a : Vector3;
  tri_b : Vector3;
  tri_c : Vector3
}.

Record TriangleMesh : Set := mkMesh {
  mesh_matl : Material;
  tris : list Triangle;
  box : Box
}.

Inductive Object : Set :=
| OPlane (p : Plane)
| OSphere (s : Sphere)
| OBox (b : Box)
| OTriangle (t : Triangle)
| OMesh (m : TriangleMesh).

Definition matl (o : Object) : Material :=
  match o with
  | OPlane p => plane_matl p
  | OSphere s => sphere_matl s
  | OBox b => box_matl b
  | OTriangle t => tri_matl t
  | OMesh m => mesh_matl m
  end.

Record RayIntersection : Set := mkHit {
  hit_ray : Ray;
  hit_object : Object;
  hit_pos : Vector3;
  hit_normal : Vector3;
  hit_t : R
}.

Definition RayIntersection_new (ray : Ray) (object : Object)
    (pos normal : Vector3) (t : R) : result RayIntersection :=
  n <- normalize normal ;;
  Ok (mkHit ray object pos n t).

(** [min(hits)] on a non-empty list, with [__lt__] comparing [t]: the first
    hit of least [t]. *)
Definition min_hit (h : RayIntersection) (hs : list RayIntersection)
  : RayIntersection :=
  fold_left (fun best x => if Rlt_dec (hit_t x) (hit_t best) then x else best)
            hs h.

(** ** Intersection tests *)

Definition Plane_ray_test (self : Plane) (ray : Ray)
  : result (list RayIntersection) :=
  if Req_dec_T (plane_normal self · ray_dir ray) 0 then Ok []
  else
    t <- pydiv (plane_d self - ray_pos ray · plane_normal self)
               (plane_normal self · ray_dir ray) ;;
    if Rgt_dec t 0 then
      h <- RayIntersection_new ray (OPlane self) (get_point ray t)
                               (plane_normal self) t ;;
      Ok [h]
    else Ok [].

Definition Sphere_ray_test (self : Sphere) (ray : Ray)
  : result (list RayIntersection) :=
  let L := (sphere_pos self - ray_pos ray)%vec in
  let tca := L · ray_dir ray in
  if Rlt_dec tca 0 then Ok []
  else
    let d2 := magnitude_squared L - tca ^ 2 in
    if Rgt_dec d2 (radius2 self) then Ok []
    else
      let thc := sqrt (radius2 self - d2) in
      let t0 := tca - thc in
      let t1 := tca + thc in
      let '(t0, t1) := if Rgt_dec t0 t1 then (t1, t0) else (t0, t1) in
      let hit t0 :=
        let point := get_point ray t0 in
        n <- normalize (point - sphere_pos self)%vec ;;
        h <- RayIntersection_new ray (OSphere self) point n t0 ;;
        Ok [h] in
      if Rlt_dec t0 0 then
        let t0 := t1 in
        if Rlt_dec t0 0 then Ok [] else hit t0
      else hit t0.

(** The tolerance of the box and shadow tests, [0.0001]. *)
Definition eps : R := 1 / 10000.

(** One face of the box: the body of the inner loop of [Box.ray_test]. *)
Definition Box_face_test (self : Box) (ray : Ray) (face : Vector3 * R)
  : result (list RayIntersection) :=
  let '(normal, d) := face in
  match pydiv (d - ray_pos ray · normal) (ray_dir ray · normal) with
  | Raise ZeroDivisionError => Ok []
  | Raise e => Raise e
  | Ok t =>
      if Rge_dec t 0 then
        let p := get_point ray t in
        let lp := (box_pos self - p)%vec in
        let ex := vx (extents self) in
        let ey := vy (extents self) in
        let ez := vz (extents self) in
        a0 <- py_index (axes self) 0 ;;
        if Rlt_dec (- ex - eps) (lp · a0) then
        if Rlt_dec (lp · a0) (ex + eps) then
          a1 <- py_index (axes self) 1 ;;
          if Rlt_dec (- ey - eps) (lp · a1) then
          if Rlt_dec (lp · a1) (ey + eps) then
            a2 <- py_index (axes self) 2 ;;
            if Rlt_dec (- ez - eps) (lp · a2) then
            if Rlt_dec (lp · a2) (ez + eps) then
              h <- RayIntersection_new ray (OBox self) p normal t ;;
              Ok [h]
            else Ok [] else Ok []
          else Ok [] else Ok []
        else Ok [] else Ok []
      else Ok []
  end.

Definition Box_axis_test (self : Box) (ray : Ray) (ae : Vector3 * R)
  : result (list RayIntersection) :=
  let '(axis, extent) := ae in
  let d0 := (box_pos self - extent *v axis)%vec · (- axis)%vec in
  let d1 := (box_pos self + extent *v axis)%vec · axis in
  concat_results (Box_face_test self ray) [((- axis)%vec, d0); (axis, d1)].

Definition Box_ray_test (self : Box) (ray : Ray)
  : result (list RayIntersection) :=
  concat_results (Box_axis_test self ray)
                 (combine (axes self) (vec_to_list (extents self))).

Definition Box_rotate_x (self : Box) (radians : R) : Box :=
  let c := cos radians in
  let s := sin radians in
  mkBox (box_matl self) (box_pos self) (extents self)
        (map (fun axis => vec3 (vx axis)
                               (vy axis * c - vz axis * s)
                               (vy axis * s + vz axis * c))
             (axes self)).

Definition Box_rotate_y (self : Box) (radians : R) : Box :=
  let c := cos radians in
  let s := sin radians in
  mkBox (box_matl self) (box_pos self) (extents self)
        (map (fun axis => vec3 (vx axis * c + vz axis * s)
                               (vy axis)
                               (- vx axis * s + vz axis * c))
             (axes self)).

Definition Box_rotate_z (self : Box) (radians : R) : Box :=
  let c := cos radians in
  let s := sin radians in
  mkBox (box_matl self) (box_pos self) (extents self)
        (map (fun axis => vec3 (vx axis * c - vy axis * s)
                               (vx axis * s + vy axis * c)
                               (vz axis))
             (axes self)).

Definition Triangle_ray_test (self : Triangle) (ray : Ray)
  : result (list RayIntersection) :=
  let ab := (tri_b self - tri_a self)%vec in
  let ac := (tri_c self - tri_a self)%vec in
  normal <- normalize (cross ab ac) ;;
  let dp := normal · ray_dir ray in
  if Req_dec_T dp 0 then Ok []
  else
    t <- pydiv (normal · tri_a self - ray_pos ray · normal) dp ;;
    if Rlt_dec t 0 then Ok []
    else
      let p := get_point ray t in
      let ap := (p - tri_a self)%vec in
      let area_abc := magnitude (cross ab ac) / 2 in
      let area_abp := magnitude (cross ab ap) / 2 in
      let area_apc := magnitude (cross ap ac) / 2 in
      let area_pbc :=
        magnitude (cross (tri_b self - p)%vec (tri_c self - p)%vec) / 2 in
      q <- pydiv (area_abp + area_apc + area_pbc) area_abc ;;
      if Rle_dec q (10001 / 10000) then
        h <- RayIntersection_new ray (OTriangle self) p normal t ;;
        Ok [h]
      else Ok [].

Definition TriangleMesh_ray_test (self : TriangleMesh) (ray : Ray)
  : result (list RayIntersection) :=
  bhits <- Box_ray_test (box self) ray ;;
  match bhits with
  | [] => Ok []
  | _ :: _ => concat_results (fun tri => Triangle_ray_test tri ray) (tris self)
  end.

(** The single dispatch point of the duck-typed [object.ray_test(ray)]. *)
Definition ray_test (object : Object) (ray : Ray)
  : result (list RayIntersection) :=
  match object with
  | OPlane p => Plane_ray_test p ray
  | OSphere s => Sphere_ray_test s ray
  | OBox b => Box_ray_test b ray
  | OTriangle t => Triangle_ray_test t ray
  | OMesh m => TriangleMesh_ray_test m ray
  end.

(** ** Loading a triangle mesh *)

(** The records of the mesh source, after [line.split], [float] and [int]:
    a vertex line carries three coordinates, a face line its integer
    references; any other line is skipped by the loader. *)
Inductive MeshLine : Set :=
| VertexLine (x y z : R)
| FaceLine (refs : list Z)
| OtherLine.

(** The loader's local variables: [verts], [self.tris], and [min_vert]
    with [max_vert], which are [None] together until the first vertex. *)
Record LoadState : Set := mkLoad {
  verts : list Vector3;
  ld_tris : list Triangle;
  min_max : option (Vector3 * Vector3)
}.

Definition load_line (matl : Material) (offset : Vector3) (st : LoadState)
    (line : MeshLine) : result LoadState :=
  match line with
  | VertexLine x y z =>
      let new_vert := vec3 (x + vx offset) (y + vy offset) (z + vz offset) in
      let mm :=
        match min_max st with
        | None => (new_vert, new_vert)
        | Some (mn, mx) =>
            let pick_lt a b := if Rlt_dec a b then a else b in
            let pick_gt a b := if Rgt_dec a b then a else b in
            (vec3 (pick_lt (vx new_vert) (vx mn))
                  (pick_lt (vy new_vert) (vy mn))
                  (pick_lt (vz new_vert) (vz mn)),
             vec3 (pick_gt (vx new_vert) (vx mx))
                  (pick_gt (vy new_vert) (vy mx))
                  (pick_gt (vz new_vert) (vz mx)))
        end in
      Ok (mkLoad (verts st ++ [new_vert]) (ld_tris st) (Some mm))
  | FaceLine refs =>
      match map (fun val => (val - 1)%Z) refs with
      | [i0; i1; i2] =>
          a <- py_index (verts st) i0 ;;
          b <- py_index (verts st) i1 ;;
          c <- py_index (verts st) i2 ;;
          Ok (mkLoad (verts st) (ld_tris st ++ [mkTriangle matl a b c])
                     (min_max st))
      | _ => Raise ValueError
      end
  | OtherLine => Ok st
  end.

Fixpoint load_lines (matl : Material) (offset : Vector3) (st : LoadState)
    (lines : list MeshLine) : result LoadState :=
  match lines with
  | [] => Ok st
  | line :: rest =>
      st' <- load_line matl offset st line ;;
      load_lines matl offset st' rest
  end.

Definition TriangleMesh_new (matl : Material) (offset : Vector3)
    (lines : list MeshLine) : result TriangleMesh :=
  st <- load_lines matl offset (mkLoad [] [] None) lines ;;
  match min_max st with
  | None => Raise TypeError
  | Some (min_vert, max_vert) =>
      Ok (mkMesh matl (ld_tris st)
                 (Box_new matl (vdiv (min_vert + max_vert)%vec 2)
                               (vdiv (max_vert - min_vert)%vec 2)))
  end.

(** ** The camera *)

(** The constants of the configuration module. *)
Record Config : Set := mkConfig {
  SCREEN_WIDTH : Z;
  SCREEN_HEIGHT : Z;
  ASPECT_RATIO : R;
  AMBIENT_LIGHT_COLOR : Vector3
}.

Record Camera : Set := mkCamera {
  cam_pos : Vector3;
  z_axis : Vector3;
  x_axis : Vector3;
  y_axis : Vector3;
  view_height : R;
  view_width : R;
  view_origin : Vector3
}.

Definition radians (deg : R) : R := deg * PI / 180.

Definition Camera_new (config : Config) (pos coi up : Vector3) (fov near : R)
  : result Camera :=
  z_axis <- normalize (coi - pos)%vec ;;
  x_axis <- normalize (cross up z_axis) ;;
  let y_axis := cross z_axis x_axis in
  let view_height := 2 * near * tan (0.5 * radians fov) in
  let view_width := ASPECT_RATIO config * view_height in
  let view_origin :=
    (pos - (0.5 * view_width) *v x_axis
         + (0.5 * view_height) *v y_axis
         + near *v z_axis)%vec in
  Ok (mkCamera pos z_axis x_axis y_axis view_height view_width view_origin).

Definition get_pixel_pos_3d (config : Config) (self : Camera) (px py : Z)
  : result Vector3 :=
  perc_x <- pydiv (IZR px) (IZR (SCREEN_WIDTH config - 1)) ;;
  perc_y <- pydiv (IZR py) (IZR (SCREEN_HEIGHT config - 1)) ;;
  Ok (view_origin self
      + (view_width self * perc_x) *v x_axis self
      - (view_height self * perc_y) *v y_axis self)%vec.

(** ** The shader *)

Record Light : Set := mkLight {
  light_pos : Vector3;
  light_diff : Vector3;
  light_spec : Vector3
}.

Definition clamp_vec3 (v : Vector3) (lo hi : R) : Vector3 :=
  vec3 (Rmax lo (Rmin (vx v) hi))
       (Rmax lo (Rmin (vy v) hi))
       (Rmax lo (Rmin (vz v) hi)).

Definition hadamard (v w : Vector3) : Vector3 :=
  vec3 (vx v * vx w) (vy v * vy w) (vz v * vz w).

(** The loop over [objects] that decides [in_shadow].  It assigns the
    variable [closest] of [draw_pixel] at every object the shadow ray hits,
    so the loop returns [closest] along with [in_shadow]. *)
Fixpoint shadow_loop (objects : list Object) (shadow_ray : Ray)
    (to_light : Vector3) (closest : RayIntersection)
  : result (RayIntersection * bool) :=
  match objects with
  | [] => Ok (closest, false)
  | object :: rest =>
      hits <- ray_test object shadow_ray ;;
      match hits with
      | [] => shadow_loop rest shadow_ray to_light closest
      | h :: hs =>
          let closest := min_hit h hs in
          if Rlt_dec (hit_t closest ^ 2) (magnitude_squared to_light)
          then Ok (closest, true)
          else shadow_loop rest shadow_ray to_light closest
      end
  end.

(** The values the body of the light loop computes before the shadow test. *)
Record LightTerms : Set := mkTerms {
  to_light : Vector3;
  light_dir : Vector3;
  diff_strength : R;
  diff_color : Vector3;
  reflect_dir : Vector3;
  camera_dir : Vector3;
  spec_strength : R;
  spec_color : Vector3
}.

Definition light_terms (camera : Camera) (closest : RayIntersection)
    (light : Light) : result LightTerms :=
  let to_light := (light_pos light - hit_pos closest)%vec in
  light_dir <- normalize to_light ;;
  let diff_strength := light_dir · hit_normal closest in
  let diff_color :=
    if Rgt_dec diff_strength 0
    then diff_strength *v hadamard (light_diff light)
                                   (diff (matl (hit_object closest)))
    else vzero in
  let reflect_dir :=
    ((2 * diff_strength) *v hit_normal closest - light_dir)%vec in
  camera_dir <- normalize (cam_pos camera - hit_pos closest)%vec ;;
  let spec_strength := camera_dir · reflect_dir in
  let spec_color :=
    if Rgt_dec spec_strength 0
    then Rpower spec_strength (hard (matl (hit_object closest)))
         *v hadamard (light_spec light) (spec (matl (hit_object closest)))
    else vzero in
  Ok (mkTerms to_light light_dir diff_strength diff_color reflect_dir
              camera_dir spec_strength spec_color).

(** The body of [for light in lights], on the variables [closest] and
    [lit_color] it reads and assigns. *)
Definition light_step (camera : Camera) (objects : list Object)
    (st : RayIntersection * Vector3) (light : Light)
  : result (RayIntersection * Vector3) :=
  let '(closest, lit_color) := st in
  tm <- light_terms camera closest light ;;
  shadow_ray <- Ray_new (hit_pos closest + eps *v hit_normal closest)%vec
                        (light_dir tm) ;;
  '(closest', in_shadow) <- shadow_loop objects shadow_ray (to_light tm)
                                        closest ;;
  Ok (closest',
      if in_shadow : bool then lit_color
      else (lit_color + (diff_color tm + spec_color tm))%vec).

Fixpoint light_loop (camera : Camera) (objects : list Object)
    (st : RayIntersection * Vector3) (lights : list Light)
  : result (RayIntersection * Vector3) :=
  match lights with
  | [] => Ok st
  | light :: rest =>
      st' <- light_step camera objects st light ;;
      light_loop camera objects st' rest
  end.

(** [draw_pixel], returning the colour it hands to [surface.set_at]. *)
Definition draw_pixel (config : Config) (px py : Z) (camera : Camera)
    (objects : list Object) (lights : list Light) : result Vector3 :=
  pixel_pos <- get_pixel_pos_3d config camera px py ;;
  ray <- Ray_new (cam_pos camera) (pixel_pos - cam_pos camera)%vec ;;
  hits <- concat_results (fun object => ray_test object ray) objects ;;
  match hits with
  | h :: hs =>
      let closest := min_hit h hs in
      let lit_color :=
        hadamard (AMBIENT_LIGHT_COLOR config) (ambi (matl (hit_object closest))) in
      '(_, lit_color) <- light_loop camera objects (closest, lit_color) lights ;;
      Ok (255 *v clamp_vec3 lit_color 0 1)
  | [] => Ok (vec3 128 128 128)
  end.

(** ** The shader, as the specification words it

    Every light is shaded from the nearest intersection [hit] of the primary
    ray, and the shadow test looks at the nearest hit of the shadow ray
    among all primitives. *)

Definition in_shadow_spec (objects : list Object) (shadow_ray : Ray)
    (to_light : Vector3) : result bool :=
  hits <- concat_results (fun object => ray_test object shadow_ray) objects ;;
  match hits with
  | [] => Ok false
  | h :: hs =>
      Ok (if Rlt_dec (hit_t (min_hit h hs) ^ 2) (magnitude_squared to_light)
          then true else false)
  end.

Definition light_step_spec (camera : Camera) (objects : list Object)
    (hit : RayIntersection) (color : Vector3) (light : Light)
  : result Vector3 :=
  tm <- light_terms camera hit light ;;
  shadow_ray <- Ray_new (hit_pos hit + eps *v hit_normal hit)%vec
                        (light_dir tm) ;;
  in_shadow <- in_shadow_spec objects shadow_ray (to_light tm) ;;
  Ok (if in_shadow : bool then color
      else (color + (diff_color tm + spec_color tm))%vec).

Fixpoint light_loop_spec (camera : Camera) (objects : list Object)
    (hit : RayIntersection) (color : Vector3) (lights : list Light)
  : result Vector3 :=
  match lights with
  | [] => Ok color
  | light :: rest =>
      color' <- light_step_spec camera objects hit color light ;;
      light_loop_spec camera objects hit color' rest
  end.

Definition draw_pixel_spec (config : Config) (px py : Z) (camera : Camera)
    (objects : list Object) (lights : list Light) : result Vector3 :=
  pixel_pos <- get_pixel_pos_3d config camera px py ;;
  ray <- Ray_new (cam_pos camera) (pixel_pos - cam_pos camera)%vec ;;
  hits <- concat_results (fun object => ray_test object ray) objects ;;
  match hits with
  | h :: hs =>
      let hit := min_hit h hs in
      let color :=
        hadamard (AMBIENT_LIGHT_COLOR config) (ambi (matl (hit_object hit))) in
      color <- light_loop_spec camera objects hit color lights ;;
      Ok (255 *v clamp_vec3 color 0 1)
  | [] => Ok (vec3 128 128 128)
  end.

(** ** Sequences of box rotations *)

Inductive Rotation : Set :=
| RotX (radians : R)
| RotY (radians : R)
| RotZ (radians : R).

Definition rotate (self : Box) (r : Rotation) : Box :=
  match r with
  | RotX a => Box_rotate_x self a
  | RotY a => Box_rotate_y self a
  | RotZ a => Box_rotate_z self a
  end.

Definition rotations (self : Box) (rs : list Rotation) : Box :=
  fold_left rotate rs self.

Definition sum_angles (angles : list R) : R := fold_right Rplus 0 angles.

(** Three axes, each of length one, pairwise perpendicular. *)
Definition orthonormal (axes : list Vector3) : Prop :=
  exists a0 a1 a2,
    axes = [a0; a1; a2]
    /\ a0 · a0 = 1 /\ a1 · a1 = 1 /\ a2 · a2 = 1
    /\ a0 · a1 = 0 /\ a0 · a2 = 0 /\ a1 · a2 = 0.

(** ** Points inside a box *)

(** [p] is strictly inside the box: on each axis, the offset of [p] from the
    centre is smaller in magnitude than the half-extent. *)
Definition strictly_inside (self : Box) (p : Vector3) : Prop :=
  Forall2 (fun axis extent => Rabs ((p - box_pos self)%vec · axis) < extent)
          (axes self) (vec_to_list (extents self)).

(** The parameter at which a ray of local coordinate [o] and local speed
    [d <> 0] leaves the slab [[-e, e]]. *)
Definition exit_t (o d e : R) : R :=
  if Rlt_dec 0 d then (e - o) / d else (e + o) / (- d).

(** ** The view plane *)

(** The view plane of a camera: the plane through [view_origin]
    perpendicular to the viewing direction [z_axis]. *)
Definition on_view_plane (camera : Camera) (p : Vector3) : Prop :=
  (p - view_origin camera)%vec · z_axis camera = 0.

(** ** A small scene

    A camera at the origin looking down the z axis, on a screen of three by
    three pixels, and two planes [z = 5] (facing the camera) and [z = -1]
    (behind the camera, facing it). *)

Definition config0 : Config := mkConfig 3 3 1 (vec3 1 1 1).

(** A screen of a single pixel. *)
Definition config1 : Config := mkConfig 1 1 1 (vec3 1 1 1).

Definition camera0 : Camera :=
  mkCamera (vec3 0 0 0) (vec3 0 0 1) (vec3 1 0 0) (vec3 0 1 0) 2 2
           (vec3 (-1) 1 1).

Definition matl_red : Material :=
  mkMatl (vec3 (1 / 2) 0 0) (vec3 1 0 0) (vec3 1 1 1) 10.

Definition matl_green : Material :=
  mkMatl (vec3 0 (1 / 2) 0) (vec3 0 1 0) (vec3 1 1 1) 10.

Definition plane_front : Plane :=
  mkPlane matl_red (vec3 0 0 5) (vec3 0 0 (-1)) (-5).

Definition plane_back : Plane :=
  mkPlane matl_green (vec3 0 0 (-1)) (vec3 0 0 1) (-1).

Definition objects0 : list Object := [OPlane plane_front; OPlane plane_back].

(** The mesh source [v 0 0 0 / v 1 0 0 / v 0 1 0 / f 0 1 2]: the face refers
    to the vertex number 0, which does not exist (references count from 1). *)
Definition mesh_lines_zero : list MeshLine :=
  [VertexLine 0 0 0; VertexLine 1 0 0; VertexLine 0 1 0; FaceLine [0; 1; 2]%Z].

(** The same with a reference past the last vertex. *)
Definition mesh_lines_past : list MeshLine :=
  [VertexLine 0 0 0; VertexLine 1 0 0; VertexLine 0 1 0; FaceLine [1; 2; 4]%Z].

(** Two lights on the z axis: one far behind the camera, one between the
    camera and the front plane.  They have no specular colour. *)
Definition light_far : Light := mkLight (vec3 0 0 (-10)) (vec3 1 1 1) (vec3 0 0 0).
Definition light_near : Light := mkLight (vec3 0 0 2) (vec3 1 1 1) (vec3 0 0 0).
Definition lights0 : list Light := [light_far; light_near].

(** The primary ray of the middle pixel and its hit on the front plane. *)
Definition ray_primary : Ray := mkRay (vec3 0 0 0) (vec3 0 0 1).
Definition hit_front : RayIntersection :=
  mkHit ray_primary (OPlane plane_front) (vec3 0 0 5) (vec3 0 0 (-1)) 5.

(** The shadow ray cast from [hit_front] toward the lights, and its hit on
    the back plane. *)
Definition ray_shadow_front : Ray :=
  mkRay (vec3 0 0 (49999 / 10000)) (vec3 0 0 (-1)).
Definition hit_back : RayIntersection :=
  mkHit ray_shadow_front (OPlane plane_back) (vec3 0 0 (-1)) (vec3 0 0 1)
        (59999 / 10000).

(** The shadow ray cast from [hit_back] toward [light_near], and its hit on
    the front plane. *)
Definition ray_shadow_back : Ray :=
  mkRay (vec3 0 0 (-9999 / 10000)) (vec3 0 0 1).
Definition hit_front_again : RayIntersection :=
  mkHit ray_shadow_back (OPlane plane_front) (vec3 0 0 5) (vec3 0 0 (-1))
        (59999 / 10000).

(** A hit of an oblique ray from the camera on the front plane, and a light
    lying in that plane, so that its direction grazes the surface. *)
Definition ray_oblique : Ray := mkRay (vec3 0 0 0) (vec3 (3 / 5) 0 (4 / 5)).
Definition hit_oblique : RayIntersection :=
  mkHit ray_oblique (OPlane plane_front) (vec3 (15 / 4) 0 5) (vec3 0 0 (-1))
        (25 / 4).
Definition light_grazing : Light :=
  mkLight (vec3 (19 / 4) 0 5) (vec3 1 1 1) (vec3 1 1 1).

(** A unit sphere in front of the camera and a unit box around it. *)
Definition sphere0 : Sphere := Sphere_new matl_red (vec3 0 0 5) 1.
Definition box0 : Box := Box_new matl_green (vec3 0 0 0) (vec3 1 1 1).

(** The hit of the primary ray on the face [z = 1] of that box. *)
Definition hit_box0 : RayIntersection :=
  mkHit ray_primary (OBox box0) (vec3 0 0 1) (vec3 0 0 1) 1.

(** A mesh behind the camera whose only triangle is degenerate (its three
    corners coincide), and a mesh around the camera with a triangle across
    the z axis. *)
Definition box_behind : Box := Box_new matl_green (vec3 0 0 (-5)) (vec3 1 1 1).
Definition tri_point : Triangle :=
  mkTriangle matl_green (vec3 0 0 (-5)) (vec3 0 0 (-5)) (vec3 0 0 (-5)).
Definition mesh_behind : TriangleMesh := mkMesh matl_green [tri_point] box_behind.

Definition tri_across : Triangle :=
  mkTriangle matl_green (vec3 (-1) (-1) (1 / 2)) (vec3 1 (-1) (1 / 2))
             (vec3 0 1 (1 / 2)).
Definition hit_across : RayIntersection :=
  mkHit ray_primary (OTriangle tri_across) (vec3 0 0 (1 / 2)) (vec3 0 0 1)
        (1 / 2).
Definition mesh_around : TriangleMesh := mkMesh matl_green [tri_across] box0.

(** * Further definitions *)

(** ** Which primitive a hit names *)

(** The [object] a hit of [object.ray_test] is built with: the primitive
    itself, or for a mesh one of its triangles. *)
Definition owner (object o : Object) : Prop :=
  match object with
  | OMesh m => exists tri, In tri (tris m) /\ o = OTriangle tri
  | _ => o = object
  end.

(** ** Well-formed primitives *)

(** A triangle whose corners are not on one line. *)
Definition non_degenerate (tri : Triangle) : Prop :=
  cross (tri_b tri - tri_a tri)%vec (tri_c tri - tri_a tri)%vec <> vzero.

(** ** What a hit records *)

Definition hit_record_ok (ray : Ray) (object : Object) (h : RayIntersection)
  : Prop :=
  hit_ray h = ray
  /\ hit_pos h = get_point ray (hit_t h)
  /\ hit_normal h · hit_normal h = 1
  /\ owner object (hit_object h).

(** ** Exceptions a computation can raise *)

Definition raises_only (P : exn -> Prop) {A : Type} (m : result A) : Prop :=
  forall e, m = Raise e -> P e.

(** ** The position of a mesh *)

(** The property [TriangleMesh.pos]. *)
Definition TriangleMesh_pos (self : TriangleMesh) : Vector3 :=
  box_pos (box self).

(** ** What the mesh loader has read *)

(** The vertices of a source, offset applied, in the order of the lines. *)
Definition loaded_verts (offset : Vector3) (lines : list MeshLine)
  : list Vector3 :=
  flat_map (fun line =>
              match line with
              | VertexLine x y z =>
                  [vec3 (x + vx offset) (y + vy offset) (z + vz offset)]
              | _ => []
              end) lines.

Definition count_faces (lines : list MeshLine) : nat :=
  length (filter (fun line => match line with FaceLine _ => true | _ => false end)
                 lines).

Definition corners (tri : Triangle) : list Vector3 :=
  [tri_a tri; tri_b tri; tri_c tri].

(** Coordinate-wise order. *)
Definition le3 (v w : Vector3) : Prop :=
  vx v <= vx w /\ vy v <= vy w /\ vz v <= vz w.

(** [mn] and [mx] are the coordinate-wise minimum and maximum of [vs]. *)
Definition min_max_of (vs : list Vector3) (mn mx : Vector3) : Prop :=
  Forall (fun v => le3 mn v /\ le3 v mx) vs
  /\ (exists v, In v vs /\ vx v = vx mn) /\ (exists v, In v vs /\ vy v = vy mn)
  /\ (exists v, In v vs /\ vz v = vz mn) /\ (exists v, In v vs /\ vx v = vx mx)
  /\ (exists v, In v vs /\ vy v = vy mx) /\ (exists v, In v vs /\ vz v = vz mx).

(** [p] is in the closed box: on each axis its offset from the centre is at
    most the half-extent. *)
Definition inside_closed (self : Box) (p : Vector3) : Prop :=
  Forall2 (fun axis extent => Rabs ((p - box_pos self)%vec · axis) <= extent)
          (axes self) (vec_to_list (extents self)).

(** The loader's invariant after the lines [done]. *)
Definition load_inv (matl : Material) (offset : Vector3)
    (done : list MeshLine) (st : LoadState) : Prop :=
  verts st = loaded_verts offset done
  /\ length (ld_tris st) = count_faces done
  /\ Forall (fun tri => tri_matl tri = matl
                        /\ incl (corners tri) (verts st)) (ld_tris st)
  /\ match min_max st with
     | None => verts st = []
     | Some (mn, mx) => min_max_of (verts st) mn mx
     end.

(** Every face of the source has three references, each to one of the
    vertices read before it (counting from 1); [n] vertices were read before
    the first line. *)
Fixpoint refs_in_range (n : nat) (lines : list MeshLine) : Prop :=
  match lines with
  | [] => True
  | VertexLine _ _ _ :: rest => refs_in_range (S n) rest
  | FaceLine refs :: rest =>
      length refs = 3%nat
      /\ Forall (fun i => (1 <= i <= Z.of_nat n)%Z) refs
      /\ refs_in_range n rest
  | OtherLine :: rest => refs_in_range n rest
  end.

(** ** Occluders *)

(** The test of the shadow loop on one hit: is it nearer than the light? *)
Definition closer (to_light : Vector3) (h : RayIntersection) : bool :=
  if Rlt_dec (hit_t h ^ 2) (magnitude_squared to_light) then true else false.

(** ** The scene driver *)

(** The events [process_events] tells apart. *)
Inductive Key : Set := K_ESCAPE | OtherKey.

Inductive Event : Set :=
| QUIT
| KEYDOWN (key : Key)
| OtherEvent.

(** [process_events] on the events [pg.event.get()] returned: [None] when
    it returns, [Some quit_called] when it raises [SystemExit], where
    [quit_called] tells whether [pg.quit()] was called first.  The branch of
    [QUIT] names [pg.quit] without calling it. *)
Fixpoint process_events (events : list Event) : option bool :=
  match events with
  | [] => None
  | QUIT :: _ => Some false
  | KEYDOWN K_ESCAPE :: _ => Some true
  | _ :: rest => process_events rest
  end.

(** What [draw_scene] acts on: the calls of [surface.set_at] so far (oldest
    first), the number of calls of [pg.display.flip], and what the coming
    calls of [pg.event.get()] will return (nothing, once the list is used
    up). *)
Record Scene : Set := mkScene {
  written : list (Z * Z * Vector3);
  flips : nat;
  pending : list (list Event)
}.

(** How a loop is left early. *)
Inductive Stop : Set :=
| SystemExit (quit_called : bool)
| Exception (e : exn).

(** Python's [range(n)]. *)
Definition range (n : Z) : list Z := map Z.of_nat (seq 0 (Z.to_nat n)).

(** [for x in xs: body], left at the first iteration that stops. *)
Fixpoint for_each {S : Type} (body : Z -> S -> S * option Stop) (xs : list Z)
    (st : S) : S * option Stop :=
  match xs with
  | [] => (st, None)
  | x :: rest =>
      match body x st with
      | (st', None) => for_each body rest st'
      | (st', Some stop) => (st', Some stop)
      end
  end.

(** The body of the inner loop: [draw_pixel] then [process_events]. *)
Definition scene_pixel (config : Config) (camera : Camera)
    (objects : list Object) (lights : list Light) (y x : Z) (st : Scene)
  : Scene * option Stop :=
  match draw_pixel config x y camera objects lights with
  | Raise e => (st, Some (Exception e))
  | Ok colour =>
      let st' := mkScene (written st ++ [(x, y, colour)]) (flips st)
                         (tl (pending st)) in
      match process_events (hd [] (pending st)) with
      | None => (st', None)
      | Some quit_called => (st', Some (SystemExit quit_called))
      end
  end.

(** The body of the outer loop: a row of pixels, then the display flip. *)
Definition scene_row (config : Config) (camera : Camera)
    (objects : list Object) (lights : list Light) (y : Z) (st : Scene)
  : Scene * option Stop :=
  match for_each (scene_pixel config camera objects lights y)
                 (range (SCREEN_WIDTH config)) st with
  | (st', None) => (mkScene (written st') (S (flips st')) (pending st'), None)
  | stopped => stopped
  end.

Definition draw_scene (config : Config) (camera : Camera)
    (objects : list Object) (lights : list Light) (st : Scene)
  : Scene * option Stop :=
  for_each (scene_row config camera objects lights)
           (range (SCREEN_HEIGHT config)) st.

(** The pixels of the screen in scanline order. *)
Definition scanline (config : Config) : list (Z * Z) :=
  flat_map (fun y => map (fun x => (x, y)) (range (SCREEN_WIDTH config)))
           (range (SCREEN_HEIGHT config)).

(** An event that does not end the program. *)
Definition harmless (e : Event) : Prop := e <> QUIT /\ e <> KEYDOWN K_ESCAPE.

(** ** More of the small scene *)

(** A well-formed mesh source: three vertices and the face through them. *)
Definition mesh_lines_valid : list MeshLine :=
  [VertexLine 0 0 0; VertexLine 1 0 0; VertexLine 0 1 0; FaceLine [1; 2; 3]%Z].

(** The loader after the three vertex lines of that source (no offset). *)
Definition load_state3 : LoadState :=
  mkLoad [vec3 0 0 0; vec3 1 0 0; vec3 0 1 0] []
         (Some (vec3 0 0 0, vec3 1 1 0)).

(** A fresh surface and display, with nothing in the event queue; and the
    same when the second poll of the queue finds a [QUIT] event. *)
Definition scene_start : Scene := mkScene [] 0 [].
Definition scene_quit : Scene := mkScene [] 0 [[OtherEvent]; [QUIT]].

(** * Double precision

    The definitions so far read Python's floats as real numbers.  Python's
    [float] and the components of pygame's [Vector3] are IEEE 754 binary64
    numbers, and this module has the sphere, box and plane tests on them:
    every operation rounds to nearest, comparisons with a NaN are false,
    [x / 0.0] raises [ZeroDivisionError], [x ** 2] raises [OverflowError]
    when the square of a finite [x] overflows, [math.sqrt] raises
    [ValueError] on a negative number.  [Vector3] adds, subtracts and scales
    by component, its [dot] sums the three products from the left starting
    at [0.0], and [normalize] divides each component by the square root of
    [dot] of the vector with itself, raising [ValueError] when that root
    is zero. *)

Module F64.
Import PrimFloat FloatOps SpecFloat.
#[local] Set Warnings "-inexact-float".
Local Open Scope float_scope.

(** [a / b] on Python floats. *)
Definition pydiv (a b : float) : result float :=
  if b =? 0 then Raise ZeroDivisionError else Ok (a / b).

(** [x ** 2]: the rounded square (the library's [pow] returns it whenever
    the square is a binary64 number), [OverflowError] when it overflows. *)
Definition pypow2 (x : float) : result float :=
  let y := x * x in
  if (is_infinity y && negb (is_infinity x))%bool then Raise OverflowError
  else Ok y.

(** [math.sqrt]. *)
Definition pysqrt (x : float) : result float :=
  if x <? 0 then Raise ValueError else Ok (sqrt x).

(** ** pygame's Vector3 *)

Record Vector3 : Set := vec3 { vx : float; vy : float; vz : float }.

Definition vadd (v w : Vector3) := vec3 (vx v + vx w) (vy v + vy w) (vz v + vz w).
Definition vsub (v w : Vector3) := vec3 (vx v - vx w) (vy v - vy w) (vz v - vz w).
Definition vneg (v : Vector3) := vec3 (- vx v) (- vy v) (- vz v).
Definition scale (k : float) (v : Vector3) := vec3 (k * vx v) (k * vy v) (k * vz v).
Definition dot (v w : Vector3) : float :=
  0 + vx v * vx w + vy v * vy w + vz v * vz w.
Definition magnitude_squared (v : Vector3) : float := dot v v.

Definition normalize (v : Vector3) : result Vector3 :=
  let length := sqrt (dot v v) in
  if length =? 0 then Raise ValueError
  else Ok (vec3 (vx v / length) (vy v / length) (vz v / length)).

Definition vec_to_list (v : Vector3) : list float := [vx v; vy v; vz v].

(** ** Rays and primitives *)

Record Ray : Set := mkRay { ray_pos : Vector3; ray_dir : Vector3 }.

Definition Ray_new (pos dir : Vector3) : result Ray :=
  d <- normalize dir ;;
  Ok (mkRay pos d).

Definition get_point (ray : Ray) (t : float) : Vector3 :=
  vadd (ray_pos ray) (scale t (ray_dir ray)).

Record Material : Set := mkMatl {
  ambi : Vector3;
  diff : Vector3;
  spec : Vector3;
  hard : float
}.

Record Plane : Set := mkPlane {
  plane_matl : Material;
  plane_pos : Vector3;
  plane_normal : Vector3;
  plane_d : float
}.

Definition Plane_new (matl : Material) (pos normal : Vector3) : result Plane :=
  n <- normalize normal ;;
  Ok (mkPlane matl pos n (dot pos n)).

Record Sphere : Set := mkSphere {
  sphere_matl : Material;
  sphere_pos : Vector3;
  radius : float;
  radius2 : float
}.

Definition Sphere_new (matl : Material) (pos : Vector3) (radius : float)
  : result Sphere :=
  r2 <- pypow2 radius ;;
  Ok (mkSphere matl pos radius r2).

Record Box : Set := mkBox {
  box_matl : Material;
  box_pos : Vector3;
  extents : Vector3;
  axes : list Vector3
}.

Definition Box_new (matl : Material) (pos extents : Vector3) : Box :=
  mkBox matl pos extents [vec3 1 0 0; vec3 0 1 0; vec3 0 0 1].

Inductive Object : Set :=
| OPlane (p : Plane)
| OSphere (s : Sphere)
| OBox (b : Box).

Record RayIntersection : Set := mkHit {
  hit_ray : Ray;
  hit_object : Object;
  hit_pos : Vector3;
  hit_normal : Vector3;
  hit_t : float
}.

Definition RayIntersection_new (ray : Ray) (object : Object)
    (pos normal : Vector3) (t : float) : result RayIntersection :=
  n <- normalize normal ;;
  Ok (mkHit ray object pos n t).

(** ** Intersection tests *)

Definition Plane_ray_test (self : Plane) (ray : Ray)
  : result (list RayIntersection) :=
  if dot (plane_normal self) (ray_dir ray) =? 0 then Ok []
  else
    t <- pydiv (plane_d self - dot (ray_pos ray) (plane_normal self))
               (dot (plane_normal self) (ray_dir ray)) ;;
    if 0 <? t then
      h <- RayIntersection_new ray (OPlane self) (get_point ray t)
                               (plane_normal self) t ;;
      Ok [h]
    else Ok [].

(** The intersection [Sphere.ray_test] reports once it has settled on [t]. *)
Definition Sphere_hit (self : Sphere) (ray : Ray) (t : float)
  : result (list RayIntersection) :=
  let point := get_point ray t in
  n <- normalize (vsub point (sphere_pos self)) ;;
  h <- RayIntersection_new ray (OSphere self) point n t ;;
  Ok [h].

Definition Sphere_ray_test (self : Sphere) (ray : Ray)
  : result (list RayIntersection) :=
  let L := vsub (sphere_pos self) (ray_pos ray) in
  let tca := dot L (ray_dir ray) in
  if tca <? 0 then Ok []
  else
    sq <- pypow2 tca ;;
    let d2 := magnitude_squared L - sq in
    if radius2 self <? d2 then Ok []
    else
      thc <- pysqrt (radius2 self - d2) ;;
      let t0 := tca - thc in
      let t1 := tca + thc in
      let '(t0, t1) := if t1 <? t0 then (t1, t0) else (t0, t1) in
      if t0 <? 0 then
        let t0 := t1 in
        if t0 <? 0 then Ok [] else Sphere_hit self ray t0
      else Sphere_hit self ray t0.

(** The tolerance of the box test. *)
Definition eps : float := 0.0001.

(** One face of the box: the body of the inner loop of [Box.ray_test]. *)
Definition Box_face_test (self : Box) (ray : Ray) (face : Vector3 * float)
  : result (list RayIntersection) :=
  let '(normal, d) := face in
  match pydiv (d - dot (ray_pos ray) normal) (dot (ray_dir ray) normal) with
  | Raise ZeroDivisionError => Ok []
  | Raise e => Raise e
  | Ok t =>
      if 0 <=? t then
        let p := get_point ray t in
        let lp := vsub (box_pos self) p in
        let ex := vx (extents self) in
        let ey := vy (extents self) in
        let ez := vz (extents self) in
        a0 <- py_index (axes self) 0 ;;
        if - ex - eps <? dot lp a0 then
        if dot lp a0 <? ex + eps then
          a1 <- py_index (axes self) 1 ;;
          if - ey - eps <? dot lp a1 then
          if dot lp a1 <? ey + eps then
            a2 <- py_index (axes self) 2 ;;
            if - ez - eps <? dot lp a2 then
            if dot lp a2 <? ez + eps then
              h <- RayIntersection_new ray (OBox self) p normal t ;;
              Ok [h]
            else Ok [] else Ok []
          else Ok [] else Ok []
        else Ok [] else Ok []
      else Ok []
  end.

Definition Box_axis_test (self : Box) (ray : Ray) (ae : Vector3 * float)
  : result (list RayIntersection) :=
  let '(axis, extent) := ae in
  let d0 := dot (vsub (box_pos self) (scale extent axis)) (vneg axis) in
  let d1 := dot (vadd (box_pos self) (scale extent axis)) axis in
  concat_results (Box_face_test self ray) [(vneg axis, d0); (axis, d1)].

Definition Box_ray_test (self : Box) (ray : Ray)
  : result (list RayIntersection) :=
  concat_results (Box_axis_test self ray)
                 (combine (axes self) (vec_to_list (extents self))).

Definition ray_test (object : Object) (ray : Ray)
  : result (list RayIntersection) :=
  match object with
  | OPlane p => Plane_ray_test p ray
  | OSphere s => Sphere_ray_test s ray
  | OBox b => Box_ray_test b ray
  end.

(** ** The number a double stands for *)

(** The real number of a finite double; [0] for the infinities and NaN. *)
Definition to_R (x : float) : R :=
  match Prim2SF x with
  | S754_finite s m e =>
      (IZR (if s then Z.neg m else Z.pos m) * powerRZ 2 e)%R
  | _ => 0%R
  end.

(** ** A few spheres and a box *)

Definition matl0 : Material :=
  mkMatl (vec3 0 0 0) (vec3 0 0 0) (vec3 0 0 0) 1.

(** The ray from the origin along [z]. *)
Definition ray_z : Ray := mkRay (vec3 0 0 0) (vec3 0 0 1).





(** A sphere so far ahead that [tca ** 2] overflows. *)
Definition sphere_beyond : Sphere := mkSphere matl0 (vec3 0 0 2e154) 1 1.

(** A large box around the origin. *)
Definition box_large : Box := Box_new matl0 (vec3 0 0 0) (vec3 1e13 1e13 1e13).

(** A unit box around the origin and the hit of [ray_z] on it. *)
Definition box_unit : Box := Box_new matl0 (vec3 0 0 0) (vec3 1 1 1).
Definition hit_unit : RayIntersection :=
  mkHit ray_z (OBox box_unit) (vec3 0 0 1) (vec3 0 0 1) 1.

End F64.

(** The vector of reals a vector of finite doubles stands for. *)
Definition vec_to_R (v : F64.Vector3) : Vector3 :=
  vec3 (F64.to_R (F64.vx v)) (F64.to_R (F64.vy v)) (F64.to_R (F64.vz v)).

(** The large box and the ray from its centre, over the reals. *)
Definition box_large_exact : Box :=
  Box_new matl_green (vec3 0 0 0)
          (vec3 10000000000000 10000000000000 10000000000000).


(** ** A scene of glossy planes

    The two planes of the small scene in materials that only have a specular
    colour, red in front and green behind, and the two lights with a white
    specular colour and no diffuse one: what a pixel gets is the specular
    terms alone. *)

Definition matl_gloss_red : Material := mkMatl vzero vzero (vec3 1 0 0) 1.
Definition matl_gloss_green : Material := mkMatl vzero vzero (vec3 0 1 0) 1.

Definition plane_front_gloss : Plane :=
  mkPlane matl_gloss_red (vec3 0 0 5) (vec3 0 0 (-1)) (-5).
Definition plane_back_gloss : Plane :=
  mkPlane matl_gloss_green (vec3 0 0 (-1)) (vec3 0 0 1) (-1).
Definition objects_gloss : list Object :=
  [OPlane plane_front_gloss; OPlane plane_back_gloss].

Definition light_far_gloss : Light := mkLight (vec3 0 0 (-10)) vzero (vec3 1 1 1).
Definition light_near_gloss : Light := mkLight (vec3 0 0 2) vzero (vec3 1 1 1).
Definition lights_gloss : list Light := [light_far_gloss; light_near_gloss].

(** The hit of the primary ray of the middle pixel, the hit of the shadow
    ray of the far light on the back plane, and the hit of the shadow ray
    cast from there toward the near light. *)
Definition hit_front_gloss : RayIntersection :=
  mkHit ray_primary (OPlane plane_front_gloss) (vec3 0 0 5) (vec3 0 0 (-1)) 5.
Definition hit_back_gloss : RayIntersection :=
  mkHit ray_shadow_front (OPlane plane_back_gloss) (vec3 0 0 (-1)) (vec3 0 0 1)
        (59999 / 10000).
Definition hit_front_again_gloss : RayIntersection :=
  mkHit ray_shadow_back (OPlane plane_front_gloss) (vec3 0 0 5) (vec3 0 0 (-1))
        (59999 / 10000).


(** ** The shadow ray of a light *)

(** The hits, on all primitives, of the shadow ray cast from [hit] toward
    [light]. *)
Definition shadow_ray_hits (camera : Camera) (objects : list Object)
    (hit : RayIntersection) (light : Light) : result (list RayIntersection) :=
  tm <- light_terms camera hit light ;;
  shadow_ray <- Ray_new (hit_pos hit + eps *v hit_normal hit)%vec
                        (light_dir tm) ;;
  concat_results (fun object => ray_test object shadow_ray) objects.

(** ** A triangle lit from behind

    A screen of three by three pixels of aspect ratio [4/3], the camera at
    the origin looking down the z axis, and a triangle in the plane [z = 3]
    that faces the camera.  The primary ray of the pixel [(2, 1)] hits the
    triangle on its edge [x = 4]; the light is behind the plane of the
    triangle, opposite the camera. *)

Definition config_wide : Config := mkConfig 3 3 (4 / 3) (vec3 1 1 1).

Definition camera_wide : Camera :=
  mkCamera (vec3 0 0 0) (vec3 0 0 1) (vec3 1 0 0) (vec3 0 1 0) 2 (8 / 3)
           (vec3 (-4 / 3) 1 1).

Definition tri_edge : Triangle :=
  mkTriangle matl_red (vec3 4 1 3) (vec3 4 (-1) 3) (vec3 3 0 3).

Definition light_behind : Light := mkLight (vec3 8 0 6) (vec3 1 1 1) (vec3 1 1 1).

Definition ray_wide : Ray := mkRay (vec3 0 0 0) (vec3 (4 / 5) 0 (3 / 5)).
Definition hit_edge : RayIntersection :=
  mkHit ray_wide (OTriangle tri_edge) (vec3 4 0 3) (vec3 0 0 (-1)) 5.

(** The shadow ray cast from [hit_edge] toward [light_behind]. *)
Definition ray_shadow_edge : Ray :=
  mkRay (vec3 4 0 (29999 / 10000)) (vec3 (4 / 5) 0 (3 / 5)).

(** * Properties *)

(** ** Vectors *)

Lemma vec3_eq (a b c a' b' c' : R) :
  a = a' -> b = b' -> c = c' -> vec3 a b c = vec3 a' b' c'.
Proof. intros; subst; reflexivity. Qed.

Lemma vec3_eta (v : Vector3) : vec3 (vx v) (vy v) (vz v) = v.
Proof. destruct v; reflexivity. Qed.

Lemma dot_self_nonneg (v : Vector3) : 0 <= v · v.
Proof. unfold dot; nra. Qed.

Lemma magnitude_nonneg (v : Vector3) : 0 <= magnitude v.
Proof. apply sqrt_pos. Qed.

Lemma magnitude_sqr (v : Vector3) : magnitude v * magnitude v = v · v.
Proof. apply sqrt_sqrt, dot_self_nonneg. Qed.

Lemma magnitude_eq (v : Vector3) (m : R) :
  0 <= m -> v · v = m * m -> magnitude v = m.
Proof.
  intros Hm Hv. unfold magnitude, magnitude_squared.
  rewrite Hv. apply sqrt_square, Hm.
Qed.

Lemma magnitude_zero_iff (v : Vector3) : magnitude v = 0 <-> v = vzero.
Proof.
  split.
  - intros H. pose proof (magnitude_sqr v) as Hs. rewrite H in Hs.
    destruct v as [a b c]; unfold dot in Hs; cbn in Hs.
    apply vec3_eq; nra.
  - intros ->. apply magnitude_eq; [lra | unfold dot; cbn; ring].
Qed.

Lemma normalize_eq (v : Vector3) (m : R) :
  0 < m -> v · v = m * m -> normalize v = Ok (vdiv v m).
Proof.
  intros Hm Hv. unfold normalize.
  rewrite (magnitude_eq v m) by (lra || exact Hv).
  destruct (Req_dec_T m 0); [lra | reflexivity].
Qed.

Lemma normalize_to (v w : Vector3) (m : R) :
  0 < m -> v · v = m * m -> vdiv v m = w -> normalize v = Ok w.
Proof. intros Hm Hv <-. apply normalize_eq; assumption. Qed.

Lemma normalize_unit (v : Vector3) : v · v = 1 -> normalize v = Ok v.
Proof.
  intros Hv. rewrite (normalize_eq v 1) by (lra || (rewrite Hv; ring)).
  destruct v; unfold vdiv; cbn. f_equal. apply vec3_eq; field.
Qed.

Lemma normalize_Ok_unit (v n : Vector3) : normalize v = Ok n -> n · n = 1.
Proof.
  unfold normalize. destruct (Req_dec_T (magnitude v) 0) as [|Hm]; [discriminate|].
  intros [= <-]. pose proof (magnitude_sqr v) as Hs.
  unfold vdiv, dot in *; cbn. field_simplify; [|exact Hm].
  replace (vx v ^ 2 + vy v ^ 2 + vz v ^ 2) with (magnitude v * magnitude v)
    by (rewrite Hs; ring).
  field; exact Hm.
Qed.

Lemma normalize_Ok_inv (v n : Vector3) :
  normalize v = Ok n -> magnitude v <> 0 /\ n = vdiv v (magnitude v).
Proof.
  unfold normalize. destruct (Req_dec_T (magnitude v) 0); [discriminate|].
  intros [= <-]; auto.
Qed.

Lemma normalize_nonzero (v : Vector3) :
  v <> vzero -> exists n, normalize v = Ok n.
Proof.
  intros Hv. unfold normalize.
  destruct (Req_dec_T (magnitude v) 0) as [H|H]; [|eauto].
  apply magnitude_zero_iff in H; contradiction.
Qed.


Lemma vneg_unit (a : Vector3) : a · a = 1 -> (- a)%vec · (- a)%vec = 1.
Proof. intros <-. unfold dot, vneg; cbn. ring. Qed.

(** Arithmetic on vectors of given coordinates. *)
Ltac vunfold :=
  unfold get_point, hadamard, cross, magnitude_squared, dot,
    vadd, vsub, vneg, scale, vdiv, vzero, eps.

Ltac vcalc :=
  vunfold; cbn; rewrite <- ?opp_IZR; cbn [Z.opp]; try apply vec3_eq; lra.

(** ** Tests and exceptions *)

Lemma pydiv_nonzero (a b : R) : b <> 0 -> pydiv a b = Ok (a / b).
Proof. intros H. unfold pydiv. destruct (Req_dec_T b 0); [contradiction|reflexivity]. Qed.

Lemma pydiv_zero (a : R) : pydiv a 0 = Raise ZeroDivisionError.
Proof. unfold pydiv. destruct (Req_dec_T 0 0); [reflexivity|contradiction]. Qed.

Lemma py_index_3 {A : Type} (x0 x1 x2 : A) :
  py_index [x0; x1; x2] 0 = Ok x0
  /\ py_index [x0; x1; x2] 1 = Ok x1
  /\ py_index [x0; x1; x2] 2 = Ok x2.
Proof. repeat split; reflexivity. Qed.

Lemma Rlt_dec_true (a b : R) (A : Type) (x y : A) :
  a < b -> (if Rlt_dec a b then x else y) = x.
Proof. intros H. destruct (Rlt_dec a b); [reflexivity | contradiction]. Qed.

Lemma Rlt_dec_false (a b : R) (A : Type) (x y : A) :
  ~ a < b -> (if Rlt_dec a b then x else y) = y.
Proof. intros H. destruct (Rlt_dec a b); [contradiction | reflexivity]. Qed.

Lemma Rgt_dec_true (a b : R) (A : Type) (x y : A) :
  a > b -> (if Rgt_dec a b then x else y) = x.
Proof. intros H. destruct (Rgt_dec a b); [reflexivity | contradiction]. Qed.

Lemma Rgt_dec_false (a b : R) (A : Type) (x y : A) :
  ~ a > b -> (if Rgt_dec a b then x else y) = y.
Proof. intros H. destruct (Rgt_dec a b); [contradiction | reflexivity]. Qed.

Lemma bind_Ok_inv {A B : Type} (m : result A) (k : A -> result B) (b : B) :
  bind m k = Ok b -> exists a, m = Ok a /\ k a = Ok b.
Proof. destruct m as [a|e]; cbn; [eauto | discriminate]. Qed.

Lemma concat_results_Forall {A B : Type} (P : B -> Prop)
    (f : A -> result (list B)) (xs : list A) :
  (forall x hs, In x xs -> f x = Ok hs -> Forall P hs) ->
  forall hs, concat_results f xs = Ok hs -> Forall P hs.
Proof.
  induction xs as [|x rest IH]; cbn; intros Hf hs H.
  - injection H as <-. constructor.
  - apply bind_Ok_inv in H as (h1 & H1 & H).
    apply bind_Ok_inv in H as (h2 & H2 & [= <-]).
    apply Forall_app; split; [eapply Hf; eauto | eapply IH; eauto].
Qed.

Lemma concat_results_concat {A B : Type} (f : A -> result (list B))
    (xs : list A) (hss : list (list B)) :
  Forall2 (fun x hs => f x = Ok hs) xs hss ->
  concat_results f xs = Ok (concat hss).
Proof.
  induction 1 as [|x hs xs hss Hx _ IH]; cbn; [reflexivity|].
  rewrite Hx, IH. reflexivity.
Qed.

Lemma concat_results_total {A B : Type} (f : A -> result (list B)) (xs : list A) :
  (forall x, In x xs -> exists hs, f x = Ok hs) ->
  exists hs, concat_results f xs = Ok hs.
Proof.
  induction xs as [|x rest IH]; cbn; intros H; [eauto|].
  destruct (H x) as [hs Hx]; [auto|].
  destruct IH as [hs' Hr]; [auto|].
  rewrite Hx, Hr. cbn. eauto.
Qed.

Lemma concat_results_nonempty {A B : Type} (f : A -> result (list B)) (xs : list A) :
  (forall x, In x xs -> exists hs, f x = Ok hs) ->
  (exists x h hs, In x xs /\ f x = Ok (h :: hs)) ->
  exists h hs, concat_results f xs = Ok (h :: hs).
Proof.
  induction xs as [|x rest IH]; cbn; intros Hall (y & h & hs & Hin & Hy);
    [destruct Hin|].
  destruct (concat_results_total f rest) as [hr Hr]; [auto|].
  destruct Hin as [<-|Hin].
  - rewrite Hy, Hr. cbn. eauto.
  - destruct (Hall x) as [hx Hx]; [auto|].
    destruct IH as (h' & hs' & Hr'); [auto | eauto 6|].
    rewrite Hx, Hr'. cbn. destruct hx; cbn; eauto.
Qed.

(** A stored normal is unit, so [RayIntersection] keeps it as it is. *)
Lemma RayIntersection_new_unit ray object pos normal t :
  normal · normal = 1 ->
  RayIntersection_new ray object pos normal t
  = Ok (mkHit ray object pos normal t).
Proof.
  intros H. unfold RayIntersection_new. rewrite (normalize_unit _ H). reflexivity.
Qed.

Lemma RayIntersection_new_inv ray object pos normal t h :
  RayIntersection_new ray object pos normal t = Ok h ->
  hit_ray h = ray /\ hit_object h = object /\ hit_pos h = pos
  /\ normalize normal = Ok (hit_normal h) /\ hit_t h = t.
Proof.
  unfold RayIntersection_new. intros H.
  apply bind_Ok_inv in H as (n & Hn & [= <-]). cbn. auto.
Qed.

(** Any property of the single hit a test builds holds of all it returns. *)
Lemma single_hit_Forall (P : RayIntersection -> Prop) ray object pos normal t hs :
  (h <- RayIntersection_new ray object pos normal t ;; Ok [h]) = Ok hs ->
  (forall h, RayIntersection_new ray object pos normal t = Ok h -> P h) ->
  Forall P hs.
Proof.
  intros H HP. apply bind_Ok_inv in H as (h & Hh & [= <-]).
  constructor; [auto | constructor].
Qed.

Lemma ray_primary_new : Ray_new (vec3 0 0 0) (vec3 0 0 1) = Ok ray_primary.
Proof.
  unfold Ray_new. rewrite (normalize_to _ (vec3 0 0 1) 1); [| lra | vcalc | vcalc].
  reflexivity.
Qed.

(** ** Plane *)

Lemma Plane_new_inv matl pos normal self :
  Plane_new matl pos normal = Ok self ->
  plane_normal self · plane_normal self = 1
  /\ normalize normal = Ok (plane_normal self)
  /\ plane_pos self = pos
  /\ plane_d self = pos · plane_normal self.
Proof.
  unfold Plane_new. destruct (normalize normal) as [n|] eqn:Hn; [|discriminate].
  cbn. intros [= <-]. cbn. eauto using normalize_Ok_unit.
Qed.

Lemma Plane_ray_test_hit self ray t p :
  plane_normal self · plane_normal self = 1 ->
  plane_normal self · ray_dir ray <> 0 ->
  (plane_d self - ray_pos ray · plane_normal self)
  / (plane_normal self · ray_dir ray) = t ->
  t > 0 -> get_point ray t = p ->
  Plane_ray_test self ray = Ok [mkHit ray (OPlane self) p (plane_normal self) t].
Proof.
  intros Hu Hz Ht Hpos Hp. unfold Plane_ray_test.
  destruct (Req_dec_T _ 0); [contradiction|].
  rewrite (pydiv_nonzero _ _ Hz), Ht. cbn [bind].
  destruct (Rgt_dec t 0); [|contradiction].
  rewrite (RayIntersection_new_unit _ _ _ _ _ Hu), Hp. reflexivity.
Qed.

Lemma Plane_ray_test_behind self ray :
  plane_normal self · ray_dir ray <> 0 ->
  (plane_d self - ray_pos ray · plane_normal self)
  / (plane_normal self · ray_dir ray) <= 0 ->
  Plane_ray_test self ray = Ok [].
Proof.
  intros Hz Ht. unfold Plane_ray_test.
  destruct (Req_dec_T _ 0); [reflexivity|].
  rewrite (pydiv_nonzero _ _ Hz). cbn [bind].
  destruct (Rgt_dec _ 0); [lra | reflexivity].
Qed.

Lemma Plane_ray_test_parallel self ray :
  plane_normal self · ray_dir ray = 0 -> Plane_ray_test self ray = Ok [].
Proof.
  intros Hz. unfold Plane_ray_test.
  destruct (Req_dec_T _ 0); [reflexivity | contradiction].
Qed.

Lemma plane_front_new :
  Plane_new matl_red (vec3 0 0 5) (vec3 0 0 (-1)) = Ok plane_front.
Proof.
  unfold Plane_new. rewrite (normalize_to _ (vec3 0 0 (-1)) 1); [| lra | vcalc | vcalc].
  cbn [bind]. unfold plane_front. do 2 f_equal. vcalc.
Qed.




(** ** Sphere *)


(** ** Box rotations *)

Lemma sin2_cos2' (a : R) : sin a * sin a + cos a * cos a = 1.
Proof. pose proof (sin2_cos2 a) as H. unfold Rsqr in H. exact H. Qed.

Lemma rotate_pos_extents self r :
  box_pos (rotate self r) = box_pos self
  /\ extents (rotate self r) = extents self
  /\ box_matl (rotate self r) = box_matl self.
Proof. destruct r; cbn; auto. Qed.

(** The three coordinate rotations, as maps on one axis vector. *)
Lemma rot_x_dot (a : R) (v w : Vector3) :
  vec3 (vx v) (vy v * cos a - vz v * sin a) (vy v * sin a + vz v * cos a)
  · vec3 (vx w) (vy w * cos a - vz w * sin a) (vy w * sin a + vz w * cos a)
  = v · w.
Proof.
  unfold dot; cbn. pose proof (sin2_cos2' a) as H.
  transitivity (vx v * vx w
                + (sin a * sin a + cos a * cos a) * (vy v * vy w + vz v * vz w));
    [ring | rewrite H; ring].
Qed.

Lemma rot_y_dot (a : R) (v w : Vector3) :
  vec3 (vx v * cos a + vz v * sin a) (vy v) (- vx v * sin a + vz v * cos a)
  · vec3 (vx w * cos a + vz w * sin a) (vy w) (- vx w * sin a + vz w * cos a)
  = v · w.
Proof.
  unfold dot; cbn. pose proof (sin2_cos2' a) as H.
  transitivity (vy v * vy w
                + (sin a * sin a + cos a * cos a) * (vx v * vx w + vz v * vz w));
    [ring | rewrite H; ring].
Qed.

Lemma rot_z_dot (a : R) (v w : Vector3) :
  vec3 (vx v * cos a - vy v * sin a) (vx v * sin a + vy v * cos a) (vz v)
  · vec3 (vx w * cos a - vy w * sin a) (vx w * sin a + vy w * cos a) (vz w)
  = v · w.
Proof.
  unfold dot; cbn. pose proof (sin2_cos2' a) as H.
  transitivity (vz v * vz w
                + (sin a * sin a + cos a * cos a) * (vx v * vx w + vy v * vy w));
    [ring | rewrite H; ring].
Qed.

Lemma rotate_orthonormal self r :
  orthonormal (axes self) -> orthonormal (axes (rotate self r)).
Proof.
  intros (a0 & a1 & a2 & Hax & H).
  destruct r as [a|a|a]; cbn; rewrite Hax; cbn;
    (eexists _, _, _; split; [reflexivity|]).
  - rewrite !rot_x_dot. exact H.
  - rewrite !rot_y_dot. exact H.
  - rewrite !rot_z_dot. exact H.
Qed.

Lemma rotations_orthonormal rs : forall self,
  orthonormal (axes self) -> orthonormal (axes (rotations self rs)).
Proof.
  unfold rotations.
  induction rs as [|r rs IH]; cbn; intros self H; [exact H|].
  apply IH, rotate_orthonormal, H.
Qed.

Lemma Box_new_orthonormal matl pos ext : orthonormal (axes (Box_new matl pos ext)).
Proof.
  cbn. eexists _, _, _. split; [reflexivity|].
  unfold dot; cbn. repeat split; ring.
Qed.

Lemma rotations_pos_extents rs : forall self,
  box_pos (rotations self rs) = box_pos self
  /\ extents (rotations self rs) = extents self.
Proof.
  unfold rotations.
  induction rs as [|r rs IH]; cbn; intros self; [auto|].
  destruct (IH (rotate self r)) as [-> ->].
  destruct (rotate_pos_extents self r) as (-> & -> & _). auto.
Qed.

Lemma Box_eta (b : Box) (l : list Vector3) :
  l = axes b -> mkBox (box_matl b) (box_pos b) (extents b) l = b.
Proof. intros ->. destruct b; reflexivity. Qed.

Lemma Box_rotate_x_0 self : Box_rotate_x self 0 = self.
Proof.
  unfold Box_rotate_x. rewrite cos_0, sin_0. apply Box_eta.
  rewrite <- (map_id (axes self)) at 2. apply map_ext.
  intros [x y z]; cbn. apply vec3_eq; ring.
Qed.

Lemma Box_rotate_y_0 self : Box_rotate_y self 0 = self.
Proof.
  unfold Box_rotate_y. rewrite cos_0, sin_0. apply Box_eta.
  rewrite <- (map_id (axes self)) at 2. apply map_ext.
  intros [x y z]; cbn. apply vec3_eq; ring.
Qed.

Lemma Box_rotate_z_0 self : Box_rotate_z self 0 = self.
Proof.
  unfold Box_rotate_z. rewrite cos_0, sin_0. apply Box_eta.
  rewrite <- (map_id (axes self)) at 2. apply map_ext.
  intros [x y z]; cbn. apply vec3_eq; ring.
Qed.

Lemma Box_rotate_x_plus self a b :
  Box_rotate_x (Box_rotate_x self a) b = Box_rotate_x self (a + b).
Proof.
  unfold Box_rotate_x; cbn. f_equal. rewrite map_map. apply map_ext.
  intros [x y z]; cbn. rewrite cos_plus, sin_plus. apply vec3_eq; ring.
Qed.

Lemma Box_rotate_y_plus self a b :
  Box_rotate_y (Box_rotate_y self a) b = Box_rotate_y self (a + b).
Proof.
  unfold Box_rotate_y; cbn. f_equal. rewrite map_map. apply map_ext.
  intros [x y z]; cbn. rewrite cos_plus, sin_plus. apply vec3_eq; ring.
Qed.

Lemma Box_rotate_z_plus self a b :
  Box_rotate_z (Box_rotate_z self a) b = Box_rotate_z self (a + b).
Proof.
  unfold Box_rotate_z; cbn. f_equal. rewrite map_map. apply map_ext.
  intros [x y z]; cbn. rewrite cos_plus, sin_plus. apply vec3_eq; ring.
Qed.

(** Rotations about one axis compose by adding their angles. *)
Lemma rotations_one_axis (rot : R -> Rotation) (f : Box -> R -> Box) :
  (forall b a, rotate b (rot a) = f b a) ->
  (forall b, f b 0 = b) ->
  (forall b a1 a2, f (f b a1) a2 = f b (a1 + a2)) ->
  forall angles self,
    rotations self (map rot angles) = f self (sum_angles angles).
Proof.
  intros Hrot H0 Hplus. unfold rotations.
  induction angles as [|a rest IH]; cbn; intros self.
  - symmetry. apply H0.
  - rewrite IH, Hrot. apply Hplus.
Qed.

Lemma full_turn_x self : Box_rotate_x self (2 * PI) = self.
Proof.
  rewrite <- (Box_rotate_x_0 self) at 2. unfold Box_rotate_x.
  rewrite cos_2PI, sin_2PI, cos_0, sin_0. reflexivity.
Qed.

Lemma full_turn_y self : Box_rotate_y self (2 * PI) = self.
Proof.
  rewrite <- (Box_rotate_y_0 self) at 2. unfold Box_rotate_y.
  rewrite cos_2PI, sin_2PI, cos_0, sin_0. reflexivity.
Qed.

Lemma full_turn_z self : Box_rotate_z self (2 * PI) = self.
Proof.
  rewrite <- (Box_rotate_z_0 self) at 2. unfold Box_rotate_z.
  rewrite cos_2PI, sin_2PI, cos_0, sin_0. reflexivity.
Qed.

(** C8: the rotation operators are pure rotations of the axis vectors.
    After any sequence of rotations of a box the three axes are mutually
    orthonormal and the centre and the half-extents are unchanged; and
    rotations about one axis whose angles sum to [2*PI] give back the
    original axis vectors. *)
Theorem Box_rotations_rigid :
  (forall matl pos ext rs,
      let b := rotations (Box_new matl pos ext) rs in
      orthonormal (axes b) /\ box_pos b = pos /\ extents b = ext)
  /\ (forall self rs,
      (orthonormal (axes self) -> orthonormal (axes (rotations self rs)))
      /\ box_pos (rotations self rs) = box_pos self
      /\ extents (rotations self rs) = extents self)
  /\ (forall self angles,
      sum_angles angles = 2 * PI ->
      axes (rotations self (map RotX angles)) = axes self
      /\ axes (rotations self (map RotY angles)) = axes self
      /\ axes (rotations self (map RotZ angles)) = axes self).
Proof.
  split; [|split].
  - intros matl pos ext rs b.
    destruct (rotations_pos_extents rs (Box_new matl pos ext)) as [Hp He].
    split; [|split; assumption].
    apply rotations_orthonormal, Box_new_orthonormal.
  - intros self rs.
    destruct (rotations_pos_extents rs self) as [Hp He].
    split; [apply rotations_orthonormal | split; assumption].
  - intros self angles Hsum.
    rewrite (rotations_one_axis RotX Box_rotate_x), (rotations_one_axis RotY Box_rotate_y),
      (rotations_one_axis RotZ Box_rotate_z);
      try reflexivity;
      auto using Box_rotate_x_0, Box_rotate_y_0, Box_rotate_z_0,
        Box_rotate_x_plus, Box_rotate_y_plus, Box_rotate_z_plus.
    rewrite Hsum, full_turn_x, full_turn_y, full_turn_z. auto.
Qed.

Lemma Box_rotations_rigid_witness :
  axes (rotations box0 (map RotX [PI; PI])) = axes box0
  /\ orthonormal (axes (rotations box0 [RotZ (PI / 4); RotX (PI / 12)])).
Proof.
  destruct Box_rotations_rigid as (Hnew & Hany & Hturn).
  split.
  - apply Hturn. cbn. lra.
  - apply (Hnew matl_green (vec3 0 0 0) (vec3 1 1 1)).
Defined.

(** ** A ray from inside a box *)

Lemma basis_separates (a0 a1 a2 v : Vector3) :
  orthonormal [a0; a1; a2] ->
  v · a0 = 0 -> v · a1 = 0 -> v · a2 = 0 -> v = vzero.
Proof.
  intros (b0 & b1 & b2 & [= <- <- <-] & H).
  destruct a0 as [x0 y0 z0], a1 as [x1 y1 z1], a2 as [x2 y2 z2], v as [x y z].
  unfold dot, vzero in *; cbn in *.
  destruct H as (? & ? & ? & ? & ? & ?). intros.
  apply vec3_eq; nsatz.
Qed.

Lemma exit_t_pos o d e : Rabs o < e -> d <> 0 -> 0 < exit_t o d e.
Proof.
  intros Ho Hd. apply Rabs_def2 in Ho. unfold exit_t.
  destruct (Rlt_dec 0 d).
  - apply Rdiv_lt_0_compat; lra.
  - apply Rdiv_lt_0_compat; lra.
Qed.

(** Up to its exit parameter the ray stays in the slab. *)
Lemma slab_until_exit o d e t :
  Rabs o < e -> 0 <= t ->
  (d = 0 \/ (d <> 0 /\ t <= exit_t o d e)) ->
  - e <= o + t * d <= e.
Proof.
  intros Ho Ht Hd. apply Rabs_def2 in Ho.
  destruct Hd as [-> | [Hd Hle]]; [lra|].
  unfold exit_t in Hle. destruct (Rlt_dec 0 d) as [Hp|Hp].
  - assert (t * d <= e - o).
    { apply (Rmult_le_compat_r d) in Hle; [|lra].
      replace ((e - o) / d * d) with (e - o) in Hle by (field; lra). exact Hle. }
    assert (0 <= t * d) by (apply Rmult_le_pos; lra). lra.
  - assert (Hn : 0 < - d) by lra.
    assert (t * (- d) <= e + o).
    { apply (Rmult_le_compat_r (- d)) in Hle; [|lra].
      replace ((e + o) / - d * - d) with (e + o) in Hle by (field; lra). exact Hle. }
    assert (0 <= t * (- d)) by (apply Rmult_le_pos; lra). lra.
Qed.

(** Among three slabs, one of which the ray is not parallel to, some slab is
    left first. *)
Lemma first_exit (o0 o1 o2 d0 d1 d2 e0 e1 e2 : R) :
  ~ (d0 = 0 /\ d1 = 0 /\ d2 = 0) ->
  exists t,
    ((d0 <> 0 /\ t = exit_t o0 d0 e0) \/ (d1 <> 0 /\ t = exit_t o1 d1 e1)
     \/ (d2 <> 0 /\ t = exit_t o2 d2 e2))
    /\ (d0 = 0 \/ (d0 <> 0 /\ t <= exit_t o0 d0 e0))
    /\ (d1 = 0 \/ (d1 <> 0 /\ t <= exit_t o1 d1 e1))
    /\ (d2 = 0 \/ (d2 <> 0 /\ t <= exit_t o2 d2 e2)).
Proof.
  intros Hnz.
  set (t0 := exit_t o0 d0 e0). set (t1 := exit_t o1 d1 e1).
  set (t2 := exit_t o2 d2 e2).
  destruct (Req_dec_T d0 0) as [H0|H0], (Req_dec_T d1 0) as [H1|H1],
    (Req_dec_T d2 0) as [H2|H2]; try tauto.
  - exists t2. repeat split; auto; right; split; auto; lra.
  - exists t1. repeat split; auto; right; split; auto; lra.
  - destruct (Rle_dec t1 t2).
    + exists t1. repeat split; auto; right; split; auto; lra.
    + exists t2. repeat split; auto; right; split; auto; lra.
  - exists t0. repeat split; auto; right; split; auto; lra.
  - destruct (Rle_dec t0 t2).
    + exists t0. repeat split; auto; right; split; auto; lra.
    + exists t2. repeat split; auto; right; split; auto; lra.
  - destruct (Rle_dec t0 t1).
    + exists t0. repeat split; auto; right; split; auto; lra.
    + exists t1. repeat split; auto; right; split; auto; lra.
  - destruct (Rle_dec t0 t1), (Rle_dec t0 t2), (Rle_dec t1 t2);
      try (exists t0; repeat split; auto; right; split; auto; lra);
      try (exists t1; repeat split; auto; right; split; auto; lra);
      try (exists t2; repeat split; auto; right; split; auto; lra).
Qed.

Section BoxFaces.

Variables (self : Box) (ray : Ray) (a0 a1 a2 : Vector3).
Hypothesis Hax : axes self = [a0; a1; a2].

(** A face whose candidate point lies within the three slabs is reported. *)
Lemma Box_face_test_accept normal d :
  normal · normal = 1 ->
  ray_dir ray · normal <> 0 ->
  let t := (d - ray_pos ray · normal) / (ray_dir ray · normal) in
  let lp := (box_pos self - get_point ray t)%vec in
  0 <= t ->
  - vx (extents self) <= lp · a0 <= vx (extents self) ->
  - vy (extents self) <= lp · a1 <= vy (extents self) ->
  - vz (extents self) <= lp · a2 <= vz (extents self) ->
  Box_face_test self ray (normal, d)
  = Ok [mkHit ray (OBox self) (get_point ray t) normal t].
Proof.
  intros Hn Hd t lp Ht H0 H1 H2.
  unfold Box_face_test. rewrite (pydiv_nonzero _ _ Hd). fold t.
  destruct (Rge_dec t 0); [|lra].
  rewrite Hax. destruct (py_index_3 a0 a1 a2) as (-> & -> & ->). cbn.
  fold lp. unfold eps.
  repeat match goal with
         | |- context [Rlt_dec ?a ?b] => destruct (Rlt_dec a b); [|lra]
         end.
  rewrite (RayIntersection_new_unit _ _ _ _ _ Hn). reflexivity.
Qed.

Lemma Box_face_test_hit normal d t p :
  normal · normal = 1 ->
  ray_dir ray · normal <> 0 ->
  (d - ray_pos ray · normal) / (ray_dir ray · normal) = t ->
  0 <= t ->
  get_point ray t = p ->
  - vx (extents self) <= (box_pos self - p)%vec · a0 <= vx (extents self) ->
  - vy (extents self) <= (box_pos self - p)%vec · a1 <= vy (extents self) ->
  - vz (extents self) <= (box_pos self - p)%vec · a2 <= vz (extents self) ->
  Box_face_test self ray (normal, d)
  = Ok [mkHit ray (OBox self) p normal t].
Proof.
  intros Hn Hd <- Ht <- H0 H1 H2. apply Box_face_test_accept; assumption.
Qed.

Lemma Box_face_test_total normal d :
  normal · normal = 1 ->
  exists hs, Box_face_test self ray (normal, d) = Ok hs.
Proof.
  intros Hn. unfold Box_face_test.
  unfold pydiv. destruct (Req_dec_T _ 0); [eauto|].
  destruct (Rge_dec _ 0); [|eauto].
  rewrite Hax. destruct (py_index_3 a0 a1 a2) as (-> & -> & ->). cbn.
  rewrite (RayIntersection_new_unit _ _ _ _ _ Hn). cbn.
  repeat match goal with
         | |- context [Rlt_dec ?a ?b] => destruct (Rlt_dec a b); eauto
         end.
Qed.

Lemma Box_axis_test_total axis extent :
  axis · axis = 1 ->
  exists hs, Box_axis_test self ray (axis, extent) = Ok hs.
Proof.
  intros Hn. unfold Box_axis_test.
  apply concat_results_total. intros [normal d] Hin.
  destruct Hin as [[= <- <-] | [[= <- <-] | []]];
    eauto using Box_face_test_total, vneg_unit.
Qed.

(** The axis along which the ray leaves the box first reports a hit. *)
Lemma Box_axis_test_exit axis extent :
  axis · axis = 1 ->
  let o := (ray_pos ray - box_pos self)%vec in
  let dir := ray_dir ray in
  let t := exit_t (o · axis) (dir · axis) extent in
  dir · axis <> 0 ->
  0 <= t ->
  - vx (extents self) <= o · a0 + t * (dir · a0) <= vx (extents self) ->
  - vy (extents self) <= o · a1 + t * (dir · a1) <= vy (extents self) ->
  - vz (extents self) <= o · a2 + t * (dir · a2) <= vz (extents self) ->
  exists h hs, Box_axis_test self ray (axis, extent) = Ok (h :: hs).
Proof.
  intros Hn o dir t Hd Ht H0 H1 H2.
  assert (Hlp : forall a, (box_pos self - get_point ray t)%vec · a
                          = - (o · a + t * (dir · a))).
  { intros a. unfold o, dir, get_point, dot, vsub, vadd, scale; cbn. ring. }
  unfold Box_axis_test. apply concat_results_nonempty.
  - intros [normal d] Hin.
    destruct Hin as [[= <- <-] | [[= <- <-] | []]];
      eauto using Box_face_test_total, vneg_unit.
  - unfold t, exit_t in *. fold dir in Hd. destruct (Rlt_dec 0 (dir · axis)) as [Hp|Hp].
    + eexists _, _, _. split; [right; left; reflexivity|].
      assert (Ht' : (((box_pos self + extent *v axis)%vec · axis)
                     - ray_pos ray · axis) / (ray_dir ray · axis)
                    = (extent - o · axis) / (dir · axis)).
      { fold dir. f_equal. transitivity (extent * (axis · axis) - o · axis);
          [unfold o, dot, vadd, vsub, scale; cbn; ring | rewrite Hn; ring]. }
      apply Box_face_test_accept; auto;
        rewrite Ht'; rewrite ?Hlp; lra.
    + eexists _, _, _. split; [left; reflexivity|].
      assert (Hd' : ray_dir ray · (- axis)%vec = - (dir · axis))
        by (unfold dir, dot, vneg; cbn; ring).
      assert (Ht' : (((box_pos self - extent *v axis)%vec · (- axis)%vec)
                     - ray_pos ray · (- axis)%vec) / (ray_dir ray · (- axis)%vec)
                    = (extent + o · axis) / - (dir · axis)).
      { rewrite Hd'. f_equal.
        transitivity (extent * (axis · axis) + o · axis);
          [unfold o, dot, vadd, vsub, vneg, scale; cbn; ring | rewrite Hn; ring]. }
      apply Box_face_test_accept; auto using vneg_unit;
        rewrite ?Ht'; rewrite ?Hlp; lra.
Qed.

End BoxFaces.

Lemma Box_face_test_parallel self ray normal d :
  ray_dir ray · normal = 0 -> Box_face_test self ray (normal, d) = Ok [].
Proof.
  intros H. unfold Box_face_test. rewrite H, pydiv_zero. reflexivity.
Qed.

Lemma Box_face_test_behind self ray normal d :
  ray_dir ray · normal <> 0 ->
  (d - ray_pos ray · normal) / (ray_dir ray · normal) < 0 ->
  Box_face_test self ray (normal, d) = Ok [].
Proof.
  intros Hz Ht. unfold Box_face_test. rewrite (pydiv_nonzero _ _ Hz).
  destruct (Rge_dec _ 0); [lra | reflexivity].
Qed.

Lemma box_behind_primary : Box_ray_test box_behind ray_primary = Ok [].
Proof.
  unfold Box_ray_test.
  change (combine (axes box_behind) (vec_to_list (extents box_behind)))
    with [(vec3 1 0 0, 1); (vec3 0 1 0, 1); (vec3 0 0 1, 1)].
  cbn [concat_results Box_axis_test].
  rewrite (Box_face_test_parallel _ _ (- vec3 1 0 0)%vec),
    (Box_face_test_parallel _ _ (vec3 1 0 0)),
    (Box_face_test_parallel _ _ (- vec3 0 1 0)%vec),
    (Box_face_test_parallel _ _ (vec3 0 1 0)) by vcalc.
  rewrite (Box_face_test_behind _ _ (- vec3 0 0 1)%vec),
    (Box_face_test_behind _ _ (vec3 0 0 1)) by vcalc.
  reflexivity.
Qed.

Lemma box0_primary : Box_ray_test box0 ray_primary = Ok [hit_box0].
Proof.
  unfold Box_ray_test.
  change (combine (axes box0) (vec_to_list (extents box0)))
    with [(vec3 1 0 0, 1); (vec3 0 1 0, 1); (vec3 0 0 1, 1)].
  cbn [concat_results Box_axis_test].
  rewrite (Box_face_test_parallel _ _ (- vec3 1 0 0)%vec),
    (Box_face_test_parallel _ _ (vec3 1 0 0)),
    (Box_face_test_parallel _ _ (- vec3 0 1 0)%vec),
    (Box_face_test_parallel _ _ (vec3 0 1 0)) by vcalc.
  rewrite (Box_face_test_behind _ _ (- vec3 0 0 1)%vec) by vcalc.
  rewrite (Box_face_test_hit box0 ray_primary (vec3 1 0 0) (vec3 0 1 0)
             (vec3 0 0 1) eq_refl (vec3 0 0 1) _ 1 (vec3 0 0 1)); try vcalc.
  reflexivity.
Qed.

(** In exact arithmetic a ray whose origin lies strictly inside a box of
    strictly positive half-extents gets at least one intersection from
    [Box.ray_test]: the face through which the ray leaves the box passes
    the three slab tests.  So a mesh whose bounding box it is does not
    reject the ray, and returns what its triangles return. *)
Lemma Box_ray_test_inside (self : Box) (pos dir : Vector3) (ray : Ray) :
  orthonormal (axes self) ->
  Ray_new pos dir = Ok ray ->
  0 < vx (extents self) -> 0 < vy (extents self) -> 0 < vz (extents self) ->
  strictly_inside self (ray_pos ray) ->
  (exists h hs, Box_ray_test self ray = Ok (h :: hs))
  /\ (forall mesh, box mesh = self ->
      TriangleMesh_ray_test mesh ray
      = concat_results (fun tri => Triangle_ray_test tri ray) (tris mesh)).
Proof.
  intros Horth Hray _ _ _ Hin.
  assert (Hbox : exists h hs, Box_ray_test self ray = Ok (h :: hs)).
  { pose proof Horth as (a0 & a1 & a2 & Hax & H00 & H11 & H22 & _).
    rewrite Hax in Horth.
    assert (Hunit : ray_dir ray · ray_dir ray = 1).
    { unfold Ray_new in Hray. apply bind_Ok_inv in Hray as (n & Hn & [= <-]).
      cbn. eapply normalize_Ok_unit, Hn. }
    unfold strictly_inside in Hin. rewrite Hax in Hin. unfold vec_to_list in Hin.
    inversion Hin as [|? ? ? ? Hi0 Hin1]; subst; clear Hin.
    inversion Hin1 as [|? ? ? ? Hi1 Hin2]; subst; clear Hin1.
    inversion Hin2 as [|? ? ? ? Hi2 _]; subst; clear Hin2.
    set (o := (ray_pos ray - box_pos self)%vec) in *.
    set (d := ray_dir ray) in *.
    destruct (first_exit (o · a0) (o · a1) (o · a2) (d · a0) (d · a1) (d · a2)
                (vx (extents self)) (vy (extents self)) (vz (extents self)))
      as (t & Hsel & He0 & He1 & He2).
    { intros (Hd0 & Hd1 & Hd2).
      rewrite (basis_separates a0 a1 a2 d Horth Hd0 Hd1 Hd2) in Hunit.
      unfold dot in Hunit; cbn in Hunit. lra. }
    assert (Ht : 0 < t).
    { destruct Hsel as [[Hd ->] | [[Hd ->] | [Hd ->]]]; apply exit_t_pos; assumption. }
    pose proof (slab_until_exit _ _ _ t Hi0 (Rlt_le _ _ Ht) He0) as Hs0.
    pose proof (slab_until_exit _ _ _ t Hi1 (Rlt_le _ _ Ht) He1) as Hs1.
    pose proof (slab_until_exit _ _ _ t Hi2 (Rlt_le _ _ Ht) He2) as Hs2.
    unfold Box_ray_test. rewrite Hax. unfold vec_to_list. cbn [combine].
    apply concat_results_nonempty.
    - intros [axis extent] Hin.
      destruct Hin as [[= <- <-] | [[= <- <-] | [[= <- <-] | []]]];
        eauto using Box_axis_test_total.
    - destruct Hsel as [[Hd Et] | [[Hd Et] | [Hd Et]]].
      + destruct (Box_axis_test_exit self ray a0 a1 a2 Hax a0 (vx (extents self)))
          as (h & hs & Hh); auto; fold o d; rewrite <- ?Et; try lra.
        exists (a0, vx (extents self)), h, hs. split; [cbn; auto | exact Hh].
      + destruct (Box_axis_test_exit self ray a0 a1 a2 Hax a1 (vy (extents self)))
          as (h & hs & Hh); auto; fold o d; rewrite <- ?Et; try lra.
        exists (a1, vy (extents self)), h, hs. split; [cbn; auto | exact Hh].
      + destruct (Box_axis_test_exit self ray a0 a1 a2 Hax a2 (vz (extents self)))
          as (h & hs & Hh); auto; fold o d; rewrite <- ?Et; try lra.
        exists (a2, vz (extents self)), h, hs. split; [cbn; auto | exact Hh]. }
  split; [exact Hbox|].
  intros mesh <-. destruct Hbox as (h & hs & Hbox).
  unfold TriangleMesh_ray_test. rewrite Hbox. reflexivity.
Qed.

(** ** Triangle mesh *)

Lemma Triangle_ray_test_object self ray hs :
  Triangle_ray_test self ray = Ok hs ->
  Forall (fun h => hit_object h = OTriangle self) hs.
Proof.
  unfold Triangle_ray_test. intros H.
  apply bind_Ok_inv in H as (normal & _ & H).
  destruct (Req_dec_T _ 0); [injection H as <-; constructor|].
  apply bind_Ok_inv in H as (t & _ & H).
  destruct (Rlt_dec t 0); [injection H as <-; constructor|].
  apply bind_Ok_inv in H as (q & _ & H).
  destruct (Rle_dec q _); [|injection H as <-; constructor].
  eapply single_hit_Forall; [eassumption|].
  intros h Hh. apply RayIntersection_new_inv in Hh. tauto.
Qed.

(** C6: the mesh tests its bounding box first.  When the box test is empty
    the mesh returns no hit, whatever its triangles are (they are not
    evaluated: a triangle whose test would raise does not matter); when the
    box reports a hit the result is the concatenation of the results of all
    owned triangles; and every returned hit belongs to an owned triangle,
    never to the bounding box. *)
Theorem TriangleMesh_ray_test_spec (self : TriangleMesh) (ray : Ray) :
  (Box_ray_test (box self) ray = Ok [] ->
   TriangleMesh_ray_test self ray = Ok [])
  /\ (forall b bs hss,
      Box_ray_test (box self) ray = Ok (b :: bs) ->
      Forall2 (fun tri hs => Triangle_ray_test tri ray = Ok hs) (tris self) hss ->
      TriangleMesh_ray_test self ray = Ok (concat hss))
  /\ (forall hits h,
      TriangleMesh_ray_test self ray = Ok hits -> In h hits ->
      exists tri, In tri (tris self) /\ hit_object h = OTriangle tri).
Proof.
  unfold TriangleMesh_ray_test. repeat split.
  - intros ->. reflexivity.
  - intros b bs hss -> Htris. cbn. apply concat_results_concat, Htris.
  - intros hits h H Hin.
    apply bind_Ok_inv in H as ([|b bs] & _ & H).
    + injection H as <-. destruct Hin.
    + assert (HF : Forall (fun h => exists tri, In tri (tris self)
                                    /\ hit_object h = OTriangle tri) hits).
      { revert hits H Hin. intros hits H _. revert hits H.
        apply concat_results_Forall. intros tri hs Htri Hhs.
        apply Triangle_ray_test_object in Hhs.
        eapply Forall_impl; [|exact Hhs]. cbn. eauto. }
      rewrite Forall_forall in HF. auto.
Qed.

Lemma tri_point_raises : Triangle_ray_test tri_point ray_primary = Raise ValueError.
Proof.
  unfold Triangle_ray_test, normalize.
  rewrite (magnitude_eq _ 0) by vcalc.
  destruct (Req_dec_T 0 0); [reflexivity | contradiction].
Qed.

Lemma tri_across_primary : Triangle_ray_test tri_across ray_primary = Ok [hit_across].
Proof.
  unfold Triangle_ray_test.
  rewrite (normalize_to _ (vec3 0 0 1) 4); [| lra | vcalc | vcalc ].
  cbn [bind].
  destruct (Req_dec_T _ 0) as [H|_]; [revert H; vcalc|].
  rewrite pydiv_nonzero by vcalc.
  replace ((vec3 0 0 1 · tri_a tri_across - ray_pos ray_primary · vec3 0 0 1)
           / (vec3 0 0 1 · ray_dir ray_primary)) with (1 / 2) by vcalc.
  cbn [bind]. rewrite Rlt_dec_false by lra.
  replace (get_point ray_primary (1 / 2)) with (vec3 0 0 (1 / 2)) by vcalc.
  rewrite (magnitude_eq (cross (tri_b tri_across - tri_a tri_across)
                               (tri_c tri_across - tri_a tri_across)) 4)
    by vcalc.
  rewrite (magnitude_eq (cross (tri_b tri_across - tri_a tri_across) _) 2)
    by vcalc.
  rewrite (magnitude_eq (cross (tri_b tri_across - _) _) 1) by vcalc.
  rewrite (magnitude_eq _ 1) by vcalc.
  rewrite pydiv_nonzero by lra. cbn [bind].
  destruct (Rle_dec _ _); [|lra].
  rewrite RayIntersection_new_unit by vcalc. reflexivity.
Qed.

Lemma TriangleMesh_ray_test_spec_witness :
  Triangle_ray_test tri_point ray_primary = Raise ValueError
  /\ TriangleMesh_ray_test mesh_behind ray_primary = Ok []
  /\ TriangleMesh_ray_test mesh_around ray_primary = Ok [hit_across]
  /\ exists tri, In tri (tris mesh_around) /\ hit_object hit_across = OTriangle tri.
Proof.
  destruct (TriangleMesh_ray_test_spec mesh_behind ray_primary) as (Hempty & _).
  destruct (TriangleMesh_ray_test_spec mesh_around ray_primary)
    as (_ & Hcat & Hobj).
  assert (Haround : TriangleMesh_ray_test mesh_around ray_primary = Ok [hit_across]).
  { apply (Hcat hit_box0 [] [[hit_across]]).
    - exact box0_primary.
    - repeat constructor. exact tri_across_primary. }
  repeat split.
  - exact tri_point_raises.
  - apply Hempty. exact box_behind_primary.
  - exact Haround.
  - apply (Hobj [hit_across] hit_across Haround). left. reflexivity.
Defined.

(** ** No hit behind the origin of a ray *)

Ltac hit_t_nonneg :=
  eapply single_hit_Forall; [eassumption|];
  let h := fresh "h" in let Hh := fresh "Hh" in
  intros h Hh; apply RayIntersection_new_inv in Hh as (_ & _ & _ & _ & ->); lra.

Lemma Plane_ray_test_nonneg self ray hs :
  Plane_ray_test self ray = Ok hs -> Forall (fun h => 0 <= hit_t h) hs.
Proof.
  unfold Plane_ray_test.
  destruct (Req_dec_T _ 0); [intros [= <-]; constructor|].
  intros H. apply bind_Ok_inv in H as (t & _ & H).
  destruct (Rgt_dec t 0); [hit_t_nonneg | injection H as <-; constructor].
Qed.

Lemma Sphere_ray_test_nonneg self ray hs :
  Sphere_ray_test self ray = Ok hs -> Forall (fun h => 0 <= hit_t h) hs.
Proof.
  unfold Sphere_ray_test.
  destruct (Rlt_dec _ 0); [intros [= <-]; constructor|].
  destruct (Rgt_dec _ (radius2 self)); [intros [= <-]; constructor|].
  destruct (Rgt_dec _ _);
    repeat match goal with
           | |- context [Rlt_dec ?a 0] => destruct (Rlt_dec a 0)
           end;
    intros H; try (injection H as <-; constructor);
    apply bind_Ok_inv in H as (nrm & _ & H); hit_t_nonneg.
Qed.

Lemma Box_face_test_nonneg self ray face hs :
  Box_face_test self ray face = Ok hs -> Forall (fun h => 0 <= hit_t h) hs.
Proof.
  unfold Box_face_test. destruct face as [normal d].
  destruct (pydiv _ _) as [t|[]]; try discriminate;
    [|intros [= <-]; constructor].
  destruct (Rge_dec t 0); [|intros [= <-]; constructor].
  intros H.
  repeat match type of H with
         | bind (py_index _ _) _ = Ok _ =>
             let a := fresh "a" in apply bind_Ok_inv in H as (a & _ & H)
         | (if ?c then _ else _) = Ok _ => destruct c
         end;
    try (injection H as <-; constructor).
  hit_t_nonneg.
Qed.

Lemma Box_ray_test_nonneg self ray hs :
  Box_ray_test self ray = Ok hs -> Forall (fun h => 0 <= hit_t h) hs.
Proof.
  unfold Box_ray_test. apply concat_results_Forall.
  intros [axis extent] hs' _. unfold Box_axis_test.
  apply concat_results_Forall. intros face hs'' _.
  apply Box_face_test_nonneg.
Qed.

Lemma Triangle_ray_test_nonneg self ray hs :
  Triangle_ray_test self ray = Ok hs -> Forall (fun h => 0 <= hit_t h) hs.
Proof.
  unfold Triangle_ray_test. intros H.
  apply bind_Ok_inv in H as (normal & _ & H).
  destruct (Req_dec_T _ 0); [injection H as <-; constructor|].
  apply bind_Ok_inv in H as (t & _ & H).
  destruct (Rlt_dec t 0); [injection H as <-; constructor|].
  apply bind_Ok_inv in H as (q & _ & H).
  destruct (Rle_dec q _); [hit_t_nonneg | injection H as <-; constructor].
Qed.

Lemma TriangleMesh_ray_test_nonneg self ray hs :
  TriangleMesh_ray_test self ray = Ok hs -> Forall (fun h => 0 <= hit_t h) hs.
Proof.
  unfold TriangleMesh_ray_test. intros H.
  apply bind_Ok_inv in H as ([|b bs] & _ & H).
  - injection H as <-. constructor.
  - revert hs H. apply concat_results_Forall.
    intros tri hs' _. apply Triangle_ray_test_nonneg.
Qed.

Lemma front_primary : Plane_ray_test plane_front ray_primary = Ok [hit_front].
Proof.
  apply Plane_ray_test_hit; try vcalc.
Qed.

Create HintDb hits_nonneg.

#[local] Hint Resolve Plane_ray_test_nonneg Sphere_ray_test_nonneg
  Box_ray_test_nonneg Triangle_ray_test_nonneg TriangleMesh_ray_test_nonneg
  : hits_nonneg.



(** ** Loading a mesh *)

Lemma load_vertex_verts matl offset st x y z :
  exists mm,
    load_line matl offset st (VertexLine x y z)
    = Ok (mkLoad (verts st ++ [vec3 (x + vx offset) (y + vy offset) (z + vz offset)])
                 (ld_tris st) (Some mm)).
Proof. cbn. eauto. Qed.

(** C3, the failing case: a face that refers to the vertex number 0 does not
    stop the construction; the mesh is built, with a triangle whose first
    corner is the last vertex read so far.  A reference past the last
    vertex does raise [IndexError]. *)
Theorem TriangleMesh_new_index_zero matl offset :
  (exists mesh,
      TriangleMesh_new matl offset mesh_lines_zero = Ok mesh
      /\ tris mesh
         = [mkTriangle matl
              (vec3 (0 + vx offset) (1 + vy offset) (0 + vz offset))
              (vec3 (0 + vx offset) (0 + vy offset) (0 + vz offset))
              (vec3 (1 + vx offset) (0 + vy offset) (0 + vz offset))])
  /\ TriangleMesh_new matl offset mesh_lines_past = Raise IndexError.
Proof.
  unfold TriangleMesh_new, mesh_lines_zero, mesh_lines_past.
  split.
  - unfold load_lines.
    destruct (load_vertex_verts matl offset (mkLoad [] [] None) 0 0 0) as [m1 ->].
    cbn [bind verts ld_tris app].
    destruct (load_vertex_verts matl offset
                (mkLoad [vec3 (0 + vx offset) (0 + vy offset) (0 + vz offset)]
                        [] (Some m1)) 1 0 0) as [m2 ->].
    cbn [bind verts ld_tris app].
    match goal with
    | |- context [load_line matl offset ?st (VertexLine 0 1 0)] =>
        destruct (load_vertex_verts matl offset st 0 1 0) as [[mn mx] ->]
    end.
    cbn. eexists. split; reflexivity.
  - unfold load_lines.
    destruct (load_vertex_verts matl offset (mkLoad [] [] None) 0 0 0) as [m1 ->].
    cbn [bind verts ld_tris app].
    destruct (load_vertex_verts matl offset
                (mkLoad [vec3 (0 + vx offset) (0 + vy offset) (0 + vz offset)]
                        [] (Some m1)) 1 0 0) as [m2 ->].
    cbn [bind verts ld_tris app].
    match goal with
    | |- context [load_line matl offset ?st (VertexLine 0 1 0)] =>
        destruct (load_vertex_verts matl offset st 0 1 0) as [mm ->]
    end.
    cbn. reflexivity.
Qed.

(** ** Camera *)

Lemma Camera_new_inv config pos coi up fov near camera :
  Camera_new config pos coi up fov near = Ok camera ->
  x_axis camera · z_axis camera = 0 /\ y_axis camera · z_axis camera = 0.
Proof.
  unfold Camera_new. intros H.
  apply bind_Ok_inv in H as (z & Hz & H).
  apply bind_Ok_inv in H as (x & Hx & [= <-]). cbn.
  apply normalize_Ok_inv in Hx as [Hm ->].
  split; unfold dot, cross, vdiv; cbn; field; exact Hm.
Qed.

Lemma camera0_new :
  Camera_new config0 (vec3 0 0 0) (vec3 0 0 1) (vec3 0 1 0) 90 1 = Ok camera0.
Proof.
  unfold Camera_new.
  rewrite (normalize_to _ (vec3 0 0 1) 1); [| lra | vcalc | vcalc].
  cbn [bind].
  rewrite (normalize_to _ (vec3 1 0 0) 1); [| lra | vcalc | vcalc].
  cbn [bind].
  replace (0.5 * radians 90) with (PI / 4) by (unfold radians; lra).
  rewrite tan_PI4. unfold camera0. f_equal.
  f_equal; vcalc.
Qed.

(** C2, the failing case: on a screen of one pixel the in-range pixel
    [(0, 0)] makes [get_pixel_pos_3d] raise [ZeroDivisionError]. *)
Lemma get_pixel_pos_3d_single_pixel :
  (0 <= 0 < SCREEN_WIDTH config1)%Z /\ (0 <= 0 < SCREEN_HEIGHT config1)%Z
  /\ get_pixel_pos_3d config1 camera0 0 0 = Raise ZeroDivisionError.
Proof.
  cbn. repeat split; try lia.
  unfold get_pixel_pos_3d; cbn. rewrite pydiv_zero. reflexivity.
Qed.

(** C2, as the code has it: for a camera built by its constructor, on a
    screen whose width and height both differ from 1, every in-range pixel
    is mapped to the point of the view plane interpolated with the
    fractions [px / (SCREEN_WIDTH - 1)] and [py / (SCREEN_HEIGHT - 1)].
    Nothing guards the denominators: when the width or the height is 1 the
    division raises [ZeroDivisionError]. *)
Theorem get_pixel_pos_3d_spec config pos coi up fov near camera px py :
  Camera_new config pos coi up fov near = Ok camera ->
  (0 <= px < SCREEN_WIDTH config)%Z ->
  (0 <= py < SCREEN_HEIGHT config)%Z ->
  (SCREEN_WIDTH config <> 1%Z -> SCREEN_HEIGHT config <> 1%Z ->
   let perc_x := IZR px / IZR (SCREEN_WIDTH config - 1) in
   let perc_y := IZR py / IZR (SCREEN_HEIGHT config - 1) in
   let p := (view_origin camera
             + (view_width camera * perc_x) *v x_axis camera
             - (view_height camera * perc_y) *v y_axis camera)%vec in
   get_pixel_pos_3d config camera px py = Ok p /\ on_view_plane camera p)
  /\ (SCREEN_WIDTH config = 1%Z \/ SCREEN_HEIGHT config = 1%Z ->
      get_pixel_pos_3d config camera px py = Raise ZeroDivisionError).
Proof.
  intros Hnew Hpx Hpy. apply Camera_new_inv in Hnew as [Hx Hy].
  split.
  - intros Hw Hh perc_x perc_y p. unfold get_pixel_pos_3d.
    assert (Hw' : IZR (SCREEN_WIDTH config - 1) <> 0).
    { intros H. apply eq_IZR_R0 in H. lia. }
    assert (Hh' : IZR (SCREEN_HEIGHT config - 1) <> 0).
    { intros H. apply eq_IZR_R0 in H. lia. }
    rewrite (pydiv_nonzero _ _ Hw'), (pydiv_nonzero _ _ Hh'). cbn [bind].
    split; [reflexivity|].
    unfold on_view_plane.
    transitivity (view_width camera * perc_x * (x_axis camera · z_axis camera)
                  - view_height camera * perc_y * (y_axis camera · z_axis camera)).
    + unfold p, dot, vadd, vsub, scale; cbn. ring.
    + rewrite Hx, Hy. ring.
  - unfold get_pixel_pos_3d. intros [Hw | Hh].
    + rewrite Hw. cbn. rewrite pydiv_zero. reflexivity.
    + rewrite Hh. unfold pydiv at 1.
      destruct (Req_dec_T _ 0); [reflexivity|].
      cbn. rewrite pydiv_zero. reflexivity.
Qed.

Lemma get_pixel_pos_3d_spec_witness :
  get_pixel_pos_3d config0 camera0 1 1
  = Ok (view_origin camera0
        + (view_width camera0 * (IZR 1 / IZR (3 - 1))) *v x_axis camera0
        - (view_height camera0 * (IZR 1 / IZR (3 - 1))) *v y_axis camera0)%vec
  /\ get_pixel_pos_3d config1 camera0 0 0 = Raise ZeroDivisionError.
Proof.
  split.
  - destruct (get_pixel_pos_3d_spec config0 _ _ _ _ _ camera0 1 1 camera0_new)
      as [H _]; cbn; try lia.
    apply H; cbn; lia.
  - destruct (get_pixel_pos_3d_spec config1 _ _ _ _ _ camera0 0 0 camera0_new)
      as [_ H]; cbn; try lia.
    apply H; cbn; auto.
Defined.

(** ** The specular term *)

(** One iteration of the light loop, on the hit [closest] it reads: the
    specular term is computed from
    [reflect_dir = 2*diff_strength*normal - light_dir] and
    [spec_strength = camera_dir . reflect_dir] whatever the sign of
    [diff_strength]; when [spec_strength > 0] the term
    [spec_strength ** hard * hadamard(light.spec, matl.spec)] is added unless the
    point is in shadow, also when [diff_strength <= 0], where the diffuse
    term is zero. *)
Lemma light_step_terms camera objects closest lit_color light
    ldir cdir shadow_ray closest' (in_shadow : bool) :
  normalize (light_pos light - hit_pos closest)%vec = Ok ldir ->
  normalize (cam_pos camera - hit_pos closest)%vec = Ok cdir ->
  Ray_new (hit_pos closest + eps *v hit_normal closest)%vec ldir
  = Ok shadow_ray ->
  shadow_loop objects shadow_ray (light_pos light - hit_pos closest)%vec closest
  = Ok (closest', in_shadow) ->
  let m := matl (hit_object closest) in
  let diff_strength := ldir · hit_normal closest in
  let reflect_dir := ((2 * diff_strength) *v hit_normal closest - ldir)%vec in
  let spec_strength := cdir · reflect_dir in
  let diff_term :=
    if Rgt_dec diff_strength 0
    then diff_strength *v hadamard (light_diff light) (diff m) else vzero in
  let spec_term :=
    Rpower spec_strength (hard m) *v hadamard (light_spec light) (spec m) in
  spec_strength > 0 ->
  light_step camera objects (closest, lit_color) light
  = Ok (closest',
        if in_shadow then lit_color
        else (lit_color + (diff_term + spec_term))%vec)
  /\ (diff_strength <= 0 -> diff_term = vzero).
Proof.
  intros Hl Hc Hray Hsh m dstr rdir sstr diff_term spec_term Hspec.
  split.
  - unfold light_step, light_terms. rewrite Hl. cbn [bind]. rewrite Hc.
    cbn [bind light_dir to_light diff_color spec_color].
    rewrite Hray. cbn [bind]. rewrite Hsh. cbn [bind].
    fold m dstr rdir sstr.
    destruct (Rgt_dec sstr 0); [reflexivity | contradiction].
  - intros Hd. unfold diff_term.
    destruct (Rgt_dec dstr 0); [lra | reflexivity].
Qed.

(** ** The hit a light is shaded from *)

Lemma back_primary : Plane_ray_test plane_back ray_primary = Ok [].
Proof. apply Plane_ray_test_behind; vcalc. Qed.

Lemma front_shadow_front : Plane_ray_test plane_front ray_shadow_front = Ok [].
Proof. apply Plane_ray_test_behind; vcalc. Qed.

Lemma back_shadow_front : Plane_ray_test plane_back ray_shadow_front = Ok [hit_back].
Proof. apply Plane_ray_test_hit; vcalc. Qed.

Lemma front_shadow_back :
  Plane_ray_test plane_front ray_shadow_back = Ok [hit_front_again].
Proof. apply Plane_ray_test_hit; vcalc. Qed.

Lemma back_shadow_back : Plane_ray_test plane_back ray_shadow_back = Ok [].
Proof. apply Plane_ray_test_behind; vcalc. Qed.

(** The far light, seen from the hit of the primary ray: the back plane
    occludes it, and [closest] now names the occluding hit. *)
Lemma light_step_far lit_color :
  light_step camera0 objects0 (hit_front, lit_color) light_far
  = Ok (hit_back, lit_color).
Proof.
  unfold light_step, light_terms. cbn [hit_pos hit_normal hit_front light_far light_pos cam_pos camera0].
  rewrite (normalize_to _ (vec3 0 0 (-1)) 15); [| lra | vcalc | vcalc].
  cbn [bind].
  rewrite (normalize_to _ (vec3 0 0 (-1)) 5); [| lra | vcalc | vcalc].
  cbn [bind light_dir to_light diff_color spec_color].
  unfold Ray_new.
  rewrite (normalize_to _ (vec3 0 0 (-1)) 1); [| lra | vcalc | vcalc].
  cbn [bind].
  replace (vec3 0 0 5 + eps *v vec3 0 0 (-1))%vec with (vec3 0 0 (49999 / 10000))
    by vcalc.
  fold ray_shadow_front.
  unfold objects0, shadow_loop. cbn [ray_test].
  rewrite front_shadow_front. cbn [bind].
  rewrite back_shadow_front. cbn [bind min_hit fold_left].
  rewrite Rlt_dec_true by vcalc.
  reflexivity.
Qed.

(** The near light is then shaded from the occluding hit on the back plane,
    with the green material of that plane. *)
Lemma light_step_near_from_back lit_color :
  light_step camera0 objects0 (hit_back, lit_color) light_near
  = Ok (hit_front_again, (lit_color + vec3 0 1 0)%vec).
Proof.
  unfold light_step, light_terms.
  cbn [hit_pos hit_normal hit_object hit_back light_near light_pos light_diff
       light_spec cam_pos camera0 matl plane_back plane_matl].
  rewrite (normalize_to _ (vec3 0 0 1) 3); [| lra | vcalc | vcalc].
  cbn [bind].
  rewrite (normalize_to _ (vec3 0 0 1) 1); [| lra | vcalc | vcalc].
  cbn [bind light_dir to_light diff_color spec_color].
  unfold Ray_new.
  rewrite (normalize_to _ (vec3 0 0 1) 1); [| lra | vcalc | vcalc].
  cbn [bind].
  replace (vec3 0 0 (-1) + eps *v vec3 0 0 1)%vec with (vec3 0 0 (-9999 / 10000))
    by vcalc.
  fold ray_shadow_back.
  unfold objects0, shadow_loop. cbn [ray_test].
  rewrite front_shadow_back. cbn [bind min_hit fold_left].
  rewrite Rlt_dec_false by vcalc.
  rewrite back_shadow_back. cbn [bind].
  rewrite !Rgt_dec_true by vcalc.
  do 2 f_equal. vunfold; cbn. apply vec3_eq; ring.
Qed.

Lemma primary_ray_middle :
  (pixel_pos <- get_pixel_pos_3d config0 camera0 1 1 ;;
   Ray_new (cam_pos camera0) (pixel_pos - cam_pos camera0)%vec)
  = Ok ray_primary.
Proof.
  unfold get_pixel_pos_3d. cbn [SCREEN_WIDTH SCREEN_HEIGHT config0 Z.sub Z.add Z.opp Z.pos_sub Pos.pred_double].
  rewrite !pydiv_nonzero by lra. cbn [bind]. unfold Ray_new.
  rewrite (normalize_to _ (vec3 0 0 1) 1); [| lra | vcalc | vcalc].
  reflexivity.
Qed.

Lemma primary_hits :
  concat_results (fun object => ray_test object ray_primary) objects0
  = Ok [hit_front].
Proof.
  cbn [concat_results objects0 ray_test].
  rewrite front_primary, back_primary. reflexivity.
Qed.

Lemma clamp_unit (x : R) : 0 <= x <= 1 -> Rmax 0 (Rmin x 1) = x.
Proof. intros H. rewrite Rmin_left by lra. apply Rmax_right; lra. Qed.

Lemma clamp_above (x : R) : 1 <= x -> Rmax 0 (Rmin x 1) = 1.
Proof. intros H. rewrite Rmin_right by lra. apply Rmax_right; lra. Qed.

Lemma shadow_front_hits :
  concat_results (fun object => ray_test object ray_shadow_front) objects0
  = Ok [hit_back].
Proof.
  cbn [concat_results objects0 ray_test].
  rewrite front_shadow_front, back_shadow_front. reflexivity.
Qed.

Lemma light_step_spec_far color :
  light_step_spec camera0 objects0 hit_front color light_far = Ok color.
Proof.
  unfold light_step_spec, light_terms.
  cbn [hit_pos hit_normal hit_front light_far light_pos cam_pos camera0].
  rewrite (normalize_to _ (vec3 0 0 (-1)) 15); [| lra | vcalc | vcalc].
  cbn [bind].
  rewrite (normalize_to _ (vec3 0 0 (-1)) 5); [| lra | vcalc | vcalc].
  cbn [bind light_dir to_light diff_color spec_color].
  unfold Ray_new.
  rewrite (normalize_to _ (vec3 0 0 (-1)) 1); [| lra | vcalc | vcalc].
  cbn [bind].
  replace (vec3 0 0 5 + eps *v vec3 0 0 (-1))%vec with (vec3 0 0 (49999 / 10000))
    by vcalc.
  fold ray_shadow_front. unfold in_shadow_spec.
  rewrite shadow_front_hits. cbn [bind min_hit fold_left].
  rewrite Rlt_dec_true by vcalc. reflexivity.
Qed.

Lemma light_step_spec_near color :
  light_step_spec camera0 objects0 hit_front color light_near
  = Ok (color + vec3 1 0 0)%vec.
Proof.
  unfold light_step_spec, light_terms.
  cbn [hit_pos hit_normal hit_object hit_front light_near light_pos light_diff
       light_spec cam_pos camera0 matl plane_front plane_matl].
  rewrite (normalize_to _ (vec3 0 0 (-1)) 3); [| lra | vcalc | vcalc].
  cbn [bind].
  rewrite (normalize_to _ (vec3 0 0 (-1)) 5); [| lra | vcalc | vcalc].
  cbn [bind light_dir to_light diff_color spec_color].
  unfold Ray_new.
  rewrite (normalize_to _ (vec3 0 0 (-1)) 1); [| lra | vcalc | vcalc].
  cbn [bind].
  replace (vec3 0 0 5 + eps *v vec3 0 0 (-1))%vec with (vec3 0 0 (49999 / 10000))
    by vcalc.
  fold ray_shadow_front. unfold in_shadow_spec.
  rewrite shadow_front_hits. cbn [bind min_hit fold_left].
  rewrite Rlt_dec_false by vcalc.
  rewrite !Rgt_dec_true by vcalc.
  f_equal. vunfold; cbn. apply vec3_eq; ring.
Qed.

Lemma draw_pixel_spec_value :
  draw_pixel_spec config0 1 1 camera0 objects0 lights0 = Ok (vec3 255 0 0).
Proof.
  unfold draw_pixel_spec.
  pose proof primary_ray_middle as Hray.
  destruct (get_pixel_pos_3d config0 camera0 1 1) as [pixel_pos|]; [|discriminate].
  cbn [bind] in Hray |- *. rewrite Hray. cbn [bind].
  rewrite primary_hits. cbn [bind min_hit fold_left lights0 light_loop_spec].
  rewrite light_step_spec_far. cbn [bind].
  rewrite light_step_spec_near. cbn [bind].
  f_equal. unfold clamp_vec3. vunfold. cbn.
  rewrite (clamp_above (1 * (1 / 2) + 1)), (clamp_unit (1 * 0 + 0)) by lra.
  apply vec3_eq; lra.
Qed.

Lemma draw_pixel_value :
  draw_pixel config0 1 1 camera0 objects0 lights0 = Ok (vec3 (255 / 2) 255 0).
Proof.
  unfold draw_pixel.
  pose proof primary_ray_middle as Hray.
  destruct (get_pixel_pos_3d config0 camera0 1 1) as [pixel_pos|]; [|discriminate].
  cbn [bind] in Hray |- *. rewrite Hray. cbn [bind].
  rewrite primary_hits. cbn [bind min_hit fold_left lights0 light_loop].
  rewrite light_step_far. cbn [bind].
  rewrite light_step_near_from_back. cbn [bind].
  f_equal. unfold clamp_vec3. vunfold. cbn.
  rewrite (clamp_unit (1 * (1 / 2) + 0)), (clamp_unit (1 * 0 + 1)),
    (clamp_unit (1 * 0 + 0)) by lra.
  apply vec3_eq; lra.
Qed.

(** C1, the failing case: with two lights, once the shadow ray of the first
    light has hit a primitive the second light is shaded from that hit (its
    position, normal and material) and not from the nearest intersection of
    the primary ray.  The pixel gets the colour [(127.5, 255, 0)]; shading
    every light from the primary hit gives [(255, 0, 0)]. *)
Theorem draw_pixel_stale_closest :
  draw_pixel config0 1 1 camera0 objects0 lights0 = Ok (vec3 (255 / 2) 255 0)
  /\ draw_pixel_spec config0 1 1 camera0 objects0 lights0 = Ok (vec3 255 0 0)
  /\ light_loop camera0 objects0 (hit_front, vzero) lights0
     = Ok (hit_front_again, (vzero + vec3 0 1 0)%vec).
Proof.
  split; [exact draw_pixel_value | split; [exact draw_pixel_spec_value|]].
  cbn [lights0 light_loop].
  rewrite light_step_far. cbn [bind].
  rewrite light_step_near_from_back. reflexivity.
Qed.

(** ** The specular term of a later light *)

Lemma planes_gloss_new :
  Plane_new matl_gloss_red (vec3 0 0 5) (vec3 0 0 (-1)) = Ok plane_front_gloss
  /\ Plane_new matl_gloss_green (vec3 0 0 (-1)) (vec3 0 0 1) = Ok plane_back_gloss.
Proof.
  unfold Plane_new. split.
  - rewrite (normalize_to _ (vec3 0 0 (-1)) 1); [| lra | vcalc | vcalc].
    cbn [bind]. unfold plane_front_gloss. do 2 f_equal. vcalc.
  - rewrite (normalize_to _ (vec3 0 0 1) 1); [| lra | vcalc | vcalc].
    cbn [bind]. unfold plane_back_gloss. do 2 f_equal. vcalc.
Qed.

Lemma primary_hits_gloss :
  concat_results (fun object => ray_test object ray_primary) objects_gloss
  = Ok [hit_front_gloss].
Proof.
  cbn [concat_results objects_gloss ray_test].
  rewrite (Plane_ray_test_hit plane_front_gloss ray_primary 5 (vec3 0 0 5))
    by vcalc.
  rewrite (Plane_ray_test_behind plane_back_gloss ray_primary) by vcalc.
  reflexivity.
Qed.

Lemma shadow_front_gloss :
  Plane_ray_test plane_front_gloss ray_shadow_front = Ok []
  /\ Plane_ray_test plane_back_gloss ray_shadow_front = Ok [hit_back_gloss].
Proof.
  split.
  - apply Plane_ray_test_behind; vcalc.
  - apply Plane_ray_test_hit; vcalc.
Qed.

Lemma shadow_back_gloss :
  Plane_ray_test plane_front_gloss ray_shadow_back = Ok [hit_front_again_gloss]
  /\ Plane_ray_test plane_back_gloss ray_shadow_back = Ok [].
Proof.
  split.
  - apply Plane_ray_test_hit; vcalc.
  - apply Plane_ray_test_behind; vcalc.
Qed.

(** The terms of the near light computed from the hit of the primary ray on
    the red plane, and from the hit of a shadow ray on the green plane. *)
Lemma light_terms_near_front :
  exists tm, light_terms camera0 hit_front_gloss light_near_gloss = Ok tm
             /\ spec_strength tm = 1 /\ spec_color tm = vec3 1 0 0
             /\ diff_color tm = vzero /\ light_dir tm = vec3 0 0 (-1)
             /\ to_light tm = vec3 0 0 (-3).
Proof.
  unfold light_terms.
  cbn [hit_pos hit_normal hit_object hit_front_gloss light_near_gloss light_pos
       light_diff light_spec cam_pos camera0 matl plane_front_gloss plane_matl].
  rewrite (normalize_to _ (vec3 0 0 (-1)) 3); [| lra | vcalc | vcalc].
  cbn [bind].
  rewrite (normalize_to _ (vec3 0 0 (-1)) 5); [| lra | vcalc | vcalc].
  cbn [bind]. eexists. split; [reflexivity|].
  cbn [spec_strength spec_color diff_color light_dir to_light].
  assert (Hs : vec3 0 0 (-1) · ((2 * (vec3 0 0 (-1) · vec3 0 0 (-1))) *v vec3 0 0 (-1)
                                - vec3 0 0 (-1))%vec = 1) by vcalc.
  rewrite Hs. rewrite !Rgt_dec_true by vcalc.
  repeat split; try vcalc.
  cbn [spec hard matl_gloss_red]. rewrite Rpower_1 by lra. vcalc.
Qed.

Lemma light_step_far_gloss lit_color :
  light_step camera0 objects_gloss (hit_front_gloss, lit_color) light_far_gloss
  = Ok (hit_back_gloss, lit_color).
Proof.
  unfold light_step, light_terms.
  cbn [hit_pos hit_normal hit_front_gloss light_far_gloss light_pos cam_pos camera0].
  rewrite (normalize_to _ (vec3 0 0 (-1)) 15); [| lra | vcalc | vcalc].
  cbn [bind].
  rewrite (normalize_to _ (vec3 0 0 (-1)) 5); [| lra | vcalc | vcalc].
  cbn [bind light_dir to_light diff_color spec_color].
  unfold Ray_new.
  rewrite (normalize_to _ (vec3 0 0 (-1)) 1); [| lra | vcalc | vcalc].
  cbn [bind].
  replace (vec3 0 0 5 + eps *v vec3 0 0 (-1))%vec with (vec3 0 0 (49999 / 10000))
    by vcalc.
  fold ray_shadow_front.
  unfold objects_gloss, shadow_loop. cbn [ray_test].
  destruct shadow_front_gloss as [-> ->]. cbn [bind min_hit fold_left].
  rewrite Rlt_dec_true by vcalc.
  reflexivity.
Qed.

Lemma light_step_near_from_back_gloss lit_color :
  light_step camera0 objects_gloss (hit_back_gloss, lit_color) light_near_gloss
  = Ok (hit_front_again_gloss, (lit_color + vec3 0 1 0)%vec).
Proof.
  unfold light_step, light_terms.
  cbn [hit_pos hit_normal hit_object hit_back_gloss light_near_gloss light_pos
       light_diff light_spec cam_pos camera0 matl plane_back_gloss plane_matl].
  rewrite (normalize_to _ (vec3 0 0 1) 3); [| lra | vcalc | vcalc].
  cbn [bind].
  rewrite (normalize_to _ (vec3 0 0 1) 1); [| lra | vcalc | vcalc].
  cbn [bind light_dir to_light diff_color spec_color].
  unfold Ray_new.
  rewrite (normalize_to _ (vec3 0 0 1) 1); [| lra | vcalc | vcalc].
  cbn [bind].
  replace (vec3 0 0 (-1) + eps *v vec3 0 0 1)%vec with (vec3 0 0 (-9999 / 10000))
    by vcalc.
  fold ray_shadow_back.
  unfold objects_gloss, shadow_loop. cbn [ray_test].
  destruct shadow_back_gloss as [-> ->]. cbn [bind min_hit fold_left].
  rewrite Rlt_dec_false by vcalc. cbn [bind].
  assert (Hs : vec3 0 0 1 · ((2 * (vec3 0 0 1 · vec3 0 0 1)) *v vec3 0 0 1
                             - vec3 0 0 1)%vec = 1) by vcalc.
  rewrite Hs. rewrite !Rgt_dec_true by vcalc.
  cbn [spec hard diff matl_gloss_green]. rewrite Rpower_1 by lra.
  do 2 f_equal. vunfold; cbn. apply vec3_eq; ring.
Qed.

Lemma shadow_front_hits_gloss :
  concat_results (fun object => ray_test object ray_shadow_front) objects_gloss
  = Ok [hit_back_gloss].
Proof.
  cbn [concat_results objects_gloss ray_test].
  destruct shadow_front_gloss as [-> ->]. reflexivity.
Qed.

Lemma light_step_spec_far_gloss color :
  light_step_spec camera0 objects_gloss hit_front_gloss color light_far_gloss
  = Ok color.
Proof.
  unfold light_step_spec, light_terms.
  cbn [hit_pos hit_normal hit_front_gloss light_far_gloss light_pos cam_pos camera0].
  rewrite (normalize_to _ (vec3 0 0 (-1)) 15); [| lra | vcalc | vcalc].
  cbn [bind].
  rewrite (normalize_to _ (vec3 0 0 (-1)) 5); [| lra | vcalc | vcalc].
  cbn [bind light_dir to_light diff_color spec_color].
  unfold Ray_new.
  rewrite (normalize_to _ (vec3 0 0 (-1)) 1); [| lra | vcalc | vcalc].
  cbn [bind].
  replace (vec3 0 0 5 + eps *v vec3 0 0 (-1))%vec with (vec3 0 0 (49999 / 10000))
    by vcalc.
  fold ray_shadow_front. unfold in_shadow_spec.
  rewrite shadow_front_hits_gloss. cbn [bind min_hit fold_left].
  rewrite Rlt_dec_true by vcalc. reflexivity.
Qed.

Lemma light_step_spec_near_gloss color :
  light_step_spec camera0 objects_gloss hit_front_gloss color light_near_gloss
  = Ok (color + vec3 1 0 0)%vec.
Proof.
  unfold light_step_spec.
  destruct light_terms_near_front as (tm & -> & _ & Hsc & Hdc & Hld & Htl).
  cbn [bind]. rewrite Hsc, Hdc, Hld, Htl.
  cbn [hit_pos hit_normal hit_front_gloss].
  unfold Ray_new.
  rewrite (normalize_to _ (vec3 0 0 (-1)) 1); [| lra | vcalc | vcalc].
  cbn [bind].
  replace (vec3 0 0 5 + eps *v vec3 0 0 (-1))%vec with (vec3 0 0 (49999 / 10000))
    by vcalc.
  fold ray_shadow_front. unfold in_shadow_spec.
  rewrite shadow_front_hits_gloss. cbn [bind min_hit fold_left].
  rewrite Rlt_dec_false by vcalc.
  f_equal. vcalc.
Qed.

Lemma draw_pixel_spec_gloss :
  draw_pixel_spec config0 1 1 camera0 objects_gloss lights_gloss
  = Ok (vec3 255 0 0).
Proof.
  unfold draw_pixel_spec.
  pose proof primary_ray_middle as Hray.
  destruct (get_pixel_pos_3d config0 camera0 1 1) as [pixel_pos|]; [|discriminate].
  cbn [bind] in Hray |- *. rewrite Hray. cbn [bind].
  rewrite primary_hits_gloss. cbn [bind min_hit fold_left lights_gloss light_loop_spec].
  rewrite light_step_spec_far_gloss. cbn [bind].
  rewrite light_step_spec_near_gloss. cbn [bind].
  f_equal. unfold clamp_vec3. vunfold. cbn.
  rewrite (clamp_unit (1 * 0 + 1)), (clamp_unit (1 * 0 + 0)) by lra.
  apply vec3_eq; lra.
Qed.

Lemma draw_pixel_gloss :
  draw_pixel config0 1 1 camera0 objects_gloss lights_gloss = Ok (vec3 0 255 0).
Proof.
  unfold draw_pixel.
  pose proof primary_ray_middle as Hray.
  destruct (get_pixel_pos_3d config0 camera0 1 1) as [pixel_pos|]; [|discriminate].
  cbn [bind] in Hray |- *. rewrite Hray. cbn [bind].
  rewrite primary_hits_gloss. cbn [bind min_hit fold_left lights_gloss light_loop].
  rewrite light_step_far_gloss. cbn [bind].
  rewrite light_step_near_from_back_gloss. cbn [bind].
  f_equal. unfold clamp_vec3. vunfold. cbn.
  rewrite (clamp_unit (1 * 0 + 1)), (clamp_unit (1 * 0 + 0)) by lra.
  apply vec3_eq; lra.
Qed.

(** C4, the failing case.  The primary ray hits the red plane; from that hit
    the near light has [spec_strength = 1 > 0] and the specular term
    [spec_strength ** hard * hadamard(light.spec, matl.spec) = (1, 0, 0)], and
    the point is not in shadow, so that term is what the pixel should get.
    The shadow ray of the far light, the first of the two, has hit the green
    plane, and the code computes the terms of the near light from that hit:
    it adds [(0, 1, 0)], the specular colour of the green material. *)
Theorem specular_term_stale_hit :
  Plane_new matl_gloss_red (vec3 0 0 5) (vec3 0 0 (-1)) = Ok plane_front_gloss
  /\ Plane_new matl_gloss_green (vec3 0 0 (-1)) (vec3 0 0 1)
     = Ok plane_back_gloss
  /\ concat_results (fun object => ray_test object ray_primary) objects_gloss
     = Ok [hit_front_gloss]
  /\ (exists tm,
        light_terms camera0 hit_front_gloss light_near_gloss = Ok tm
        /\ spec_strength tm = 1 /\ spec_color tm = vec3 1 0 0)
  /\ light_step_spec camera0 objects_gloss hit_front_gloss vzero light_near_gloss
     = Ok (vzero + vec3 1 0 0)%vec
  /\ light_loop camera0 objects_gloss (hit_front_gloss, vzero) lights_gloss
     = Ok (hit_front_again_gloss, (vzero + vec3 0 1 0)%vec)
  /\ draw_pixel config0 1 1 camera0 objects_gloss lights_gloss
     = Ok (vec3 0 255 0)
  /\ draw_pixel_spec config0 1 1 camera0 objects_gloss lights_gloss
     = Ok (vec3 255 0 0).
Proof.
  destruct planes_gloss_new as [Hfront Hback].
  split; [exact Hfront|]. split; [exact Hback|].
  split; [exact primary_hits_gloss|].
  split.
  { destruct light_terms_near_front as (tm & H & Hs & Hc & _). eauto. }
  split; [apply light_step_spec_near_gloss|].
  split.
  { cbn [lights_gloss light_loop].
    rewrite light_step_far_gloss. cbn [bind].
    rewrite light_step_near_from_back_gloss. reflexivity. }
  split; [exact draw_pixel_gloss | exact draw_pixel_spec_gloss].
Qed.

(** * Further properties of the code *)

(** ** Rays *)



(** ** Nearest hit *)

Lemma min_hit_cons h x hs :
  min_hit h (x :: hs)
  = min_hit (if Rlt_dec (hit_t x) (hit_t h) then x else h) hs.
Proof. reflexivity. Qed.

Lemma min_hit_least h hs :
  Forall (fun x => hit_t (min_hit h hs) <= hit_t x) (h :: hs).
Proof.
  revert h. induction hs as [|x hs IH]; intros h.
  - constructor; [cbn; lra | constructor].
  - rewrite min_hit_cons.
    specialize (IH (if Rlt_dec (hit_t x) (hit_t h) then x else h)).
    inversion IH as [|? ? Hh' Hrest]; subst.
    destruct (Rlt_dec (hit_t x) (hit_t h));
      (constructor; [lra | constructor; [lra | exact Hrest]]).
Qed.

Lemma min_hit_first h hs :
  min_hit h hs = h
  \/ exists before after,
       hs = before ++ min_hit h hs :: after
       /\ hit_t (min_hit h hs) < hit_t h
       /\ Forall (fun x => hit_t (min_hit h hs) < hit_t x) before.
Proof.
  revert h. induction hs as [|x hs IH]; intros h; [left; reflexivity|].
  rewrite min_hit_cons.
  destruct (Rlt_dec (hit_t x) (hit_t h)) as [Hlt|Hge].
  - right. destruct (IH x) as [-> | (l1 & l2 & Hhs & Hm & Hl1)].
    + exists [], hs. repeat split; [assumption | constructor].
    + exists (x :: l1), l2. repeat split.
      * cbn. f_equal. exact Hhs.
      * lra.
      * constructor; assumption.
  - destruct (IH h) as [Heq | (l1 & l2 & Hhs & Hm & Hl1)]; [left; exact Heq|].
    right. exists (x :: l1), l2. repeat split.
    + cbn. f_equal. exact Hhs.
    + exact Hm.
    + constructor; [lra | assumption].
Qed.

(** X3: [min(hits)] on a non-empty list is an element of the list with the
    least [t], and the first such: every hit before it has a strictly larger
    [t], every hit after it a [t] at least as large. *)
Theorem min_hit_nearest (h : RayIntersection) (hs : list RayIntersection) :
  exists before after,
    h :: hs = before ++ min_hit h hs :: after
    /\ Forall (fun x => hit_t (min_hit h hs) < hit_t x) before
    /\ Forall (fun x => hit_t (min_hit h hs) <= hit_t x) after.
Proof.
  pose proof (min_hit_least h hs) as Hleast.
  destruct (min_hit_first h hs) as [Heq | (l1 & l2 & Hhs & Hm & Hl1)];
    set (m := min_hit h hs) in *; clearbody m.
  - subst m. exists [], hs. split; [reflexivity|].
    split; [constructor|]. inversion Hleast; assumption.
  - exists (h :: l1), l2. split; [cbn; f_equal; exact Hhs|].
    split; [constructor; assumption|].
    rewrite Hhs in Hleast.
    inversion Hleast as [|? ? _ Hrest]; subst.
    apply Forall_app in Hrest as [_ Hrest].
    inversion Hrest; assumption.
Qed.

(** ** Clamping *)

Lemma clamp_range (x lo hi : R) :
  lo <= hi -> lo <= Rmax lo (Rmin x hi) <= hi.
Proof.
  intros H. split; [apply Rmax_l|].
  apply Rmax_lub; [exact H | apply Rmin_r].
Qed.

Lemma clamp_fixed (x lo hi : R) :
  lo <= x <= hi -> Rmax lo (Rmin x hi) = x.
Proof. intros H. rewrite Rmin_left by lra. apply Rmax_right; lra. Qed.

(** X4: with [lo <= hi], every component of [clamp_vec3 v lo hi] lies in
    [[lo, hi]], a vector already in range is returned unchanged, and
    clamping twice is clamping once. *)
Theorem clamp_vec3_range (v : Vector3) (lo hi : R) :
  lo <= hi ->
  let c := clamp_vec3 v lo hi in
  (lo <= vx c <= hi /\ lo <= vy c <= hi /\ lo <= vz c <= hi)
  /\ (lo <= vx v <= hi -> lo <= vy v <= hi -> lo <= vz v <= hi -> c = v)
  /\ clamp_vec3 c lo hi = c.
Proof.
  intros H c. unfold c, clamp_vec3; cbn.
  split; [auto using clamp_range|]. split.
  - intros Hx Hy Hz. destruct v as [x y z]; cbn in *.
    apply vec3_eq; apply clamp_fixed; assumption.
  - apply vec3_eq; apply clamp_fixed, clamp_range, H.
Qed.

(** ** How each test builds its hits *)

Lemma single_hit_inv ray object pos normal t (hs : list RayIntersection) :
  (h <- RayIntersection_new ray object pos normal t ;; Ok [h]) = Ok hs ->
  exists h, hs = [h] /\ RayIntersection_new ray object pos normal t = Ok h.
Proof. intros H. apply bind_Ok_inv in H as (h & Hh & [= <-]). eauto. Qed.

Lemma pydiv_Ok_inv (a b q : R) : pydiv a b = Ok q -> b <> 0 /\ q = a / b.
Proof.
  unfold pydiv. destruct (Req_dec_T b 0); [discriminate|].
  intros [= <-]. auto.
Qed.

Lemma Plane_ray_test_inv self ray hs :
  Plane_ray_test self ray = Ok hs ->
  hs = []
  \/ exists h,
       let n := plane_normal self in
       let t := (plane_d self - ray_pos ray · n) / (n · ray_dir ray) in
       hs = [h] /\ n · ray_dir ray <> 0 /\ t > 0
       /\ RayIntersection_new ray (OPlane self) (get_point ray t) n t = Ok h.
Proof.
  unfold Plane_ray_test.
  destruct (Req_dec_T _ 0) as [|Hz]; [intros [= <-]; auto|].
  rewrite (pydiv_nonzero _ _ Hz). cbn [bind].
  destruct (Rgt_dec _ 0) as [Ht|]; [|intros [= <-]; auto].
  intros H. apply single_hit_inv in H as (h & -> & Hh).
  right. exists h. cbn. auto.
Qed.

Lemma Sphere_ray_test_inv self ray hs :
  Sphere_ray_test self ray = Ok hs ->
  hs = []
  \/ exists h t n,
       let L := (sphere_pos self - ray_pos ray)%vec in
       let tca := L · ray_dir ray in
       let d2 := magnitude_squared L - tca ^ 2 in
       let thc := sqrt (radius2 self - d2) in
       hs = [h] /\ 0 <= tca /\ d2 <= radius2 self
       /\ ((0 <= tca - thc /\ t = tca - thc)
           \/ (tca - thc < 0 /\ t = tca + thc))
       /\ 0 <= t
       /\ normalize (get_point ray t - sphere_pos self)%vec = Ok n
       /\ RayIntersection_new ray (OSphere self) (get_point ray t) n t = Ok h.
Proof.
  unfold Sphere_ray_test.
  set (L := (sphere_pos self - ray_pos ray)%vec).
  set (tca := L · ray_dir ray).
  set (d2 := magnitude_squared L - tca ^ 2).
  set (thc := sqrt (radius2 self - d2)).
  assert (Hthc : 0 <= thc) by apply sqrt_pos.
  destruct (Rlt_dec tca 0); [intros [= <-]; auto|].
  destruct (Rgt_dec d2 (radius2 self)); [intros [= <-]; auto|].
  destruct (Rgt_dec (tca - thc) (tca + thc)); [lra|].
  destruct (Rlt_dec (tca - thc) 0).
  - destruct (Rlt_dec (tca + thc) 0); [intros [= <-]; auto|].
    intros H. apply bind_Ok_inv in H as (nrm & Hn & H).
    apply single_hit_inv in H as (h & -> & Hh).
    right. exists h, (tca + thc), nrm. cbn. repeat split; auto; try lra.
  - intros H. apply bind_Ok_inv in H as (nrm & Hn & H).
    apply single_hit_inv in H as (h & -> & Hh).
    right. exists h, (tca - thc), nrm. cbn. repeat split; auto; try lra.
Qed.

Lemma Box_face_test_inv self ray normal d hs :
  Box_face_test self ray (normal, d) = Ok hs ->
  hs = []
  \/ exists h a0 a1 a2,
       let t := (d - ray_pos ray · normal) / (ray_dir ray · normal) in
       let lp := (box_pos self - get_point ray t)%vec in
       hs = [h] /\ ray_dir ray · normal <> 0 /\ 0 <= t
       /\ py_index (axes self) 0 = Ok a0
       /\ py_index (axes self) 1 = Ok a1
       /\ py_index (axes self) 2 = Ok a2
       /\ - vx (extents self) - eps < lp · a0 < vx (extents self) + eps
       /\ - vy (extents self) - eps < lp · a1 < vy (extents self) + eps
       /\ - vz (extents self) - eps < lp · a2 < vz (extents self) + eps
       /\ RayIntersection_new ray (OBox self) (get_point ray t) normal t = Ok h.
Proof.
  unfold Box_face_test.
  destruct (pydiv _ _) as [t|e] eqn:Hdiv;
    [|destruct e; try discriminate; intros [= <-]; auto].
  apply pydiv_Ok_inv in Hdiv as [Hz ->].
  destruct (Rge_dec _ 0) as [Ht|]; [|intros [= <-]; auto].
  intros H.
  apply bind_Ok_inv in H as (a0 & Ha0 & H).
  destruct (Rlt_dec _ _); [|injection H as <-; auto].
  destruct (Rlt_dec _ _); [|injection H as <-; auto].
  apply bind_Ok_inv in H as (a1 & Ha1 & H).
  destruct (Rlt_dec _ _); [|injection H as <-; auto].
  destruct (Rlt_dec _ _); [|injection H as <-; auto].
  apply bind_Ok_inv in H as (a2 & Ha2 & H).
  destruct (Rlt_dec _ _); [|injection H as <-; auto].
  destruct (Rlt_dec _ _); [|injection H as <-; auto].
  apply single_hit_inv in H as (h & -> & Hh).
  right. exists h, a0, a1, a2. cbn. repeat split; auto; lra.
Qed.

Lemma Triangle_ray_test_inv self ray hs :
  Triangle_ray_test self ray = Ok hs ->
  exists normal,
    normalize (cross (tri_b self - tri_a self) (tri_c self - tri_a self))%vec
    = Ok normal
    /\ (hs = []
        \/ exists h,
             let t := (normal · tri_a self - ray_pos ray · normal)
                      / (normal · ray_dir ray) in
             hs = [h] /\ normal · ray_dir ray <> 0 /\ 0 <= t
             /\ RayIntersection_new ray (OTriangle self) (get_point ray t)
                                    normal t = Ok h).
Proof.
  unfold Triangle_ray_test. intros H.
  apply bind_Ok_inv in H as (normal & Hn & H). exists normal. split; [exact Hn|].
  destruct (Req_dec_T _ 0) as [|Hz]; [injection H as <-; auto|].
  rewrite (pydiv_nonzero _ _ Hz) in H. cbn [bind] in H.
  destruct (Rlt_dec _ 0); [injection H as <-; auto|].
  apply bind_Ok_inv in H as (q & _ & H).
  destruct (Rle_dec q _); [|injection H as <-; auto].
  apply single_hit_inv in H as (h & -> & Hh).
  right. exists h. cbn. repeat split; auto; lra.
Qed.

(** ** What every hit records *)

Lemma RayIntersection_new_on_ray ray o n t h :
  RayIntersection_new ray o (get_point ray t) n t = Ok h ->
  hit_ray h = ray /\ hit_object h = o
  /\ hit_pos h = get_point ray (hit_t h)
  /\ hit_normal h · hit_normal h = 1.
Proof.
  intros H. apply RayIntersection_new_inv in H as (Hr & Ho & Hp & Hn & Ht).
  rewrite Ht. apply normalize_Ok_unit in Hn. auto.
Qed.

Lemma Triangle_ray_test_record self ray hs :
  Triangle_ray_test self ray = Ok hs ->
  Forall (fun h => hit_ray h = ray /\ hit_object h = OTriangle self
                   /\ hit_pos h = get_point ray (hit_t h)
                   /\ hit_normal h · hit_normal h = 1) hs.
Proof.
  intros H. apply Triangle_ray_test_inv in H as (n & _ & [-> | (h & H)]);
    [constructor|].
  cbn in H. destruct H as (-> & _ & _ & Hh).
  apply RayIntersection_new_on_ray in Hh. repeat constructor; tauto.
Qed.

Lemma ray_test_records (object : Object) (ray : Ray)
    (hits : list RayIntersection) :
  ray_test object ray = Ok hits -> Forall (hit_record_ok ray object) hits.
Proof.
  intros H. unfold hit_record_ok. destruct object as [p|s|b|t|m]; cbn in H.
  - apply Plane_ray_test_inv in H as [-> | (h & H)]; [constructor|].
    cbn in H. destruct H as (-> & _ & _ & Hh).
    apply RayIntersection_new_on_ray in Hh. repeat constructor; cbn; tauto.
  - apply Sphere_ray_test_inv in H as [-> | (h & t & n & H)]; [constructor|].
    cbn in H. destruct H as (-> & _ & _ & _ & _ & _ & Hh).
    apply RayIntersection_new_on_ray in Hh. repeat constructor; cbn; tauto.
  - revert hits H. unfold Box_ray_test. apply concat_results_Forall.
    intros [axis extent] hs _. unfold Box_axis_test.
    apply concat_results_Forall. intros [normal d] hs' _ H.
    apply Box_face_test_inv in H as [-> | (h & a0 & a1 & a2 & H)];
      [constructor|].
    cbn in H. destruct H as (-> & _ & _ & _ & _ & _ & _ & _ & _ & Hh).
    apply RayIntersection_new_on_ray in Hh. repeat constructor; cbn; tauto.
  - apply Triangle_ray_test_record in H.
    eapply Forall_impl; [|exact H]. cbn. tauto.
  - unfold TriangleMesh_ray_test in H.
    apply bind_Ok_inv in H as ([|bh bhs] & _ & H);
      [injection H as <-; constructor|].
    revert hits H. apply concat_results_Forall. intros tri hs Htri H.
    apply Triangle_ray_test_record in H.
    eapply Forall_impl; [|exact H]. cbn. intros h (? & ? & ? & ?).
    repeat split; eauto.
Qed.


(** ** Exceptions of the tests *)

Lemma raises_only_Ok (P : exn -> Prop) {A : Type} (a : A) : raises_only P (Ok a).
Proof. intros e H. discriminate. Qed.

Lemma raises_only_bind (P : exn -> Prop) {A B : Type} (m : result A)
    (k : A -> result B) :
  raises_only P m -> (forall a, m = Ok a -> raises_only P (k a)) ->
  raises_only P (bind m k).
Proof.
  intros Hm Hk e. destruct m as [a|e']; cbn.
  - apply Hk. reflexivity.
  - intros [= ->]. apply Hm. reflexivity.
Qed.

Lemma raises_only_concat_results (P : exn -> Prop) {A B : Type}
    (f : A -> result (list B)) (xs : list A) :
  (forall x, In x xs -> raises_only P (f x)) ->
  raises_only P (concat_results f xs).
Proof.
  induction xs as [|x rest IH]; cbn; intros H; [apply raises_only_Ok|].
  apply raises_only_bind; [auto|]. intros hs _.
  apply raises_only_bind; [auto|]. intros hs' _. apply raises_only_Ok.
Qed.

Lemma normalize_raises (v : Vector3) : raises_only (eq ValueError) (normalize v).
Proof.
  intros e. unfold normalize. destruct (Req_dec_T _ 0); [|discriminate].
  intros [= <-]. reflexivity.
Qed.

Lemma py_index_raises {A : Type} (l : list A) (i : Z) :
  raises_only (eq IndexError) (py_index l i).
Proof.
  intros e. unfold py_index.
  destruct (_ || _)%bool; [intros [= <-]; reflexivity|].
  destruct (nth_error _ _); [discriminate | intros [= <-]; reflexivity].
Qed.

Lemma raises_only_weaken (P Q : exn -> Prop) {A : Type} (m : result A) :
  (forall e, P e -> Q e) -> raises_only P m -> raises_only Q m.
Proof. intros H Hm e He. auto. Qed.

(** ** Sphere: where the reported point lies *)

(** ** Well-formed primitives never raise *)

(** ** Plane: where the reported point lies *)

(** X10: a plane built by its constructor reports at most one intersection;
    it lies on the plane, carries the normal of the plane whatever side the
    ray comes from, and has [t > 0]. *)
Theorem Plane_hit_on_plane matl pos normal self ray hits :
  Plane_new matl pos normal = Ok self ->
  Plane_ray_test self ray = Ok hits ->
  (length hits <= 1)%nat
  /\ forall h, In h hits ->
       (hit_pos h - pos)%vec · plane_normal self = 0
       /\ hit_normal h = plane_normal self
       /\ hit_t h > 0
       /\ hit_object h = OPlane self.
Proof.
  intros Hnew H. apply Plane_new_inv in Hnew as (Hu & _ & _ & Hd).
  apply Plane_ray_test_inv in H as [-> | (h & H)];
    [split; [cbn; lia | intros h []]|].
  cbn in H. destruct H as (-> & Hz & Ht & Hh).
  split; [cbn; lia|]. intros h' [<- | []].
  rewrite (RayIntersection_new_unit _ _ _ _ _ Hu) in Hh. injection Hh as <-.
  cbn. repeat split; [|exact Ht].
  rewrite Hd in *.
  set (n := plane_normal self) in *.
  transitivity (ray_pos ray · n
                + (pos · n - ray_pos ray · n) / (n · ray_dir ray)
                  * (n · ray_dir ray) - pos · n).
  - unfold get_point, dot, vadd, vsub, scale; cbn. ring.
  - field. exact Hz.
Qed.

(** ** Box: where the reported points lie *)

Lemma concat_results_length {A B : Type} (f : A -> result (list B))
    (xs : list A) (k : nat) :
  (forall x hs, In x xs -> f x = Ok hs -> (length hs <= k)%nat) ->
  forall hs, concat_results f xs = Ok hs ->
             (length hs <= k * length xs)%nat.
Proof.
  induction xs as [|x rest IH]; cbn; intros Hf hs H.
  - injection H as <-. cbn. lia.
  - apply bind_Ok_inv in H as (h1 & H1 & H).
    apply bind_Ok_inv in H as (h2 & H2 & [= <-]).
    rewrite length_app.
    pose proof (Hf x h1 (or_introl eq_refl) H1).
    assert ((length h2 <= k * length rest)%nat)
      by (apply IH; [intros y hs' Hy; apply Hf; right; exact Hy | exact H2]).
    lia.
Qed.

Lemma Box_ray_test_length self ray hits :
  Box_ray_test self ray = Ok hits -> (length hits <= 6)%nat.
Proof.
  intros H. unfold Box_ray_test in H.
  apply (concat_results_length _ _ 2) in H.
  - assert ((length (combine (axes self) (vec_to_list (extents self))) <= 3)%nat).
    { rewrite length_combine. cbn. lia. }
    lia.
  - intros [axis extent] hs _ Hax. unfold Box_axis_test in Hax.
    apply (concat_results_length _ _ 1) in Hax; [cbn in Hax; lia|].
    intros [normal d] hs' _ Hf.
    apply Box_face_test_inv in Hf as [-> | (h & a0 & a1 & a2 & Hf)];
      [cbn; lia|].
    cbn in Hf. destruct Hf as (-> & _). cbn. lia.
Qed.

(** The hits of one axis of a box with orthonormal axes. *)
Lemma Box_axis_test_hits self ray a0 a1 a2 axis extent hs :
  axes self = [a0; a1; a2] ->
  axis · axis = 1 ->
  Box_axis_test self ray (axis, extent) = Ok hs ->
  Forall (fun h =>
            hit_object h = OBox self
            /\ (hit_normal h = axis \/ hit_normal h = (- axis)%vec)
            /\ (hit_pos h - box_pos self)%vec · hit_normal h = extent
            /\ Rabs ((hit_pos h - box_pos self)%vec · a0)
               < vx (extents self) + eps
            /\ Rabs ((hit_pos h - box_pos self)%vec · a1)
               < vy (extents self) + eps
            /\ Rabs ((hit_pos h - box_pos self)%vec · a2)
               < vz (extents self) + eps) hs.
Proof.
  intros Hax Hu. unfold Box_axis_test. apply concat_results_Forall.
  intros [normal d] hs' Hin Hf.
  apply Box_face_test_inv in Hf as [-> | (h & b0 & b1 & b2 & Hf)];
    [constructor|].
  cbn zeta in Hf.
  destruct Hf as (-> & Hz & Ht & Hb0 & Hb1 & Hb2 & H0 & H1 & H2 & Hh).
  rewrite Hax in Hb0, Hb1, Hb2.
  destruct (py_index_3 a0 a1 a2) as (E0 & E1 & E2).
  rewrite E0 in Hb0. rewrite E1 in Hb1. rewrite E2 in Hb2.
  injection Hb0 as <-. injection Hb1 as <-. injection Hb2 as <-.
  set (t := (d - ray_pos ray · normal) / (ray_dir ray · normal)) in *.
  assert (Hflip : forall a, (get_point ray t - box_pos self)%vec · a
                            = - ((box_pos self - get_point ray t)%vec · a)).
  { intros a. unfold dot, vsub; cbn. ring. }
  assert (Hface : get_point ray t · normal = d).
  { transitivity (ray_pos ray · normal + t * (ray_dir ray · normal)).
    - unfold get_point, dot, vadd, scale; cbn. ring.
    - unfold t. field. exact Hz. }
  assert (Hn : normal · normal = 1).
  { destruct Hin as [[= <- <-] | [[= <- <-] | []]];
      [apply vneg_unit, Hu | exact Hu]. }
  rewrite (RayIntersection_new_unit _ _ _ _ _ Hn) in Hh. injection Hh as <-.
  constructor; [|constructor]. cbn.
  split; [reflexivity|]. split; [|split; [|repeat split]].
  - destruct Hin as [[= <- <-] | [[= <- <-] | []]]; auto.
  - transitivity (get_point ray t · normal - box_pos self · normal);
      [unfold dot, vsub; cbn; ring|].
    rewrite Hface.
    destruct Hin as [[= <- <-] | [[= <- <-] | []]].
    + transitivity (extent * (axis · axis));
        [unfold dot, vsub, vneg, scale; cbn; ring | rewrite Hu; ring].
    + transitivity (extent * (axis · axis));
        [unfold dot, vadd, scale; cbn; ring | rewrite Hu; ring].
  - rewrite Hflip. apply Rabs_def1; lra.
  - rewrite Hflip. apply Rabs_def1; lra.
  - rewrite Hflip. apply Rabs_def1; lra.
Qed.

(** X11: a box with orthonormal axes reports at most six intersections; each
    names the box, has a normal that is an axis or its opposite, lies on the
    face of that normal (at the half-extent of that axis from the centre),
    and is within the half-extent plus [0.0001] of the centre on every
    axis. *)
Theorem Box_ray_test_hits (self : Box) (ray : Ray)
    (hits : list RayIntersection) :
  orthonormal (axes self) ->
  Box_ray_test self ray = Ok hits ->
  (length hits <= 6)%nat
  /\ forall h, In h hits ->
       hit_object h = OBox self
       /\ (exists axis extent,
              In (axis, extent)
                 (combine (axes self) (vec_to_list (extents self)))
              /\ (hit_normal h = axis \/ hit_normal h = (- axis)%vec)
              /\ (hit_pos h - box_pos self)%vec · hit_normal h = extent)
       /\ Forall2 (fun axis extent =>
                     Rabs ((hit_pos h - box_pos self)%vec · axis)
                     < extent + eps)
                  (axes self) (vec_to_list (extents self)).
Proof.
  intros Horth H. split; [eapply Box_ray_test_length; exact H|].
  destruct Horth as (a0 & a1 & a2 & Hax & H00 & H11 & H22 & _).
  assert (HF : Forall (fun h =>
            hit_object h = OBox self
            /\ (exists axis extent,
                   In (axis, extent)
                      (combine (axes self) (vec_to_list (extents self)))
                   /\ (hit_normal h = axis \/ hit_normal h = (- axis)%vec)
                   /\ (hit_pos h - box_pos self)%vec · hit_normal h = extent)
            /\ Forall2 (fun axis extent =>
                          Rabs ((hit_pos h - box_pos self)%vec · axis)
                          < extent + eps)
                       (axes self) (vec_to_list (extents self))) hits).
  { revert hits H. unfold Box_ray_test. apply concat_results_Forall.
    intros [axis extent] hs Hin Hhs.
    assert (Hu : axis · axis = 1).
    { rewrite Hax in Hin. cbn in Hin.
      destruct Hin as [[= <- <-] | [[= <- <-] | [[= <- <-] | []]]]; assumption. }
    apply (Box_axis_test_hits self ray a0 a1 a2 axis extent hs Hax Hu) in Hhs.
    eapply Forall_impl; [|exact Hhs]. cbn.
    intros h (Ho & Hn & Hf & B0 & B1 & B2).
    split; [exact Ho|]. split; [eauto|].
    rewrite Hax. unfold vec_to_list. repeat constructor; assumption. }
  rewrite Forall_forall in HF. exact HF.
Qed.

(** ** Triangle *)



Lemma dot_vdiv_l (v w : Vector3) (k : R) :
  k <> 0 -> vdiv v k · w = (v · w) / k.
Proof. intros Hk. unfold dot, vdiv; cbn. field; exact Hk. Qed.



(** ** List indexing *)

Lemma py_index_In {A : Type} (l : list A) (i : Z) (a : A) :
  py_index l i = Ok a -> In a l.
Proof.
  unfold py_index. destruct (_ || _)%bool; [discriminate|].
  destruct (nth_error _ _) eqn:H; [|discriminate].
  intros [= <-]. eapply nth_error_In, H.
Qed.

Lemma py_index_in_range {A : Type} (l : list A) (i : Z) :
  (0 <= i < Z.of_nat (length l))%Z ->
  exists a, py_index l i = Ok a /\ nth_error l (Z.to_nat i) = Some a.
Proof.
  intros Hi. unfold py_index.
  destruct (i <? 0)%Z eqn:Hneg; [lia|].
  destruct ((i <? 0) || (Z.of_nat (length l) <=? i))%Z%bool eqn:Hb.
  - apply Bool.orb_true_iff in Hb as [Hb | Hb]; lia.
  - destruct (nth_error l (Z.to_nat i)) eqn:Hn; [eauto|].
    apply nth_error_None in Hn. lia.
Qed.

Lemma py_index_out_of_range {A : Type} (l : list A) (i : Z) :
  (Z.of_nat (length l) <= i \/ i < - Z.of_nat (length l))%Z ->
  py_index l i = Raise IndexError.
Proof.
  intros Hi. unfold py_index.
  destruct (i <? 0)%Z eqn:Hneg.
  - destruct ((Z.of_nat (length l) + i <? 0)
              || (Z.of_nat (length l) <=? Z.of_nat (length l) + i))%Z%bool eqn:Hb;
      [reflexivity|].
    apply Bool.orb_false_iff in Hb as [Hb1 Hb2]. lia.
  - destruct ((i <? 0) || (Z.of_nat (length l) <=? i))%Z%bool eqn:Hb;
      [reflexivity|].
    apply Bool.orb_false_iff in Hb as [Hb1 Hb2]. lia.
Qed.

(** ** One line of a mesh source *)

(** X15: a face line with other than three references raises [ValueError];
    with three references between 1 and the number of vertices read so far
    it appends the triangle of the vertices they number (counting from 1),
    in the material of the mesh; with a reference past the last vertex, or
    at or below minus the number of vertices, it raises [IndexError]. *)
Theorem load_line_face (matl : Material) (offset : Vector3) (st : LoadState)
    (refs : list Z) :
  (length refs <> 3%nat ->
   load_line matl offset st (FaceLine refs) = Raise ValueError)
  /\ (forall i0 i1 i2,
        refs = [i0; i1; i2] ->
        ((1 <= i0 <= Z.of_nat (length (verts st)))%Z ->
         (1 <= i1 <= Z.of_nat (length (verts st)))%Z ->
         (1 <= i2 <= Z.of_nat (length (verts st)))%Z ->
         exists a b c,
           nth_error (verts st) (Z.to_nat (i0 - 1)) = Some a
           /\ nth_error (verts st) (Z.to_nat (i1 - 1)) = Some b
           /\ nth_error (verts st) (Z.to_nat (i2 - 1)) = Some c
           /\ load_line matl offset st (FaceLine refs)
              = Ok (mkLoad (verts st) (ld_tris st ++ [mkTriangle matl a b c])
                           (min_max st)))
        /\ (Exists (fun i => (Z.of_nat (length (verts st)) < i
                              \/ i <= - Z.of_nat (length (verts st)))%Z) refs ->
            load_line matl offset st (FaceLine refs) = Raise IndexError)).
Proof.
  split.
  - intros Hlen. cbn.
    destruct refs as [|i0 [|i1 [|i2 [|i3 r]]]]; cbn in *;
      try reflexivity; contradiction.
  - intros i0 i1 i2 ->. split.
    + intros H0 H1 H2. cbn.
      destruct (py_index_in_range (verts st) (i0 - 1)) as (a & -> & Ha); [lia|].
      destruct (py_index_in_range (verts st) (i1 - 1)) as (b & -> & Hb); [lia|].
      destruct (py_index_in_range (verts st) (i2 - 1)) as (c & -> & Hc); [lia|].
      cbn. exists a, b, c. auto.
    + intros Hex. cbn.
      assert (Hraise : forall i,
                 (Z.of_nat (length (verts st)) < i
                  \/ i <= - Z.of_nat (length (verts st)))%Z ->
                 py_index (verts st) (i - 1) = Raise IndexError).
      { intros i Hi. apply py_index_out_of_range. lia. }
      destruct (py_index (verts st) (i0 - 1)) as [a|e0] eqn:E0.
      2:{ apply py_index_raises in E0. subst e0. reflexivity. }
      cbn. destruct (py_index (verts st) (i1 - 1)) as [b|e1] eqn:E1.
      2:{ apply py_index_raises in E1. subst e1. reflexivity. }
      cbn. destruct (py_index (verts st) (i2 - 1)) as [c|e2] eqn:E2.
      2:{ apply py_index_raises in E2. subst e2. reflexivity. }
      exfalso.
      apply Exists_cons in Hex as [H|Hex]; [rewrite (Hraise _ H) in E0; discriminate|].
      apply Exists_cons in Hex as [H|Hex]; [rewrite (Hraise _ H) in E1; discriminate|].
      apply Exists_cons in Hex as [H|Hex]; [rewrite (Hraise _ H) in E2; discriminate|].
      inversion Hex.
Qed.

(** ** The loader's invariant *)

Lemma loaded_verts_app offset l1 l2 :
  loaded_verts offset (l1 ++ l2) = loaded_verts offset l1 ++ loaded_verts offset l2.
Proof. unfold loaded_verts. apply flat_map_app. Qed.

Lemma count_faces_app l1 l2 :
  count_faces (l1 ++ l2) = (count_faces l1 + count_faces l2)%nat.
Proof. unfold count_faces. rewrite filter_app, length_app. reflexivity. Qed.

Lemma min_max_of_single (v : Vector3) : min_max_of [v] v v.
Proof.
  unfold min_max_of, le3. split.
  - repeat constructor; lra.
  - repeat split; exists v; split; (left; reflexivity) || reflexivity.
Qed.

Lemma min_max_of_snoc (vs : list Vector3) (mn mx nv : Vector3) :
  min_max_of vs mn mx ->
  let pick_lt a b := if Rlt_dec a b then a else b in
  let pick_gt a b := if Rgt_dec a b then a else b in
  min_max_of (vs ++ [nv])
    (vec3 (pick_lt (vx nv) (vx mn)) (pick_lt (vy nv) (vy mn))
          (pick_lt (vz nv) (vz mn)))
    (vec3 (pick_gt (vx nv) (vx mx)) (pick_gt (vy nv) (vy mx))
          (pick_gt (vz nv) (vz mx))).
Proof.
  intros (Hall & Ax & Ay & Az & Bx & By & Bz) pick_lt pick_gt.
  unfold min_max_of, le3, pick_lt, pick_gt. cbn [vx vy vz].
  split.
  - apply Forall_app. split.
    + eapply Forall_impl; [|exact Hall]. cbn. unfold le3.
      intros v ((? & ? & ?) & (? & ? & ?)).
      repeat match goal with
             | |- context [Rlt_dec ?a ?b] => destruct (Rlt_dec a b)
             | |- context [Rgt_dec ?a ?b] => destruct (Rgt_dec a b)
             end; repeat split; lra.
    + constructor; [|constructor].
      repeat match goal with
             | |- context [Rlt_dec ?a ?b] => destruct (Rlt_dec a b)
             | |- context [Rgt_dec ?a ?b] => destruct (Rgt_dec a b)
             end; repeat split; lra.
  - assert (Hnew : In nv (vs ++ [nv])) by (apply in_or_app; right; left; reflexivity).
    assert (Hold : forall v, In v vs -> In v (vs ++ [nv]))
      by (intros; apply in_or_app; left; assumption).
    repeat split.
    + destruct (Rlt_dec _ _); [eauto|]. destruct Ax as (v & ? & ?); eauto.
    + destruct (Rlt_dec _ _); [eauto|]. destruct Ay as (v & ? & ?); eauto.
    + destruct (Rlt_dec _ _); [eauto|]. destruct Az as (v & ? & ?); eauto.
    + destruct (Rgt_dec _ _); [eauto|]. destruct Bx as (v & ? & ?); eauto.
    + destruct (Rgt_dec _ _); [eauto|]. destruct By as (v & ? & ?); eauto.
    + destruct (Rgt_dec _ _); [eauto|]. destruct Bz as (v & ? & ?); eauto.
Qed.

Lemma load_line_inv matl offset done st line st' :
  load_inv matl offset done st ->
  load_line matl offset st line = Ok st' ->
  load_inv matl offset (done ++ [line]) st'.
Proof.
  intros (Hv & Hn & Htris & Hmm) H. unfold load_inv.
  rewrite loaded_verts_app, count_faces_app.
  destruct line as [x y z | refs |].
  - cbn in H. injection H as <-. cbn [verts ld_tris min_max].
    split; [rewrite Hv; reflexivity|].
    split; [rewrite Hn; cbn; lia|].
    split.
    + eapply Forall_impl; [|exact Htris]. cbn. intros tri [Hm Hincl].
      split; [exact Hm | apply incl_appl, Hincl].
    + destruct (min_max st) as [[mn mx]|].
      * apply min_max_of_snoc, Hmm.
      * rewrite Hmm. apply min_max_of_single.
  - cbn in H.
    destruct (map (fun val => (val - 1)%Z) refs) as [|i0 [|i1 [|i2 [|i3 r]]]];
      try discriminate.
    apply bind_Ok_inv in H as (a & Ha & H).
    apply bind_Ok_inv in H as (b & Hb & H).
    apply bind_Ok_inv in H as (c & Hc & [= <-]).
    cbn [verts ld_tris min_max].
    split; [rewrite Hv; cbn; rewrite app_nil_r; reflexivity|].
    split; [rewrite length_app, Hn; cbn; lia|].
    split; [|exact Hmm].
    apply Forall_app. split; [exact Htris|].
    constructor; [|constructor]. cbn. split; [reflexivity|].
    intros v [<- | [<- | [<- | []]]]; eauto using py_index_In.
  - cbn in H. injection H as <-.
    split; [rewrite Hv; cbn; rewrite app_nil_r; reflexivity|].
    split; [rewrite Hn; cbn; lia|].
    split; assumption.
Qed.

Lemma load_lines_inv matl offset rest : forall done st st',
  load_inv matl offset done st ->
  load_lines matl offset st rest = Ok st' ->
  load_inv matl offset (done ++ rest) st'.
Proof.
  induction rest as [|line rest IH]; cbn; intros done st st' Hinv H.
  - injection H as <-. rewrite app_nil_r. exact Hinv.
  - apply bind_Ok_inv in H as (st1 & H1 & H).
    replace (done ++ line :: rest) with ((done ++ [line]) ++ rest)
      by (rewrite <- app_assoc; reflexivity).
    eapply IH; [|exact H]. eapply load_line_inv; eassumption.
Qed.

Lemma load_inv_init matl offset : load_inv matl offset [] (mkLoad [] [] None).
Proof. unfold load_inv; cbn. repeat split; constructor. Qed.

Lemma inside_closed_Box_new matl (mn mx v : Vector3) :
  le3 mn v -> le3 v mx ->
  inside_closed (Box_new matl (vdiv (mn + mx)%vec 2) (vdiv (mx - mn)%vec 2)) v.
Proof.
  intros (? & ? & ?) (? & ? & ?). unfold inside_closed; cbn.
  constructor; [|constructor; [|constructor; [|constructor]]];
    apply Rabs_le; unfold dot; cbn; lra.
Qed.

(** X16: a mesh that loads has the given material, one triangle per face
    line, each of that material and with corners among the offset vertices
    of the source, and an axis-aligned box around [pos] that contains every
    vertex and is tight: [pos - extents] and [pos + extents] are the
    coordinate-wise minimum and maximum of the vertices. *)
Theorem TriangleMesh_new_bounding_box matl offset lines mesh :
  TriangleMesh_new matl offset lines = Ok mesh ->
  mesh_matl mesh = matl
  /\ length (tris mesh) = count_faces lines
  /\ axes (box mesh) = [vec3 1 0 0; vec3 0 1 0; vec3 0 0 1]
  /\ Forall (fun v => inside_closed (box mesh) v) (loaded_verts offset lines)
  /\ Forall (fun tri =>
               tri_matl tri = matl
               /\ incl (corners tri) (loaded_verts offset lines)
               /\ Forall (inside_closed (box mesh)) (corners tri))
            (tris mesh)
  /\ min_max_of (loaded_verts offset lines)
                (TriangleMesh_pos mesh - extents (box mesh))%vec
                (TriangleMesh_pos mesh + extents (box mesh))%vec.
Proof.
  unfold TriangleMesh_new. intros H.
  apply bind_Ok_inv in H as (st & Hload & H).
  apply (load_lines_inv matl offset lines [] _ st (load_inv_init matl offset))
    in Hload.
  cbn [app] in Hload. destruct Hload as (Hv & Hn & Htris & Hmm).
  destruct (min_max st) as [[mn mx]|]; [|discriminate].
  injection H as <-. unfold TriangleMesh_pos. cbn [mesh_matl tris box].
  rewrite Hv in *. destruct Hmm as (Hall & Hatt).
  assert (Hin : Forall (fun v => inside_closed
                          (Box_new matl (vdiv (mn + mx)%vec 2)
                                        (vdiv (mx - mn)%vec 2)) v)
                       (loaded_verts offset lines)).
  { eapply Forall_impl; [|exact Hall]. cbn. intros v [? ?].
    apply inside_closed_Box_new; assumption. }
  split; [reflexivity|]. split; [exact Hn|]. split; [reflexivity|].
  split; [exact Hin|]. split.
  - eapply Forall_impl; [|exact Htris]. cbn. intros tri [Hm Hincl].
    split; [exact Hm|]. split; [exact Hincl|].
    rewrite Forall_forall in Hin |- *. auto.
  - replace (box_pos (Box_new matl (vdiv (mn + mx)%vec 2) (vdiv (mx - mn)%vec 2))
             - extents (Box_new matl (vdiv (mn + mx)%vec 2)
                                     (vdiv (mx - mn)%vec 2)))%vec with mn
      by (destruct mn, mx; unfold vsub, vadd, vdiv; cbn; apply vec3_eq; field).
    replace (box_pos (Box_new matl (vdiv (mn + mx)%vec 2) (vdiv (mx - mn)%vec 2))
             + extents (Box_new matl (vdiv (mn + mx)%vec 2)
                                     (vdiv (mx - mn)%vec 2)))%vec with mx
      by (destruct mn, mx; unfold vsub, vadd, vdiv; cbn; apply vec3_eq; field).
    split; assumption.
Qed.

(** ** Which sources load *)

Lemma load_line_face_ok matl offset st refs :
  length refs = 3%nat ->
  Forall (fun i => (1 <= i <= Z.of_nat (length (verts st)))%Z) refs ->
  exists st', load_line matl offset st (FaceLine refs) = Ok st'
              /\ verts st' = verts st.
Proof.
  intros Hlen Hall.
  destruct refs as [|i0 [|i1 [|i2 [|i3 r]]]]; try discriminate.
  inversion Hall as [|? ? H0 Hall1]; subst.
  inversion Hall1 as [|? ? H1 Hall2]; subst.
  inversion Hall2 as [|? ? H2 _]; subst.
  cbn.
  destruct (py_index_in_range (verts st) (i0 - 1)) as (a & -> & _); [lia|].
  destruct (py_index_in_range (verts st) (i1 - 1)) as (b & -> & _); [lia|].
  destruct (py_index_in_range (verts st) (i2 - 1)) as (c & -> & _); [lia|].
  cbn. eauto.
Qed.

Lemma load_lines_total matl offset lines : forall st,
  refs_in_range (length (verts st)) lines ->
  exists st', load_lines matl offset st lines = Ok st'.
Proof.
  induction lines as [|line rest IH]; cbn; intros st H; [eauto|].
  destruct line as [x y z | refs |].
  - cbn. apply IH. cbn. rewrite length_app. cbn.
    replace (length (verts st) + 1)%nat with (S (length (verts st))) by lia.
    exact H.
  - destruct H as (Hlen & Hall & Hrest).
    destruct (load_line_face_ok matl offset st refs Hlen Hall) as (st' & -> & Hv).
    cbn [bind]. apply IH. rewrite Hv. exact Hrest.
  - cbn. apply IH, H.
Qed.

Lemma load_lines_other matl offset lines : forall st,
  Forall (eq OtherLine) lines -> load_lines matl offset st lines = Ok st.
Proof.
  induction lines as [|line rest IH]; cbn; intros st H; [reflexivity|].
  inversion H as [|? ? <- Hrest]; subst. cbn. apply IH, Hrest.
Qed.

(** X17: for a source whose vertex lines carry three numbers each and whose
    face lines carry integers, which is what [MeshLine] holds (a line
    starting with [v] that has other than three numbers makes the loader
    raise and is not covered): with at least one vertex line, and every
    face made of three references in the range of the vertices read before
    it, the source loads; without a vertex line it never does, and with
    neither vertex nor face lines it raises [TypeError]. *)
Theorem TriangleMesh_new_source matl offset lines :
  (refs_in_range 0 lines -> loaded_verts offset lines <> [] ->
   exists mesh, TriangleMesh_new matl offset lines = Ok mesh)
  /\ (loaded_verts offset lines = [] ->
      exists e, TriangleMesh_new matl offset lines = Raise e)
  /\ (Forall (eq OtherLine) lines ->
      TriangleMesh_new matl offset lines = Raise TypeError).
Proof.
  unfold TriangleMesh_new. repeat split.
  - intros Hrefs Hne.
    destruct (load_lines_total matl offset lines (mkLoad [] [] None) Hrefs)
      as [st Hst].
    rewrite Hst. cbn [bind].
    apply (load_lines_inv matl offset lines [] _ st (load_inv_init matl offset))
      in Hst.
    destruct Hst as (Hv & _ & _ & Hmm). cbn [app] in Hv.
    destruct (min_max st) as [[mn mx]|]; [eauto|].
    rewrite Hmm in Hv. symmetry in Hv. contradiction.
  - intros Hnil.
    destruct (load_lines matl offset (mkLoad [] [] None) lines) as [st|e] eqn:Hst;
      [|cbn; eauto].
    cbn [bind].
    apply (load_lines_inv matl offset lines [] _ st (load_inv_init matl offset))
      in Hst.
    destruct Hst as (Hv & _ & _ & Hmm). cbn [app] in Hv.
    destruct (min_max st) as [[mn mx]|]; [|eauto].
    destruct Hmm as (_ & (v & Hin & _) & _).
    rewrite Hv, Hnil in Hin. destruct Hin.
  - intros Hother. rewrite load_lines_other by exact Hother. reflexivity.
Qed.

(** ** The material a hit is shaded with *)

(** X18: the material found through [hit.object.matl] is the material of the
    primitive that was tested; for a mesh, when its triangles carry its
    material, as the constructor makes them. *)
Theorem hit_material (object : Object) (ray : Ray)
    (hits : list RayIntersection) (h : RayIntersection) :
  (forall m, object = OMesh m ->
             Forall (fun tri => tri_matl tri = mesh_matl m) (tris m)) ->
  ray_test object ray = Ok hits -> In h hits ->
  matl (hit_object h) = matl object.
Proof.
  intros Hmesh H Hin. apply ray_test_records in H.
  rewrite Forall_forall in H. destruct (H h Hin) as (_ & _ & _ & Hown).
  destruct object as [p|s|b|t|m]; cbn in Hown; try (rewrite Hown; reflexivity).
  destruct Hown as (tri & Htri & ->). cbn.
  specialize (Hmesh m eq_refl). rewrite Forall_forall in Hmesh. auto.
Qed.

(** ** The camera's frame *)




Lemma cross_vdiv_r (v w : Vector3) (k : R) :
  k <> 0 -> cross v (vdiv w k) = vdiv (cross v w) k.
Proof.
  intros Hk. unfold cross, vdiv; cbn. apply vec3_eq; field; exact Hk.
Qed.

Lemma vdiv_zero_iff (v : Vector3) (k : R) :
  k <> 0 -> vdiv v k = vzero <-> v = vzero.
Proof.
  intros Hk. destruct v as [a b c]. unfold vdiv, vzero; cbn. split.
  - intros [= Ha Hb Hc].
    apply vec3_eq.
    + apply (Rmult_eq_reg_r (/ k)); [unfold Rdiv in Ha; lra | apply Rinv_neq_0_compat, Hk].
    + apply (Rmult_eq_reg_r (/ k)); [unfold Rdiv in Hb; lra | apply Rinv_neq_0_compat, Hk].
    + apply (Rmult_eq_reg_r (/ k)); [unfold Rdiv in Hc; lra | apply Rinv_neq_0_compat, Hk].
  - intros [= -> -> ->]. apply vec3_eq; field; exact Hk.
Qed.


(** ** The pixel grid *)

Lemma IZR_pred_nonzero (n : Z) : n <> 1%Z -> IZR (n - 1) <> 0.
Proof. intros Hn H. apply eq_IZR_R0 in H. lia. Qed.

Lemma get_pixel_pos_3d_Ok config camera px py :
  SCREEN_WIDTH config <> 1%Z -> SCREEN_HEIGHT config <> 1%Z ->
  get_pixel_pos_3d config camera px py
  = Ok (view_origin camera
        + (view_width camera * (IZR px / IZR (SCREEN_WIDTH config - 1)))
          *v x_axis camera
        - (view_height camera * (IZR py / IZR (SCREEN_HEIGHT config - 1)))
          *v y_axis camera)%vec.
Proof.
  intros Hw Hh. unfold get_pixel_pos_3d.
  rewrite !pydiv_nonzero by (apply IZR_pred_nonzero; assumption).
  reflexivity.
Qed.

(** X20: on a screen whose width and height differ from 1, pixel [(0, 0)]
    maps to the view origin, the last pixel to the opposite corner of the
    view rectangle, and the points of two pixels differ by the pixel steps
    along [x_axis] and against [y_axis] (a uniform grid). *)
Theorem get_pixel_pos_3d_grid (config : Config) (camera : Camera) :
  SCREEN_WIDTH config <> 1%Z -> SCREEN_HEIGHT config <> 1%Z ->
  get_pixel_pos_3d config camera 0 0 = Ok (view_origin camera)
  /\ get_pixel_pos_3d config camera (SCREEN_WIDTH config - 1)
                      (SCREEN_HEIGHT config - 1)
     = Ok (view_origin camera + view_width camera *v x_axis camera
           - view_height camera *v y_axis camera)%vec
  /\ forall px py px' py', exists p p',
       get_pixel_pos_3d config camera px py = Ok p
       /\ get_pixel_pos_3d config camera px' py' = Ok p'
       /\ (p' - p)%vec
          = ((view_width camera * (IZR (px' - px) / IZR (SCREEN_WIDTH config - 1)))
             *v x_axis camera
             - (view_height camera
                * (IZR (py' - py) / IZR (SCREEN_HEIGHT config - 1)))
               *v y_axis camera)%vec.
Proof.
  intros Hw Hh.
  pose proof (IZR_pred_nonzero _ Hw) as Hw'.
  pose proof (IZR_pred_nonzero _ Hh) as Hh'.
  repeat split.
  - rewrite get_pixel_pos_3d_Ok by assumption. f_equal.
    destruct (view_origin camera); unfold vadd, vsub, scale; cbn.
    apply vec3_eq; field; repeat split; assumption.
  - rewrite get_pixel_pos_3d_Ok by assumption. f_equal.
    unfold vadd, vsub, scale; cbn. apply vec3_eq; field; repeat split; assumption.
  - intros px py px' py'. eexists _, _.
    rewrite !get_pixel_pos_3d_Ok by assumption.
    split; [reflexivity|]. split; [reflexivity|].
    unfold vadd, vsub, scale; cbn. rewrite !(minus_IZR px'), !(minus_IZR py').
    apply vec3_eq; field; repeat split; assumption.
Qed.

Lemma Camera_new_facts config pos coi up fov near camera :
  Camera_new config pos coi up fov near = Ok camera ->
  cam_pos camera = pos
  /\ x_axis camera · z_axis camera = 0
  /\ y_axis camera · z_axis camera = 0
  /\ z_axis camera · z_axis camera = 1
  /\ (view_origin camera - pos)%vec · z_axis camera = near.
Proof.
  intros H. pose proof (Camera_new_inv _ _ _ _ _ _ _ H) as [Hx Hy].
  unfold Camera_new in H.
  apply bind_Ok_inv in H as (z & Hz & H).
  apply bind_Ok_inv in H as (x & Hxn & [= <-]). cbn in *.
  apply normalize_Ok_unit in Hz.
  repeat split; try assumption.
  transitivity (- (0.5 * (ASPECT_RATIO config
                          * (2 * near * tan (0.5 * radians fov)))) * (x · z)
                + 0.5 * (2 * near * tan (0.5 * radians fov)) * (cross z x · z)
                + near * (z · z)).
  - unfold dot, vadd, vsub, scale; cbn. ring.
  - rewrite Hx, Hy, Hz. ring.
Qed.

Lemma primary_ray_facts config pos coi up fov near camera px py :
  Camera_new config pos coi up fov near = Ok camera ->
  near <> 0 ->
  SCREEN_WIDTH config <> 1%Z -> SCREEN_HEIGHT config <> 1%Z ->
  exists p ray,
    get_pixel_pos_3d config camera px py = Ok p
    /\ (p - pos)%vec · z_axis camera = near
    /\ Ray_new (cam_pos camera) (p - cam_pos camera)%vec = Ok ray
    /\ ray_pos ray = pos
    /\ 0 < near * (ray_dir ray · z_axis camera).
Proof.
  intros Hnew Hnear Hw Hh.
  apply Camera_new_facts in Hnew as (Hpos & Hx & Hy & Hz & Hvo).
  eexists. rewrite get_pixel_pos_3d_Ok by assumption. rewrite Hpos.
  match goal with
  | |- exists ray, Ok ?p = _ /\ _ => set (pp := p)
  end.
  assert (Hdepth : (pp - pos)%vec · z_axis camera = near).
  { transitivity ((view_origin camera - pos)%vec · z_axis camera
                  + view_width camera
                    * (IZR px / IZR (SCREEN_WIDTH config - 1))
                    * (x_axis camera · z_axis camera)
                  - view_height camera
                    * (IZR py / IZR (SCREEN_HEIGHT config - 1))
                    * (y_axis camera · z_axis camera)).
    - unfold pp, dot, vadd, vsub, scale; cbn. ring.
    - rewrite Hvo, Hx, Hy. ring. }
  assert (Hnz : magnitude (pp - pos)%vec <> 0).
  { intros H. apply magnitude_zero_iff in H. rewrite H in Hdepth.
    unfold dot, vzero in Hdepth; cbn in Hdepth. lra. }
  pose proof (magnitude_nonneg (pp - pos)%vec) as Hm.
  exists (mkRay pos (vdiv (pp - pos)%vec (magnitude (pp - pos)%vec))).
  split; [reflexivity|]. split; [exact Hdepth|].
  split; [|split; [reflexivity|]].
  - unfold Ray_new, normalize.
    destruct (Req_dec_T _ 0); [contradiction | reflexivity].
  - cbn. rewrite dot_vdiv_l, Hdepth by exact Hnz.
    unfold Rdiv. rewrite <- Rmult_assoc.
    apply Rmult_lt_0_compat; [nra | apply Rinv_0_lt_compat; lra].
Qed.

(** ** The shadow test *)

Lemma min_hit_In h hs : In (min_hit h hs) (h :: hs).
Proof.
  destruct (min_hit_first h hs) as [-> | (l1 & l2 & Hhs & _)];
    [left; reflexivity|].
  right. rewrite Hhs at 2. apply in_or_app. right. left. reflexivity.
Qed.

Lemma closer_min_hit to_light h hs :
  Forall (fun x => 0 <= hit_t x) (h :: hs) ->
  closer to_light (min_hit h hs) = existsb (closer to_light) (h :: hs).
Proof.
  intros Hpos.
  destruct (existsb (closer to_light) (h :: hs)) eqn:Hex.
  - apply existsb_exists in Hex as (x & Hin & Hx).
    pose proof (min_hit_least h hs) as Hleast.
    rewrite Forall_forall in Hleast, Hpos.
    pose proof (Hleast x Hin). pose proof (Hpos _ (min_hit_In h hs)).
    unfold closer in *.
    destruct (Rlt_dec (hit_t x ^ 2) _); [|discriminate].
    destruct (Rlt_dec (hit_t (min_hit h hs) ^ 2) _); [reflexivity|].
    exfalso. nra.
  - destruct (closer to_light (min_hit h hs)) eqn:Hc; [|reflexivity].
    rewrite <- Hex. symmetry. apply existsb_exists.
    exists (min_hit h hs). split; [apply min_hit_In | exact Hc].
Qed.

Lemma ray_test_nonneg_Forall object ray hits :
  ray_test object ray = Ok hits -> Forall (fun h => 0 <= hit_t h) hits.
Proof. destruct object; cbn; eauto with hits_nonneg. Qed.

Lemma in_shadow_spec_existsb objects shadow_ray to_light all_hits :
  concat_results (fun object => ray_test object shadow_ray) objects = Ok all_hits ->
  in_shadow_spec objects shadow_ray to_light
  = Ok (existsb (closer to_light) all_hits).
Proof.
  intros H. unfold in_shadow_spec. rewrite H. cbn [bind].
  destruct all_hits as [|h hs]; [reflexivity|].
  f_equal. fold (closer to_light (min_hit h hs)).
  apply closer_min_hit.
  revert H. apply concat_results_Forall. intros object hits _.
  apply ray_test_nonneg_Forall.
Qed.

Lemma shadow_loop_existsb objects shadow_ray to_light : forall closest all_hits,
  concat_results (fun object => ray_test object shadow_ray) objects = Ok all_hits ->
  exists closest',
    shadow_loop objects shadow_ray to_light closest
    = Ok (closest', existsb (closer to_light) all_hits)
    /\ (all_hits = [] -> closest' = closest)
    /\ (all_hits <> [] -> In closest' all_hits).
Proof.
  induction objects as [|object rest IH]; intros closest all_hits H;
    cbn [shadow_loop concat_results] in *.
  - injection H as <-. exists closest. cbn. repeat split; auto; contradiction.
  - apply bind_Ok_inv in H as (hits & Hhits & H).
    apply bind_Ok_inv in H as (rest_hits & Hrest & [= <-]).
    rewrite Hhits. cbn [bind].
    destruct hits as [|h hs].
    + cbn [app]. apply IH, Hrest.
    + pose proof (ray_test_nonneg_Forall _ _ _ Hhits) as Hpos.
      pose proof (closer_min_hit to_light h hs Hpos) as Hmin.
      rewrite existsb_app, <- Hmin. unfold closer at 1.
      destruct (Rlt_dec (hit_t (min_hit h hs) ^ 2) (magnitude_squared to_light)).
      * exists (min_hit h hs). split; [reflexivity|]. split; [discriminate|].
        intros _. apply in_or_app. left. apply min_hit_In.
      * destruct (IH (min_hit h hs) rest_hits Hrest) as (c' & Hc' & Hnil & Hin).
        exists c'. cbn [orb]. split; [exact Hc'|]. split; [discriminate|].
        intros _. apply in_or_app.
        destruct rest_hits as [|r rs].
        -- left. rewrite Hnil by reflexivity. apply min_hit_In.
        -- right. apply Hin. discriminate.
Qed.

(** X22: when the primitives' tests of the shadow ray all succeed, the
    shadow loop, which stops at the first primitive whose nearest hit is
    nearer than the light, finds the point in shadow exactly when some hit
    of the shadow ray on any primitive is nearer than the light, which is
    also when the nearest of all hits is.  It leaves [closest] alone when
    the shadow ray hits nothing and otherwise assigns it a hit of the shadow
    ray. *)
Theorem shadow_loop_nearest (objects : list Object) (shadow_ray : Ray)
    (to_light : Vector3) (closest : RayIntersection)
    (all_hits : list RayIntersection) :
  concat_results (fun object => ray_test object shadow_ray) objects = Ok all_hits ->
  exists closest',
    shadow_loop objects shadow_ray to_light closest
    = Ok (closest', existsb (closer to_light) all_hits)
    /\ in_shadow_spec objects shadow_ray to_light
       = Ok (existsb (closer to_light) all_hits)
    /\ (all_hits = [] -> closest' = closest)
    /\ (all_hits <> [] -> In closest' all_hits).
Proof.
  intros H.
  destruct (shadow_loop_existsb objects shadow_ray to_light closest all_hits H)
    as (c' & Hloop & Hnil & Hin).
  exists c'. split; [exact Hloop|]. split; [|split; assumption].
  apply in_shadow_spec_existsb, H.
Qed.

(** ** One light *)

Lemma light_step_agrees camera objects closest color light color' :
  light_step_spec camera objects closest color light = Ok color' ->
  exists closest',
    light_step camera objects (closest, color) light = Ok (closest', color').
Proof.
  unfold light_step_spec, light_step. intros H.
  apply bind_Ok_inv in H as (tm & -> & H). cbn [bind].
  apply bind_Ok_inv in H as (shadow_ray & -> & H). cbn [bind].
  apply bind_Ok_inv in H as (b & Hb & [= <-]).
  pose proof Hb as Hb'. unfold in_shadow_spec in Hb'.
  apply bind_Ok_inv in Hb' as (all_hits & Hall & _).
  rewrite (in_shadow_spec_existsb _ _ _ _ Hall) in Hb. injection Hb as <-.
  destruct (shadow_loop_existsb objects shadow_ray (to_light tm) closest
              all_hits Hall) as (c' & -> & _).
  cbn. eauto.
Qed.

(** X23: with no light or a single light, whenever shading from the nearest
    intersection of the primary ray gives a colour, [draw_pixel] computes
    that colour. *)
Theorem draw_pixel_single_light config px py camera objects lights c :
  (length lights <= 1)%nat ->
  draw_pixel_spec config px py camera objects lights = Ok c ->
  draw_pixel config px py camera objects lights = Ok c.
Proof.
  intros Hlen. unfold draw_pixel_spec, draw_pixel.
  destruct (get_pixel_pos_3d config camera px py) as [p|]; [|discriminate].
  cbn [bind].
  destruct (Ray_new _ _) as [ray|]; [|discriminate]. cbn [bind].
  destruct (concat_results _ objects) as [[|h hs]|]; try discriminate;
    [auto|]. cbn [bind].
  destruct lights as [|light [|l2 rest]]; [auto | | cbn in Hlen; lia].
  cbn [light_loop light_loop_spec]. intros H.
  apply bind_Ok_inv in H as (color & Hcolor & H).
  apply bind_Ok_inv in Hcolor as (color' & Hstep & [= <-]).
  apply light_step_agrees in Hstep as (c' & ->). cbn. exact H.
Qed.

(** ** The colour of a pixel *)

(** X24: every channel of the colour [draw_pixel] hands to [set_at] lies
    between 0 and 255. *)
Theorem draw_pixel_colour_range config px py camera objects lights c :
  draw_pixel config px py camera objects lights = Ok c ->
  0 <= vx c <= 255 /\ 0 <= vy c <= 255 /\ 0 <= vz c <= 255.
Proof.
  unfold draw_pixel. intros H.
  apply bind_Ok_inv in H as (p & _ & H).
  apply bind_Ok_inv in H as (ray & _ & H).
  apply bind_Ok_inv in H as ([|h hs] & _ & H).
  - injection H as <-. cbn. lra.
  - apply bind_Ok_inv in H as ([closest lit] & _ & [= <-]).
    unfold clamp_vec3, scale; cbn.
    pose proof (clamp_range (vx lit) 0 1). pose proof (clamp_range (vy lit) 0 1).
    pose proof (clamp_range (vz lit) 0 1). lra.
Qed.

(** ** Undoing a rotation *)

(** X25: rotating a box by [-a] about an axis undoes the rotation by [a]
    about that axis, and two rotations about one axis commute. *)
Theorem Box_rotate_inverse (self : Box) (a b : R) :
  Box_rotate_x (Box_rotate_x self a) (- a) = self
  /\ Box_rotate_y (Box_rotate_y self a) (- a) = self
  /\ Box_rotate_z (Box_rotate_z self a) (- a) = self
  /\ Box_rotate_x (Box_rotate_x self a) b = Box_rotate_x (Box_rotate_x self b) a
  /\ Box_rotate_y (Box_rotate_y self a) b = Box_rotate_y (Box_rotate_y self b) a
  /\ Box_rotate_z (Box_rotate_z self a) b = Box_rotate_z (Box_rotate_z self b) a.
Proof.
  rewrite !Box_rotate_x_plus, !Box_rotate_y_plus, !Box_rotate_z_plus.
  replace (a + - a) with 0 by ring. replace (b + a) with (a + b) by ring.
  rewrite Box_rotate_x_0, Box_rotate_y_0, Box_rotate_z_0. auto 7.
Qed.

(** ** Events *)

Lemma process_events_harmless events :
  process_events events = None <-> Forall harmless events.
Proof.
  unfold harmless. induction events as [|e rest IH]; cbn.
  - split; [constructor | reflexivity].
  - destruct e as [|[|]|]; split; intros H;
      try discriminate;
      try (inversion H as [|? ? [Hq Hk] Hrest]; subst;
           try (exfalso; apply Hq; reflexivity);
           try (exfalso; apply Hk; reflexivity);
           apply IH; exact Hrest);
      try (constructor; [split; discriminate | apply IH; exact H]).
Qed.

Lemma process_events_skip before rest :
  Forall harmless before ->
  process_events (before ++ rest) = process_events rest.
Proof.
  unfold harmless. induction 1 as [|e before [Hq Hk] _ IH]; cbn; [reflexivity|].
  destruct e as [|[|]|]; try exact IH.
  - exfalso. apply Hq. reflexivity.
  - exfalso. apply Hk. reflexivity.
Qed.

(** X26: [process_events] returns when no event of the queue is [QUIT] or a
    press of the Escape key; otherwise the first such event decides: [QUIT]
    raises [SystemExit] without [pg.quit()] having been called, the Escape
    key raises it after calling [pg.quit()]; later events are not looked
    at. *)
Theorem process_events_first_exit (events : list Event) :
  (process_events events = None <-> Forall harmless events)
  /\ (forall before after,
        events = before ++ QUIT :: after -> Forall harmless before ->
        process_events events = Some false)
  /\ (forall before after,
        events = before ++ KEYDOWN K_ESCAPE :: after -> Forall harmless before ->
        process_events events = Some true).
Proof.
  split; [apply process_events_harmless|].
  split; intros before after -> Hb; rewrite process_events_skip by exact Hb;
    reflexivity.
Qed.

(** ** Rendering the scene *)

Lemma range_pos (n : Z) :
  (1 <= n)%Z -> exists rest, range n = 0%Z :: rest.
Proof.
  intros H. unfold range. destruct (Z.to_nat n) as [|k] eqn:Hk; [lia|].
  cbn. eauto.
Qed.

Lemma draw_pixel_zero_division config px py camera objects lights :
  SCREEN_WIDTH config = 1%Z \/ SCREEN_HEIGHT config = 1%Z ->
  draw_pixel config px py camera objects lights = Raise ZeroDivisionError.
Proof.
  intros H. unfold draw_pixel, get_pixel_pos_3d.
  destruct H as [H | H]; rewrite H; cbn [Z.sub Z.add Z.opp Z.pos_sub].
  - rewrite pydiv_zero. reflexivity.
  - destruct (pydiv _ _) as [q|e] eqn:Hq.
    + cbn [bind]. rewrite pydiv_zero. reflexivity.
    + unfold pydiv in Hq. destruct (Req_dec_T _ 0); [|discriminate].
      injection Hq as <-. reflexivity.
Qed.

(** X27: on a screen of width 1 or of height 1 (and with at least one
    pixel) [draw_scene] raises
    [ZeroDivisionError] at the first pixel: nothing is drawn, the display is
    not flipped and no event is read. *)
Theorem draw_scene_degenerate_screen config camera objects lights st :
  (SCREEN_WIDTH config = 1%Z /\ 1 <= SCREEN_HEIGHT config)%Z
  \/ (SCREEN_HEIGHT config = 1%Z /\ 1 <= SCREEN_WIDTH config)%Z ->
  draw_scene config camera objects lights st
  = (st, Some (Exception ZeroDivisionError)).
Proof.
  intros H.
  assert (Hw : (1 <= SCREEN_WIDTH config)%Z) by lia.
  assert (Hh : (1 <= SCREEN_HEIGHT config)%Z) by lia.
  destruct (range_pos _ Hw) as [xs Hxs]. destruct (range_pos _ Hh) as [ys Hys].
  unfold draw_scene. rewrite Hys. cbn [for_each].
  unfold scene_row. rewrite Hxs. cbn [for_each].
  unfold scene_pixel. rewrite draw_pixel_zero_division by tauto.
  reflexivity.
Qed.

Lemma range_In (n x : Z) : In x (range n) <-> (0 <= x < n)%Z.
Proof.
  unfold range. rewrite in_map_iff. split.
  - intros (k & <- & Hk). apply in_seq in Hk. lia.
  - intros H. exists (Z.to_nat x). split; [lia|]. apply in_seq. lia.
Qed.

Lemma NoDup_map_injective {A B : Type} (f : A -> B) (l : list A) :
  (forall a b, f a = f b -> a = b) -> NoDup l -> NoDup (map f l).
Proof.
  intros Hinj. induction 1 as [|a l Ha _ IH]; cbn; constructor; [|exact IH].
  intros Hin. apply in_map_iff in Hin as (b & Hb & Hin).
  apply Hinj in Hb. subst b. contradiction.
Qed.

Lemma range_NoDup (n : Z) : NoDup (range n).
Proof.
  unfold range. apply NoDup_map_injective; [|apply seq_NoDup].
  intros a b H. lia.
Qed.

Lemma range_length (n : Z) : length (range n) = Z.to_nat n.
Proof. unfold range. rewrite length_map, length_seq. reflexivity. Qed.

Lemma scanline_In config x y :
  In (x, y) (scanline config)
  <-> (0 <= x < SCREEN_WIDTH config /\ 0 <= y < SCREEN_HEIGHT config)%Z.
Proof.
  unfold scanline. rewrite in_flat_map. split.
  - intros (y' & Hy & Hin). apply in_map_iff in Hin as (x' & [= <- <-] & Hx).
    apply range_In in Hy, Hx. lia.
  - intros [Hx Hy]. exists y. split; [apply range_In, Hy|].
    apply in_map_iff. exists x. split; [reflexivity | apply range_In, Hx].
Qed.

Lemma rows_NoDup (xs ys : list Z) :
  NoDup xs -> NoDup ys ->
  NoDup (flat_map (fun y => map (fun x => (x, y)) xs) ys).
Proof.
  intros Hxs. induction 1 as [|y ys Hy Hys IH]; cbn; [constructor|].
  apply NoDup_app; [| exact IH |].
  - apply NoDup_map_injective; [|exact Hxs].
    intros a b [= ->]. reflexivity.
  - intros [x y'] Hin Hin'.
    apply in_map_iff in Hin as (x' & [= <- <-] & _).
    apply in_flat_map in Hin' as (y2 & Hy2 & Hin').
    apply in_map_iff in Hin' as (x2 & [= <- <-] & _).
    contradiction.
Qed.

Lemma skipn_tl {A : Type} (n : nat) (l : list A) :
  skipn n (tl l) = skipn (S n) l.
Proof. destruct l; [destruct n; reflexivity | reflexivity]. Qed.

Lemma skipn_skipn' {A : Type} (n m : nat) (l : list A) :
  skipn n (skipn m l) = skipn (m + n) l.
Proof.
  revert l. induction m as [|m IH]; intros l; [reflexivity|].
  destruct l; [destruct n; reflexivity | apply IH].
Qed.

Lemma Forall_skipn {A : Type} (P : A -> Prop) (n : nat) (l : list A) :
  Forall P l -> Forall P (skipn n l).
Proof.
  revert l. induction n as [|n IH]; intros l H; [exact H|].
  destruct l; [constructor|]. inversion H; subst. apply IH. assumption.
Qed.

Lemma Forall_firstn {A : Type} (P : A -> Prop) (n : nat) (l : list A) :
  Forall P l -> Forall P (firstn n l).
Proof.
  revert l. induction n as [|n IH]; intros l H; [constructor|].
  destruct l; [constructor|]. inversion H; subst.
  cbn. constructor; [assumption | apply IH; assumption].
Qed.

Lemma firstn_app_short {A : Type} (n : nat) (l1 l2 : list A) :
  (n <= length l1)%nat -> firstn n (l1 ++ l2) = firstn n l1.
Proof.
  intros H. rewrite firstn_app.
  replace (n - length l1)%nat with 0%nat by lia.
  rewrite firstn_O, app_nil_r. reflexivity.
Qed.

Lemma firstn_app_long {A : Type} (l1 l2 : list A) (m n : nat) :
  (length l1 + m = n)%nat -> firstn n (l1 ++ l2) = l1 ++ firstn m l2.
Proof.
  intros <-. rewrite firstn_app.
  rewrite firstn_all2 by lia. f_equal. f_equal. lia.
Qed.

Section Scene.

Variables (config : Config) (camera : Camera) (objects : list Object)
  (lights : list Light) (colour : Z -> Z -> Vector3).

Lemma scene_pixels_quiet (y : Z) (xs : list Z) : forall st,
  (forall x, In x xs ->
             draw_pixel config x y camera objects lights = Ok (colour x y)) ->
  Forall (Forall harmless) (firstn (length xs) (pending st)) ->
  for_each (scene_pixel config camera objects lights y) xs st
  = (mkScene (written st ++ map (fun x => (x, y, colour x y)) xs)
             (flips st) (skipn (length xs) (pending st)), None).
Proof.
  induction xs as [|x rest IH]; intros st Hdraw Hquiet.
  - cbn. rewrite app_nil_r. destruct st; reflexivity.
  - cbn [for_each]. unfold scene_pixel at 1.
    rewrite Hdraw by (left; reflexivity).
    assert (Hhd : process_events (hd [] (pending st)) = None
                  /\ Forall (Forall harmless)
                            (firstn (length rest) (tl (pending st)))).
    { destruct (pending st) as [|evs polls]; cbn in *.
      - split; [reflexivity|]. rewrite firstn_nil. constructor.
      - inversion Hquiet; subst. split; [|assumption].
        apply process_events_harmless. assumption. }
    destruct Hhd as [-> Htl]. rewrite IH.
    + cbn [written flips pending map length].
      rewrite <- app_assoc, skipn_tl. reflexivity.
    + intros x' Hx'. apply Hdraw. right. exact Hx'.
    + exact Htl.
Qed.

Lemma scene_pixels_exit (y : Z) (xs : list Z) : forall st before evs after q,
  (forall x, In x xs ->
             draw_pixel config x y camera objects lights = Ok (colour x y)) ->
  pending st = before ++ evs :: after ->
  Forall (Forall harmless) before ->
  process_events evs = Some q ->
  (length before < length xs)%nat ->
  for_each (scene_pixel config camera objects lights y) xs st
  = (mkScene (written st
              ++ map (fun x => (x, y, colour x y))
                     (firstn (S (length before)) xs))
             (flips st) after, Some (SystemExit q)).
Proof.
  induction xs as [|x rest IH]; intros st before evs after q Hdraw Hp Hb Hq Hlen;
    [cbn in Hlen; lia|].
  cbn [for_each]. unfold scene_pixel at 1.
  rewrite Hdraw by (left; reflexivity). rewrite Hp.
  destruct before as [|b before'].
  - cbn [app hd tl]. rewrite Hq. cbn. reflexivity.
  - inversion Hb as [|? ? Hb1 Hb2]; subst.
    cbn [app hd tl]. apply process_events_harmless in Hb1. rewrite Hb1.
    rewrite (IH _ before' evs after q); cbn [pending written flips length]; auto.
    + rewrite <- app_assoc. reflexivity.
    + intros x' Hx'. apply Hdraw. right. exact Hx'.
    + cbn in Hlen. lia.
Qed.

Lemma scene_rows_quiet (xs ys : list Z) : forall st,
  (forall x y, In x xs -> In y ys ->
               draw_pixel config x y camera objects lights = Ok (colour x y)) ->
  Forall (Forall harmless) (pending st) ->
  for_each (fun y st =>
              match for_each (scene_pixel config camera objects lights y) xs st
              with
              | (st', None) =>
                  (mkScene (written st') (S (flips st')) (pending st'), None)
              | stopped => stopped
              end) ys st
  = (mkScene (written st
              ++ map (fun p => (fst p, snd p, colour (fst p) (snd p)))
                     (flat_map (fun y => map (fun x => (x, y)) xs) ys))
             (flips st + length ys)
             (skipn (length xs * length ys) (pending st)), None).
Proof.
  induction ys as [|y rest IH]; intros st Hdraw Hquiet.
  - cbn. rewrite app_nil_r, Nat.add_0_r, Nat.mul_0_r. destruct st; reflexivity.
  - cbn [for_each]. rewrite scene_pixels_quiet;
      [| | apply Forall_firstn; exact Hquiet].
    2:{ intros x Hx. apply Hdraw; [exact Hx | left; reflexivity]. }
    rewrite IH.
    + cbn [written flips pending flat_map length].
      rewrite map_app, map_map, <- app_assoc, skipn_skipn'. cbn [fst snd].
      f_equal. f_equal; [lia | f_equal; nia].
    + intros x y' Hx Hy'. apply Hdraw; [exact Hx | right; exact Hy'].
    + cbn [pending]. apply Forall_skipn, Hquiet.
Qed.

Lemma scene_rows_exit (xs ys : list Z) : forall st before evs after q,
  (forall x y, In x xs -> In y ys ->
               draw_pixel config x y camera objects lights = Ok (colour x y)) ->
  pending st = before ++ evs :: after ->
  Forall (Forall harmless) before ->
  process_events evs = Some q ->
  (length before < length xs * length ys)%nat ->
  for_each (fun y st =>
              match for_each (scene_pixel config camera objects lights y) xs st
              with
              | (st', None) =>
                  (mkScene (written st') (S (flips st')) (pending st'), None)
              | stopped => stopped
              end) ys st
  = (mkScene (written st
              ++ map (fun p => (fst p, snd p, colour (fst p) (snd p)))
                     (firstn (S (length before))
                             (flat_map (fun y => map (fun x => (x, y)) xs) ys)))
             (flips st + length before / length xs)
             after, Some (SystemExit q)).
Proof.
  induction ys as [|y rest IH]; intros st before evs after q Hdraw Hp Hb Hq Hlen;
    [cbn in Hlen; lia|].
  cbn [for_each flat_map].
  destruct (Nat.lt_ge_cases (length before) (length xs)) as [Hin | Hout].
  - rewrite (scene_pixels_exit y xs st before evs after q); auto.
    + rewrite firstn_app_short by (rewrite length_map; lia).
      rewrite firstn_map, map_map. cbn [fst snd].
      rewrite Nat.div_small by exact Hin. rewrite Nat.add_0_r. reflexivity.
    + intros x Hx. apply Hdraw; [exact Hx | left; reflexivity].
  - assert (Hxs : (0 < length xs)%nat) by (cbn in Hlen; nia).
    rewrite scene_pixels_quiet.
    + rewrite (IH _ (skipn (length xs) before) evs after q);
        cbn [written flips pending].
      * rewrite length_skipn.
        rewrite (firstn_app_long _ _ (S (length before - length xs)))
          by (rewrite length_map; lia).
        rewrite map_app, map_map, <- app_assoc. cbn [fst snd].
        f_equal. f_equal.
        replace (length before) with ((length before - length xs)
                                      + 1 * length xs)%nat at 2 by lia.
        rewrite Nat.div_add by lia. lia.
      * intros x y' Hx Hy'. apply Hdraw; [exact Hx | right; exact Hy'].
      * rewrite Hp, skipn_app.
        replace (length xs - length before)%nat with 0%nat by lia.
        reflexivity.
      * apply Forall_skipn, Hb.
      * exact Hq.
      * rewrite length_skipn. cbn in Hlen. nia.
    + intros x Hx. apply Hdraw; [exact Hx | left; reflexivity].
    + rewrite Hp, firstn_app.
      replace (length xs - length before)%nat with 0%nat by lia.
      rewrite firstn_O, app_nil_r. apply Forall_firstn, Hb.
Qed.

End Scene.

(** X28: when [draw_pixel] succeeds on every pixel and no exit event
    arrives, [draw_scene] sets every pixel of the screen exactly once, in
    scanline order, to the colour of [draw_pixel], flips the display once
    per row and polls the events once per pixel. *)
Theorem draw_scene_complete config camera objects lights colour st :
  (forall x y,
      (0 <= x < SCREEN_WIDTH config)%Z -> (0 <= y < SCREEN_HEIGHT config)%Z ->
      draw_pixel config x y camera objects lights = Ok (colour x y)) ->
  Forall (Forall harmless) (pending st) ->
  draw_scene config camera objects lights st
  = (mkScene (written st
              ++ map (fun p => (fst p, snd p, colour (fst p) (snd p)))
                     (scanline config))
             (flips st + Z.to_nat (SCREEN_HEIGHT config))
             (skipn (Z.to_nat (SCREEN_WIDTH config)
                     * Z.to_nat (SCREEN_HEIGHT config)) (pending st)),
     None)
  /\ NoDup (scanline config)
  /\ forall x y,
       In (x, y) (scanline config)
       <-> (0 <= x < SCREEN_WIDTH config /\ 0 <= y < SCREEN_HEIGHT config)%Z.
Proof.
  intros Hdraw Hquiet. split; [|split].
  - unfold draw_scene, scene_row.
    rewrite (scene_rows_quiet config camera objects lights colour).
    + rewrite !range_length. reflexivity.
    + intros x y Hx Hy. apply Hdraw; apply range_In; assumption.
    + exact Hquiet.
  - apply rows_NoDup; apply range_NoDup.
  - apply scanline_In.
Qed.

(** X29: when the first exit event arrives in the poll that follows pixel
    number [k] (counting from 0 in scanline order), [draw_scene] has set the
    pixels up to and including that one and no other, has flipped the
    display once for each row completed before it, and raises
    [SystemExit]. *)
Theorem draw_scene_interrupted config camera objects lights colour st
    before evs after q :
  (forall x y,
      (0 <= x < SCREEN_WIDTH config)%Z -> (0 <= y < SCREEN_HEIGHT config)%Z ->
      draw_pixel config x y camera objects lights = Ok (colour x y)) ->
  pending st = before ++ evs :: after ->
  Forall (Forall harmless) before ->
  process_events evs = Some q ->
  (length before
   < Z.to_nat (SCREEN_WIDTH config) * Z.to_nat (SCREEN_HEIGHT config))%nat ->
  draw_scene config camera objects lights st
  = (mkScene (written st
              ++ map (fun p => (fst p, snd p, colour (fst p) (snd p)))
                     (firstn (S (length before)) (scanline config)))
             (flips st + length before / Z.to_nat (SCREEN_WIDTH config))
             after,
     Some (SystemExit q)).
Proof.
  intros Hdraw Hp Hb Hq Hlen. unfold draw_scene, scene_row.
  rewrite (scene_rows_exit config camera objects lights colour _ _ st
             before evs after q); auto.
  - rewrite !range_length. reflexivity.
  - intros x y Hx Hy. apply Hdraw; apply range_In; assumption.
  - rewrite !range_length. exact Hlen.
Qed.

(** ** The further properties at the small scene *)

Lemma clamp_vec3_range_witness :
  clamp_vec3 (clamp_vec3 (vec3 2 (-1) (1 / 2)) 0 1) 0 1
  = clamp_vec3 (vec3 2 (-1) (1 / 2)) 0 1.
Proof.
  apply (clamp_vec3_range (vec3 2 (-1) (1 / 2)) 0 1). lra.
Defined.


Lemma Plane_hit_on_plane_witness :
  (hit_pos hit_front - vec3 0 0 5)%vec · plane_normal plane_front = 0.
Proof.
  destruct (Plane_hit_on_plane _ _ _ _ ray_primary [hit_front] plane_front_new
              front_primary) as [_ H].
  apply (H hit_front). left. reflexivity.
Defined.

Lemma Box_ray_test_hits_witness :
  hit_object hit_box0 = OBox box0
  /\ (length [hit_box0] <= 6)%nat.
Proof.
  destruct (Box_ray_test_hits box0 ray_primary [hit_box0]
              (Box_new_orthonormal _ _ _) box0_primary) as [Hlen H].
  split; [|exact Hlen]. apply (H hit_box0). left. reflexivity.
Defined.



Lemma load_line_face_witness :
  load_line matl_red vzero load_state3 (FaceLine [1; 2]%Z) = Raise ValueError
  /\ load_line matl_red vzero load_state3 (FaceLine [1; 2; 4]%Z)
     = Raise IndexError
  /\ exists a b c,
       load_line matl_red vzero load_state3 (FaceLine [1; 2; 3]%Z)
       = Ok (mkLoad (verts load_state3)
                    (ld_tris load_state3 ++ [mkTriangle matl_red a b c])
                    (min_max load_state3)).
Proof.
  split; [|split].
  - apply (load_line_face matl_red vzero load_state3 [1; 2]%Z). cbn. lia.
  - destruct (load_line_face matl_red vzero load_state3 [1; 2; 4]%Z) as [_ H].
    destruct (H 1 2 4 eq_refl)%Z as [_ Hout]. apply Hout.
    right. right. left. cbn. lia.
  - destruct (load_line_face matl_red vzero load_state3 [1; 2; 3]%Z) as [_ H].
    destruct (H 1 2 3 eq_refl)%Z as [Hin _].
    destruct Hin as (a & b & c & _ & _ & _ & Hload); cbn; try lia.
    exists a, b, c. exact Hload.
Defined.

Lemma mesh_lines_valid_refs : refs_in_range 0 mesh_lines_valid.
Proof. cbn. repeat split; try reflexivity. repeat constructor; lia. Qed.

Lemma mesh_lines_valid_loads :
  exists mesh, TriangleMesh_new matl_red vzero mesh_lines_valid = Ok mesh.
Proof.
  unfold TriangleMesh_new.
  destruct (load_lines_total matl_red vzero mesh_lines_valid (mkLoad [] [] None)
              mesh_lines_valid_refs) as [st Hst].
  rewrite Hst. cbn [bind].
  apply (load_lines_inv matl_red vzero mesh_lines_valid [] _ st
           (load_inv_init matl_red vzero)) in Hst.
  destruct Hst as (Hv & _ & _ & Hmm). cbn [app] in Hv.
  destruct (min_max st) as [[mn mx]|]; [eauto|].
  rewrite Hmm in Hv. discriminate.
Qed.

Lemma TriangleMesh_new_bounding_box_witness :
  exists mesh,
    TriangleMesh_new matl_red vzero mesh_lines_valid = Ok mesh
    /\ length (tris mesh) = 1%nat
    /\ Forall (inside_closed (box mesh))
              (loaded_verts vzero mesh_lines_valid).
Proof.
  destruct mesh_lines_valid_loads as [mesh Hmesh].
  exists mesh. split; [exact Hmesh|].
  destruct (TriangleMesh_new_bounding_box _ _ _ _ Hmesh)
    as (_ & Hn & _ & Hin & _).
  split; [exact Hn | exact Hin].
Defined.

Lemma TriangleMesh_new_source_witness :
  (exists mesh, TriangleMesh_new matl_red vzero mesh_lines_valid = Ok mesh)
  /\ TriangleMesh_new matl_red vzero [OtherLine; OtherLine] = Raise TypeError.
Proof.
  split.
  - apply (TriangleMesh_new_source matl_red vzero mesh_lines_valid).
    + exact mesh_lines_valid_refs.
    + discriminate.
  - apply (TriangleMesh_new_source matl_red vzero [OtherLine; OtherLine]).
    repeat constructor.
Defined.

Lemma mesh_around_primary :
  TriangleMesh_ray_test mesh_around ray_primary = Ok [hit_across].
Proof.
  unfold TriangleMesh_ray_test. cbn [box tris mesh_around].
  rewrite box0_primary. cbn [bind concat_results].
  rewrite tri_across_primary. reflexivity.
Qed.

Lemma hit_material_witness :
  matl (hit_object hit_across) = matl (OMesh mesh_around).
Proof.
  apply (hit_material (OMesh mesh_around) ray_primary [hit_across]).
  - intros m [= <-]. repeat constructor.
  - exact mesh_around_primary.
  - left. reflexivity.
Defined.


Lemma get_pixel_pos_3d_grid_witness :
  get_pixel_pos_3d config0 camera0 0 0 = Ok (view_origin camera0).
Proof.
  apply (get_pixel_pos_3d_grid config0 camera0); cbn; lia.
Defined.

Lemma shadow_loop_nearest_witness :
  exists closest',
    shadow_loop objects0 ray_shadow_front (vec3 0 0 (-15)) hit_front
    = Ok (closest', existsb (closer (vec3 0 0 (-15))) [hit_back])
    /\ In closest' [hit_back].
Proof.
  destruct (shadow_loop_nearest objects0 ray_shadow_front (vec3 0 0 (-15))
              hit_front [hit_back] shadow_front_hits)
    as (c' & Hloop & _ & _ & Hin).
  exists c'. split; [exact Hloop | apply Hin; discriminate].
Defined.

Lemma draw_pixel_spec_near_only :
  draw_pixel_spec config0 1 1 camera0 objects0 [light_near] = Ok (vec3 255 0 0).
Proof.
  unfold draw_pixel_spec.
  pose proof primary_ray_middle as Hray.
  destruct (get_pixel_pos_3d config0 camera0 1 1) as [pixel_pos|]; [|discriminate].
  cbn [bind] in Hray |- *. rewrite Hray. cbn [bind].
  rewrite primary_hits. cbn [bind min_hit fold_left light_loop_spec].
  rewrite light_step_spec_near. cbn [bind].
  f_equal. unfold clamp_vec3. vunfold. cbn.
  rewrite (clamp_above (1 * (1 / 2) + 1)), (clamp_unit (1 * 0 + 0)) by lra.
  apply vec3_eq; lra.
Qed.

Lemma draw_pixel_single_light_witness :
  draw_pixel config0 1 1 camera0 objects0 [light_near] = Ok (vec3 255 0 0).
Proof.
  apply draw_pixel_single_light.
  - cbn. lia.
  - exact draw_pixel_spec_near_only.
Defined.

Lemma draw_pixel_colour_range_witness :
  0 <= vx (vec3 (255 / 2) 255 0) <= 255
  /\ 0 <= vy (vec3 (255 / 2) 255 0) <= 255
  /\ 0 <= vz (vec3 (255 / 2) 255 0) <= 255.
Proof.
  apply (draw_pixel_colour_range config0 1 1 camera0 objects0 lights0).
  exact draw_pixel_value.
Defined.

Lemma process_events_first_exit_witness :
  process_events [OtherEvent; KEYDOWN OtherKey] = None
  /\ process_events [OtherEvent; QUIT; KEYDOWN K_ESCAPE] = Some false
  /\ process_events [KEYDOWN OtherKey; KEYDOWN K_ESCAPE; QUIT] = Some true.
Proof.
  assert (Hother : harmless OtherEvent) by (split; discriminate).
  assert (Hkey : harmless (KEYDOWN OtherKey)) by (split; discriminate).
  split; [|split].
  - apply (process_events_first_exit [OtherEvent; KEYDOWN OtherKey]).
    repeat (constructor; [assumption|]); constructor.
  - destruct (process_events_first_exit [OtherEvent; QUIT; KEYDOWN K_ESCAPE])
      as (_ & H & _).
    apply (H [OtherEvent] [KEYDOWN K_ESCAPE]); [reflexivity|].
    repeat (constructor; [assumption|]); constructor.
  - destruct (process_events_first_exit
                [KEYDOWN OtherKey; KEYDOWN K_ESCAPE; QUIT]) as (_ & _ & H).
    apply (H [KEYDOWN OtherKey] [QUIT]); [reflexivity|].
    repeat (constructor; [assumption|]); constructor.
Defined.

Lemma draw_scene_degenerate_screen_witness :
  draw_scene config1 camera0 objects0 lights0 scene_start
  = (scene_start, Some (Exception ZeroDivisionError)).
Proof.
  apply draw_scene_degenerate_screen. left. cbn. split; [reflexivity | lia].
Defined.

(** With nothing in the scene every pixel gets the background colour. *)
Lemma draw_pixel_empty_scene config pos coi up fov near camera px py lights :
  Camera_new config pos coi up fov near = Ok camera ->
  near <> 0 ->
  SCREEN_WIDTH config <> 1%Z -> SCREEN_HEIGHT config <> 1%Z ->
  draw_pixel config px py camera [] lights = Ok (vec3 128 128 128).
Proof.
  intros Hnew Hnear Hw Hh.
  destruct (primary_ray_facts _ _ _ _ _ _ _ px py Hnew Hnear Hw Hh)
    as (p & ray & Hp & _ & Hray & _).
  unfold draw_pixel. rewrite Hp. cbn [bind]. rewrite Hray. reflexivity.
Qed.

Lemma draw_pixel_empty_scene0 px py :
  draw_pixel config0 px py camera0 [] [] = Ok (vec3 128 128 128).
Proof.
  apply (draw_pixel_empty_scene config0 _ _ _ _ 1 camera0 px py []
           camera0_new); try lra; cbn; lia.
Qed.

Lemma draw_scene_complete_witness :
  snd (draw_scene config0 camera0 [] [] scene_start) = None
  /\ length (written (fst (draw_scene config0 camera0 [] [] scene_start)))
     = 9%nat
  /\ flips (fst (draw_scene config0 camera0 [] [] scene_start)) = 3%nat.
Proof.
  destruct (draw_scene_complete config0 camera0 [] []
              (fun _ _ => vec3 128 128 128) scene_start) as (-> & _ & _).
  - intros x y _ _. apply draw_pixel_empty_scene0.
  - constructor.
  - repeat split.
Defined.

Lemma draw_scene_interrupted_witness :
  snd (draw_scene config0 camera0 [] [] scene_quit) = Some (SystemExit false)
  /\ length (written (fst (draw_scene config0 camera0 [] [] scene_quit)))
     = 2%nat
  /\ flips (fst (draw_scene config0 camera0 [] [] scene_quit)) = 0%nat.
Proof.
  rewrite (draw_scene_interrupted config0 camera0 [] []
             (fun _ _ => vec3 128 128 128) scene_quit
             [[OtherEvent]] [QUIT] [] false).
  - repeat split.
  - intros x y _ _. apply draw_pixel_empty_scene0.
  - reflexivity.
  - constructor; [|constructor].
    constructor; [split; discriminate | constructor].
  - reflexivity.
  - cbn. lia.
Defined.

(** ** The specular term *)

Lemma light_loop_app camera objects st lights1 lights2 :
  light_loop camera objects st (lights1 ++ lights2)
  = (st' <- light_loop camera objects st lights1 ;;
     light_loop camera objects st' lights2).
Proof.
  revert st. induction lights1 as [|l rest IH]; intros st; cbn [app light_loop bind].
  - reflexivity.
  - destruct (light_step camera objects st l) as [st'|e]; cbn [bind]; auto.
Qed.

(** A light whose shadow ray hits nothing leaves [closest] as it is. *)
Lemma light_step_unoccluded camera objects hit color light :
  shadow_ray_hits camera objects hit light = Ok [] ->
  exists color',
    light_step_spec camera objects hit color light = Ok color'
    /\ light_step camera objects (hit, color) light = Ok (hit, color').
Proof.
  unfold shadow_ray_hits, light_step_spec, light_step. intros H.
  apply bind_Ok_inv in H as (tm & -> & H). cbn [bind].
  apply bind_Ok_inv in H as (shadow_ray & -> & H). cbn [bind].
  rewrite (in_shadow_spec_existsb _ _ _ _ H).
  destruct (shadow_loop_existsb objects shadow_ray (to_light tm) hit [] H)
    as (c' & -> & Hnil & _).
  rewrite Hnil by reflexivity. cbn. eauto.
Qed.

Lemma light_loop_unoccluded camera objects hit lights : forall color,
  Forall (fun l => shadow_ray_hits camera objects hit l = Ok []) lights ->
  exists color',
    light_loop_spec camera objects hit color lights = Ok color'
    /\ light_loop camera objects (hit, color) lights = Ok (hit, color').
Proof.
  induction lights as [|l rest IH]; intros color H; cbn [light_loop light_loop_spec].
  - eauto.
  - inversion H as [|? ? Hl Hrest]; subst.
    destruct (light_step_unoccluded camera objects hit color l Hl)
      as (c1 & -> & ->). cbn [bind]. apply IH, Hrest.
Qed.

(** X30: the specular term of every light that [draw_pixel] shades from the
    nearest intersection of the primary ray, that is the first light and
    every later one as long as no shadow ray before it has hit a primitive.
    It is computed from [reflect_dir = 2*diff_strength*normal - light_dir]
    and [spec_strength = camera_dir . reflect_dir] whatever the sign of
    [diff_strength]; when [spec_strength > 0] the term
    [spec_strength ** hard * hadamard(light.spec, matl.spec)], with the normal
    and the material of that intersection, goes into the colour of the
    pixel unless the point is in shadow, also when [diff_strength <= 0],
    where the diffuse term is zero. *)
Theorem specular_term_primary_hit config px py camera objects quiet light
    pixel_pos ray h hs ldir cdir shadow_ray all_hits :
  get_pixel_pos_3d config camera px py = Ok pixel_pos ->
  Ray_new (cam_pos camera) (pixel_pos - cam_pos camera)%vec = Ok ray ->
  concat_results (fun object => ray_test object ray) objects = Ok (h :: hs) ->
  let hit := min_hit h hs in
  let m := matl (hit_object hit) in
  Forall (fun l => shadow_ray_hits camera objects hit l = Ok []) quiet ->
  normalize (light_pos light - hit_pos hit)%vec = Ok ldir ->
  normalize (cam_pos camera - hit_pos hit)%vec = Ok cdir ->
  Ray_new (hit_pos hit + eps *v hit_normal hit)%vec ldir = Ok shadow_ray ->
  concat_results (fun object => ray_test object shadow_ray) objects
  = Ok all_hits ->
  let diff_strength := ldir · hit_normal hit in
  let reflect_dir := ((2 * diff_strength) *v hit_normal hit - ldir)%vec in
  let spec_strength := cdir · reflect_dir in
  let diff_term :=
    if Rgt_dec diff_strength 0
    then diff_strength *v hadamard (light_diff light) (diff m) else vzero in
  let spec_term :=
    Rpower spec_strength (hard m) *v hadamard (light_spec light) (spec m) in
  let in_shadow :=
    existsb (closer (light_pos light - hit_pos hit)%vec) all_hits in
  spec_strength > 0 ->
  exists color,
    light_loop_spec camera objects hit
                    (hadamard (AMBIENT_LIGHT_COLOR config) (ambi m)) quiet
    = Ok color
    /\ draw_pixel config px py camera objects (quiet ++ [light])
       = Ok (255 *v clamp_vec3 (if in_shadow then color
                                else (color + (diff_term + spec_term))%vec) 0 1)
    /\ (diff_strength <= 0 -> diff_term = vzero).
Proof.
  intros Hpix Hray Hhits hit m Hquiet Hl Hc Hsray Hall
         dstr rdir sstr diff_term spec_term in_shadow Hspec.
  destruct (light_loop_unoccluded camera objects hit quiet
              (hadamard (AMBIENT_LIGHT_COLOR config) (ambi m)) Hquiet)
    as (color & Hspecloop & Hloop).
  exists color. split; [exact Hspecloop|].
  destruct (shadow_loop_existsb objects shadow_ray
              (light_pos light - hit_pos hit)%vec hit all_hits Hall)
    as (closest' & Hsh & _).
  destruct (light_step_terms camera objects hit color light ldir cdir
              shadow_ray closest' in_shadow Hl Hc Hsray Hsh Hspec)
    as [Hstep Hdiff].
  split; [|exact Hdiff].
  unfold draw_pixel. rewrite Hpix. cbn [bind]. rewrite Hray. cbn [bind].
  rewrite Hhits. cbn [bind]. fold hit. fold m.
  rewrite light_loop_app, Hloop. cbn [bind light_loop].
  rewrite Hstep. cbn [bind]. reflexivity.
Qed.

(** The triangle lit from behind. *)

Lemma camera_wide_new :
  Camera_new config_wide (vec3 0 0 0) (vec3 0 0 1) (vec3 0 1 0) 90 1
  = Ok camera_wide.
Proof.
  unfold Camera_new.
  rewrite (normalize_to _ (vec3 0 0 1) 1); [| lra | vcalc | vcalc].
  cbn [bind].
  rewrite (normalize_to _ (vec3 1 0 0) 1); [| lra | vcalc | vcalc].
  cbn [bind].
  replace (0.5 * radians 90) with (PI / 4) by (unfold radians; lra).
  rewrite tan_PI4. unfold camera_wide. f_equal. cbn [ASPECT_RATIO config_wide].
  f_equal; vcalc.
Qed.

Lemma primary_ray_wide :
  get_pixel_pos_3d config_wide camera_wide 2 1 = Ok (vec3 (4 / 3) 0 1)
  /\ Ray_new (cam_pos camera_wide) (vec3 (4 / 3) 0 1 - cam_pos camera_wide)%vec
     = Ok ray_wide.
Proof.
  split.
  - unfold get_pixel_pos_3d.
    cbn [SCREEN_WIDTH SCREEN_HEIGHT config_wide Z.sub Z.add Z.opp Z.pos_sub
         Pos.pred_double].
    rewrite !pydiv_nonzero by lra. cbn [bind]. f_equal. vcalc.
  - unfold Ray_new.
    rewrite (normalize_to _ (vec3 (4 / 5) 0 (3 / 5)) (5 / 3)); [| lra | vcalc | vcalc].
    reflexivity.
Qed.

Lemma tri_edge_primary : Triangle_ray_test tri_edge ray_wide = Ok [hit_edge].
Proof.
  unfold Triangle_ray_test.
  rewrite (normalize_to _ (vec3 0 0 (-1)) 2); [| lra | vcalc | vcalc ].
  cbn [bind].
  destruct (Req_dec_T _ 0) as [H|_]; [revert H; vcalc|].
  rewrite pydiv_nonzero by vcalc.
  replace ((vec3 0 0 (-1) · tri_a tri_edge - ray_pos ray_wide · vec3 0 0 (-1))
           / (vec3 0 0 (-1) · ray_dir ray_wide)) with 5 by vcalc.
  cbn [bind]. rewrite Rlt_dec_false by lra.
  replace (get_point ray_wide 5) with (vec3 4 0 3) by vcalc.
  rewrite (magnitude_eq (cross (tri_b tri_edge - tri_a tri_edge)
                               (tri_c tri_edge - tri_a tri_edge)) 2)
    by vcalc.
  rewrite (magnitude_eq (cross (tri_b tri_edge - tri_a tri_edge) _) 0)
    by vcalc.
  rewrite (magnitude_eq (cross (tri_b tri_edge - _) _) 1) by vcalc.
  rewrite (magnitude_eq _ 1) by vcalc.
  rewrite pydiv_nonzero by lra. cbn [bind].
  destruct (Rle_dec _ _); [|lra].
  rewrite RayIntersection_new_unit by vcalc. reflexivity.
Qed.

Lemma tri_edge_shadow : Triangle_ray_test tri_edge ray_shadow_edge = Ok [].
Proof.
  unfold Triangle_ray_test.
  rewrite (normalize_to _ (vec3 0 0 (-1)) 2); [| lra | vcalc | vcalc ].
  cbn [bind].
  destruct (Req_dec_T _ 0) as [H|_]; [revert H; vcalc|].
  rewrite pydiv_nonzero by vcalc.
  replace ((vec3 0 0 (-1) · tri_a tri_edge - ray_pos ray_shadow_edge · vec3 0 0 (-1))
           / (vec3 0 0 (-1) · ray_dir ray_shadow_edge)) with (1 / 6000) by vcalc.
  cbn [bind]. rewrite Rlt_dec_false by lra.
  replace (get_point ray_shadow_edge (1 / 6000)) with (vec3 (30001 / 7500) 0 3)
    by vcalc.
  rewrite (magnitude_eq (cross (tri_b tri_edge - tri_a tri_edge)
                               (tri_c tri_edge - tri_a tri_edge)) 2)
    by vcalc.
  rewrite (magnitude_eq (cross (tri_b tri_edge - tri_a tri_edge) _) (2 / 7500))
    by vcalc.
  rewrite (magnitude_eq (cross (tri_b tri_edge - _) _) (7501 / 7500)) by vcalc.
  rewrite (magnitude_eq _ (7501 / 7500)) by vcalc.
  rewrite pydiv_nonzero by lra. cbn [bind].
  destruct (Rle_dec _ _); [lra | reflexivity].
Qed.

(** There [diff_strength = -3/5] and [spec_strength = 7/25], and the shadow
    ray passes the triangle by. *)
Lemma specular_term_primary_hit_witness :
  vec3 (4 / 5) 0 (3 / 5) · hit_normal hit_edge = - 3 / 5
  /\ vec3 (-4 / 5) 0 (-3 / 5)
     · ((2 * (- 3 / 5)) *v hit_normal hit_edge - vec3 (4 / 5) 0 (3 / 5))%vec
     = 7 / 25
  /\ draw_pixel config_wide 2 1 camera_wide [OTriangle tri_edge] [light_behind]
     = Ok (255 *v clamp_vec3
                   (vec3 (1 / 2) 0 0
                    + (vzero + Rpower (7 / 25) 10 *v vec3 1 1 1))%vec 0 1).
Proof.
  split; [vcalc|]. split; [vcalc|].
  destruct primary_ray_wide as [Hpix Hray].
  destruct (specular_term_primary_hit config_wide 2 1 camera_wide
              [OTriangle tri_edge] [] light_behind (vec3 (4 / 3) 0 1) ray_wide
              hit_edge [] (vec3 (4 / 5) 0 (3 / 5)) (vec3 (-4 / 5) 0 (-3 / 5))
              ray_shadow_edge [])
    as (color & Hcolor & Hdraw & Hdiff).
  - exact Hpix.
  - exact Hray.
  - cbn [concat_results ray_test]. rewrite tri_edge_primary. reflexivity.
  - constructor.
  - apply (normalize_to _ _ 5); vcalc.
  - apply (normalize_to _ _ 5); vcalc.
  - unfold Ray_new.
    rewrite (normalize_to _ (vec3 (4 / 5) 0 (3 / 5)) 1); [| lra | vcalc | vcalc].
    cbn [bind]. unfold ray_shadow_edge. do 2 f_equal. vcalc.
  - cbn [concat_results ray_test]. rewrite tri_edge_shadow. reflexivity.
  - vcalc.
  - cbn [light_loop_spec] in Hcolor. injection Hcolor as <-.
    cbn [app] in Hdraw. rewrite Hdraw. cbn [existsb].
    rewrite Hdiff by vcalc.
    cbn [min_hit fold_left hit_normal hit_object hit_edge matl tri_matl tri_edge
         hard spec ambi matl_red light_spec light_behind AMBIENT_LIGHT_COLOR
         config_wide].
    replace (vec3 (-4 / 5) 0 (-3 / 5)
             · ((2 * (vec3 (4 / 5) 0 (3 / 5) · vec3 0 0 (-1))) *v vec3 0 0 (-1)
                - vec3 (4 / 5) 0 (3 / 5))%vec) with (7 / 25) by vcalc.
    replace (hadamard (vec3 1 1 1) (vec3 (1 / 2) 0 0)) with (vec3 (1 / 2) 0 0)
      by vcalc.
    replace (hadamard (vec3 1 1 1) (vec3 1 1 1)) with (vec3 1 1 1) by vcalc.
    reflexivity.
Defined.

(** * Double precision: the tests on binary64 numbers *)

Section Doubles.
Import PrimFloat FloatOps SpecFloat.
#[local] Set Warnings "-inexact-float".
Local Open Scope float_scope.

(** Evaluation of [to_R] at given doubles. *)
Ltac to_R_eval :=
  unfold vec_to_R, F64.to_R; cbn [F64.vx F64.vy F64.vz];
  repeat match goal with
         | |- context [Prim2SF ?x] =>
             let v := eval vm_compute in (Prim2SF x) in
             change (Prim2SF x) with v
         end;
  cbn [powerRZ]; rewrite ?pow_IZR;
  repeat match goal with
         | |- context [Z.pow ?a ?b] =>
             let v := eval vm_compute in (Z.pow a b) in
             change (Z.pow a b) with v
         end.

(** ** The inputs used below *)





Lemma box_large_values :
  vec_to_R (F64.box_pos F64.box_large) = box_pos box_large_exact
  /\ vec_to_R (F64.extents F64.box_large) = extents box_large_exact
  /\ map vec_to_R (F64.axes F64.box_large) = axes box_large_exact.
Proof.
  unfold box_large_exact, Box_new.
  cbn [extents box_pos axes F64.extents F64.box_pos F64.axes F64.box_large
       F64.Box_new map].
  repeat split; to_R_eval; repeat f_equal; try apply vec3_eq; lra.
Qed.

(** ** What the tests can raise *)

Lemma normalize_raises_double (v : F64.Vector3) :
  raises_only (eq ValueError) (F64.normalize v).
Proof.
  intros e. unfold F64.normalize. destruct (_ =? 0); [|discriminate].
  intros [= <-]. reflexivity.
Qed.

Lemma RayIntersection_new_raises_double ray o p n t :
  raises_only (eq ValueError)
    (h <- F64.RayIntersection_new ray o p n t ;; Ok [h]).
Proof.
  apply raises_only_bind; [|intros a _; apply raises_only_Ok].
  unfold F64.RayIntersection_new.
  apply raises_only_bind; [apply normalize_raises_double|].
  intros a _. apply raises_only_Ok.
Qed.

Lemma Plane_ray_test_raises_double self ray :
  raises_only (eq ValueError) (F64.Plane_ray_test self ray).
Proof.
  unfold F64.Plane_ray_test, F64.pydiv.
  destruct (_ =? 0); [apply raises_only_Ok|]. cbn [bind].
  destruct (0 <? _); [|apply raises_only_Ok].
  apply RayIntersection_new_raises_double.
Qed.

Lemma Sphere_hit_raises self ray t :
  raises_only (eq ValueError) (F64.Sphere_hit self ray t).
Proof.
  unfold F64.Sphere_hit.
  apply raises_only_bind; [apply normalize_raises_double|].
  intros n _. apply RayIntersection_new_raises_double.
Qed.

Lemma Sphere_ray_test_raises_double self ray :
  raises_only (fun e => e = ValueError \/ e = OverflowError)
              (F64.Sphere_ray_test self ray).
Proof.
  assert (Hhit : forall t, raises_only (fun e => e = ValueError \/ e = OverflowError)
                                       (F64.Sphere_hit self ray t)).
  { intros t. eapply raises_only_weaken; [|apply Sphere_hit_raises].
    intros e <-. now left. }
  unfold F64.Sphere_ray_test.
  destruct (_ <? 0); [apply raises_only_Ok|].
  apply raises_only_bind.
  { intros e. unfold F64.pypow2. destruct (_ && _)%bool; [|discriminate].
    intros [= <-]. now right. }
  intros sq _.
  destruct (_ <? _); [apply raises_only_Ok|].
  apply raises_only_bind.
  { intros e. unfold F64.pysqrt. destruct (_ <? 0); [|discriminate].
    intros [= <-]. now left. }
  intros thc _.
  destruct (_ <? _); cbn zeta;
    repeat (destruct (_ <? 0); try apply raises_only_Ok); apply Hhit.
Qed.

Lemma Box_face_test_raises_double self ray face :
  raises_only (fun e => e = ValueError \/ e = IndexError)
              (F64.Box_face_test self ray face).
Proof.
  assert (Hidx : forall i, raises_only (fun e => e = ValueError \/ e = IndexError)
                                       (py_index (F64.axes self) i)).
  { intros i. eapply raises_only_weaken; [|apply py_index_raises].
    intros e <-. now right. }
  unfold F64.Box_face_test, F64.pydiv. destruct face as [normal d].
  destruct (_ =? 0); [apply raises_only_Ok|].
  destruct (0 <=? _); [|apply raises_only_Ok].
  apply raises_only_bind; [apply Hidx|]. intros a0 _.
  do 2 (destruct (_ <? _); [|apply raises_only_Ok]).
  apply raises_only_bind; [apply Hidx|]. intros a1 _.
  do 2 (destruct (_ <? _); [|apply raises_only_Ok]).
  apply raises_only_bind; [apply Hidx|]. intros a2 _.
  do 2 (destruct (_ <? _); [|apply raises_only_Ok]).
  eapply raises_only_weaken; [|apply RayIntersection_new_raises_double].
  intros e <-. now left.
Qed.

Lemma Box_ray_test_raises_double self ray :
  raises_only (fun e => e = ValueError \/ e = IndexError)
              (F64.Box_ray_test self ray).
Proof.
  unfold F64.Box_ray_test. apply raises_only_concat_results.
  intros [axis extent] _. unfold F64.Box_axis_test.
  apply raises_only_concat_results. intros face _.
  apply Box_face_test_raises_double.
Qed.

(** ** Sphere *)








(** ** Box *)

(** C10, the failing case.  The box of half-extents [1e13] around the origin
    and the ray from its centre along [z]: in exact arithmetic the ray
    leaves through the face [z = 1e13] and that hit is reported; in doubles
    [ez + 0.0001] is [ez], the strict comparison of the face test fails and
    [Box.ray_test] returns no intersection. *)
Theorem Box_ray_test_large_box :
  F64.Ray_new (F64.box_pos F64.box_large) (F64.vec3 0 0 1) = Ok F64.ray_z
  /\ (F64.vz (F64.extents F64.box_large) + F64.eps
      =? F64.vz (F64.extents F64.box_large)) = true
  /\ F64.Box_ray_test F64.box_large F64.ray_z = Ok []
  /\ vec_to_R (F64.box_pos F64.box_large) = box_pos box_large_exact
  /\ vec_to_R (F64.extents F64.box_large) = extents box_large_exact
  /\ map vec_to_R (F64.axes F64.box_large) = axes box_large_exact
  /\ strictly_inside box_large_exact (ray_pos ray_primary)
  /\ exists h hs, Box_ray_test box_large_exact ray_primary = Ok (h :: hs).
Proof.
  split; [vm_compute; reflexivity|].
  split; [vm_compute; reflexivity|].
  split; [vm_compute; reflexivity|].
  destruct box_large_values as (Hp & He & Ha).
  repeat (split; [assumption|]).
  assert (Hin : strictly_inside box_large_exact (ray_pos ray_primary)).
  { unfold strictly_inside. cbn.
    repeat (constructor; [apply Rabs_def1; vcalc|]). constructor. }
  split; [exact Hin|].
  apply (Box_ray_test_inside box_large_exact (vec3 0 0 0) (vec3 0 0 1)
                             ray_primary); try (cbn; lra).
  - apply Box_new_orthonormal.
  - exact ray_primary_new.
  - exact Hin.
Qed.

(** ** Exceptions *)

(** X6: on doubles the plane, sphere and box tests never raise
    [ZeroDivisionError]: the division of the plane test comes after the
    test of its divisor, the one of the box test is caught.  What they can
    raise is [ValueError] (a normal of length zero, a square root of a
    negative number), [OverflowError] (the square of [tca] in the sphere
    test) and [IndexError] (a box with fewer than three axes). *)
Theorem ray_test_divisions_guarded (object : F64.Object) (ray : F64.Ray)
    (e : exn) :
  F64.ray_test object ray = Raise e ->
  e = ValueError \/ e = OverflowError \/ e = IndexError.
Proof.
  destruct object as [p|s|b]; cbn [F64.ray_test]; intros H.
  - apply Plane_ray_test_raises_double in H. auto.
  - apply Sphere_ray_test_raises_double in H. tauto.
  - apply Box_ray_test_raises_double in H. tauto.
Qed.

(** The sphere so far ahead that [tca ** 2] overflows. *)
Lemma ray_test_divisions_guarded_witness :
  F64.ray_test (F64.OSphere F64.sphere_beyond) F64.ray_z = Raise OverflowError
  /\ (OverflowError = ValueError \/ OverflowError = OverflowError
      \/ OverflowError = IndexError).
Proof.
  assert (H : F64.ray_test (F64.OSphere F64.sphere_beyond) F64.ray_z
              = Raise OverflowError) by (vm_compute; reflexivity).
  split; [exact H|].
  exact (ray_test_divisions_guarded _ _ _ H).
Defined.

End Doubles.
